(** * Waggen: state graph, state identity, explorers and session migration

    A shallow embedding of the TypeScript sources

      - [src/types/index.ts], [src/types/interactive.ts]
      - [src/explorer/ActionDiscovery.ts] (action generation)
      - [src/explorer/StateManager.ts]
      - [src/graph/StateGraph.ts]
      - [src/explorer/Explorer.ts] (autonomous breadth-first engine)
      - [src/explorer/InteractiveExplorer.ts]
      - [src/session/SessionManager.ts]

    State ids, selectors and keys are JavaScript strings; a JS [Map] that the
    code iterates is a list in insertion order, a [Map]/[Record] that is only
    looked up is a [gmap], a [Set] of strings is a [gset].  The browser is a
    record of primitives the explorers are parameterised by. *)

From Stdlib Require Import ZArith NArith String Ascii DecimalString DecimalNat Sorted.
From stdpp Require Import gmap strings list fin_maps.

Local Open Scope string_scope.
Local Open Scope list_scope.

(* ===================================================================== *)
(** ** Bounded [while] loops *)
(* ===================================================================== *)

(** [while (cond) body] run with a binary fuel: [while_pos p] performs at most
    [p] iterations and leaves the loop as soon as [cond] is false.  Binary fuel
    keeps exponential bounds cheap to evaluate. *)
Module Loop.
Section Loop.
Context {S : Type}.
Variable cond : S -> bool.
Variable body : S -> S.

Fixpoint while_pos (p : positive) (s : S) : S :=
  if cond s then
    match p with
    | xH => body s
    | xO p' => while_pos p' (while_pos p' s)
    | xI p' => while_pos p' (while_pos p' (body s))
    end
  else s.

Definition while (fuel : N) (s : S) : S :=
  match fuel with
  | N0 => s
  | Npos p => while_pos p s
  end.

(** The same loop with unary fuel; used in proofs only. *)
Fixpoint while_nat (n : nat) (s : S) : S :=
  match n with
  | O => s
  | Datatypes.S n' => if cond s then while_nat n' (body s) else s
  end.
End Loop.
End Loop.

(* ===================================================================== *)
(** ** JavaScript helpers *)
(* ===================================================================== *)

(** The outcome of a call that may throw ([Throw] carries the message of
    the [Error]). *)
Inductive result (A : Type) :=
| Ok (a : A)
| Throw (msg : string).
Arguments Ok {A} a.
Arguments Throw {A} msg.

(** [String(n)] for a non-negative integer. *)
Definition string_of_nat (n : nat) : string :=
  NilEmpty.string_of_uint (Nat.to_uint n).

Fixpoint zeros (k : nat) (s : string) : string :=
  match k with
  | O => s
  | S k' => String "0" (zeros k' s)
  end.

(** [s.padStart(n, '0')] *)
Definition padStart0 (n : nat) (s : string) : string :=
  zeros (n - String.length s) s.

(** JavaScript truthiness of a possibly-undefined string and [a || b]. *)
Definition truthy (o : option string) : bool :=
  match o with
  | Some s => negb (bool_decide (s = ""))
  | None => false
  end.

Definition js_or (a b : option string) : option string :=
  if truthy a then a else b.

(** [a || 'literal'] *)
Definition js_or_str (a : option string) (d : string) : string :=
  match js_or a (Some d) with
  | Some s => s
  | None => d
  end.

(** [new URL(url).pathname]: the URL parser of the platform. *)
Class UrlParser := url_pathname : string -> string.

(* ===================================================================== *)
(** ** Data model ([src/types/index.ts]) *)
(* ===================================================================== *)

Inductive ElementType := EButton | ELink | EInput | ECheckbox | ESelect.
Inductive ActionType := AClick | AInput | ASubmit | ASelect | ACheck.

#[export] Instance ElementType_eq_dec : EqDecision ElementType.
Proof. solve_decision. Defined.
#[export] Instance ActionType_eq_dec : EqDecision ActionType.
Proof. solve_decision. Defined.

(** The string a template literal prints for an action type. *)
Definition ActionType_str (t : ActionType) : string :=
  match t with
  | AClick => "click"
  | AInput => "input"
  | ASubmit => "submit"
  | ASelect => "select"
  | ACheck => "check"
  end.

Record InteractiveElement := {
  selector : string;
  el_type : ElementType;
  label : string;
  tagName : string;
  attributes : gmap string string;
}.

Record Action := {
  a_type : ActionType;
  elementSelector : string;
  elementLabel : string;
  a_value : option string;        (* [value?: string] *)
}.

Record AppState := {
  id : string;
  url : string;
  domHash : string;
  description : string;
  elements : list InteractiveElement;
  timestamp : Z;
}.

Record StateTransition := {
  t_id : string;
  fromStateId : string;
  toStateId : string;
  action : Action;
}.

Record ExplorationQueueItem := {
  q_stateId : string;
  q_action : Action;
  q_pathFromRoot : list string;
}.

(** [src/types/interactive.ts] *)
Record AvailableAction := {
  av_id : string;
  av_action : Action;
  isExplored : bool;
  isSkipped : bool;
  resultStateId : option string;
}.

Record ExplorationStep := {
  step_timestamp : Z;
  step_fromStateId : string;
  step_toStateId : string;
  step_action : Action;
}.

Record ActionResultPayload := {
  success : bool;
  previousStateId : string;
  newStateId : string;
  isNewState : bool;
  error : option string;
}.

Record StateUpdatePayload := {
  currentState : option AppState;
  availableActions : list AvailableAction;
  payload_pathFromRoot : list string;
}.

(** What one capture reads off the page: [page.url()], the DOM hash
    ([computeDomHash], an MD5 prefix computed from the live DOM), the
    description ([generateDescription]) and the clock ([Date.now()]). *)
Record Snapshot := {
  snap_url : string;
  snap_domHash : string;
  snap_description : string;
  snap_now : Z;
}.

(* ===================================================================== *)
(** ** ActionDiscovery.generateActionsForElement *)
(* ===================================================================== *)

Module ActionDiscovery.

Definition generateActionsForElement (inputValues : gmap string string)
  (element : InteractiveElement) : list Action :=
  match el_type element with
  | EButton | ELink =>
    [ {| a_type := AClick; elementSelector := selector element;
         elementLabel := label element; a_value := None |} ]
  | EInput =>
    let inputType := js_or_str (attributes element !! "type") "text" in
    let value := js_or (inputValues !! inputType) (inputValues !! "text") in
    [ {| a_type := AInput; elementSelector := selector element;
         elementLabel := label element; a_value := value |} ]
  | ECheckbox =>
    [ {| a_type := ACheck; elementSelector := selector element;
         elementLabel := label element; a_value := None |} ]
  | ESelect =>
    [ {| a_type := ASelect; elementSelector := selector element;
         elementLabel := label element; a_value := Some "0" |} ]
  end.

End ActionDiscovery.

(* ===================================================================== *)
(** ** Plain objects used as records

    [const r: Record<string, V> = {}] followed by [r[k] = v]: the own
    properties of [r].  The values the sources store are arrays, so on the
    key ["__proto__"] the assignment runs the setter inherited from
    [Object.prototype]: it replaces the prototype of [r] and creates no
    property.  Every other key gets an own property.  [Object.entries],
    [Object.keys] and [JSON.stringify] see the own properties only. *)
(* ===================================================================== *)

Definition record_set {V} (k : string) (v : V) (own : gmap string V)
  : gmap string V :=
  if bool_decide (k = "__proto__") then own else <[k := v]> own.

(* ===================================================================== *)
(** ** StateManager ([src/explorer/StateManager.ts]) *)
(* ===================================================================== *)

Module StateManager.

Record t := {
  states : list AppState;                       (* Map<string, AppState> *)
  stateCounter : nat;
  exploredActions : gmap string (gset string);  (* Map<string, Set<string>> *)
}.

Definition empty : t :=
  {| states := []; stateCounter := 0; exploredActions := ∅ |}.

(** [Map.prototype.set] on a map kept in insertion order: an existing key
    keeps its place and gets the new value, a new key goes to the end. *)
Fixpoint map_set (l : list AppState) (s : AppState) : list AppState :=
  match l with
  | [] => [s]
  | x :: r => if bool_decide (id x = id s) then s :: r else x :: map_set r s
  end.

Definition getActionKey (a : Action) : string :=
  ActionType_str (a_type a) +:+ ":" +:+ elementSelector a +:+ ":" +:+
  js_or_str (a_value a) "".

(** [`state_${String(n).padStart(3, '0')}`] *)
Definition stateId (n : nat) : string :=
  "state_" +:+ padStart0 3 (string_of_nat n).

Section WithUrl.
Context `{UrlParser}.

Definition computeStateKey (u dh : string) : string :=
  url_pathname u +:+ ":" +:+ dh.

Definition findStateByKey (sm : t) (stateKey : string) : option AppState :=
  List.find
    (fun s => bool_decide (computeStateKey (url s) (domHash s) = stateKey))
    (states sm).

Definition captureState (sm : t) (page : Snapshot)
  (els : list InteractiveElement) : AppState * t :=
  let stateKey := computeStateKey (snap_url page) (snap_domHash page) in
  match findStateByKey sm stateKey with
  | Some existingState => (existingState, sm)
  | None =>
    let counter := S (stateCounter sm) in
    let state :=
      {| id := stateId counter;
         url := snap_url page;
         domHash := snap_domHash page;
         description := snap_description page;
         elements := els;
         timestamp := snap_now page |} in
    (state,
     {| states := map_set (states sm) state;
        stateCounter := counter;
        exploredActions := <[id state := ∅]> (exploredActions sm) |})
  end.

(** [captureState] with the outcome of [generateDescription] made
    explicit: [describe] is the description, or the reason of the
    rejection.  The object literal evaluates [++this.stateCounter] before
    it awaits [generateDescription], so a rejection leaves the counter
    incremented and stores nothing. *)
Definition captureStateWith (sm : t) (u dh : string)
  (describe : result string) (now : Z) (els : list InteractiveElement)
  : result AppState * t :=
  let stateKey := computeStateKey u dh in
  match findStateByKey sm stateKey with
  | Some existingState => (Ok existingState, sm)
  | None =>
    let counter := S (stateCounter sm) in
    match describe with
    | Throw msg =>
      (Throw msg,
       {| states := states sm; stateCounter := counter;
          exploredActions := exploredActions sm |})
    | Ok d =>
      let state :=
        {| id := stateId counter; url := u; domHash := dh;
           description := d; elements := els; timestamp := now |} in
      (Ok state,
       {| states := map_set (states sm) state;
          stateCounter := counter;
          exploredActions := <[id state := ∅]> (exploredActions sm) |})
    end
  end.

End WithUrl.

Definition isStateKnown (sm : t) (sid : string) : bool :=
  bool_decide (sid ∈ map id (states sm)).

Definition getState (sm : t) (sid : string) : option AppState :=
  List.find (fun s => bool_decide (id s = sid)) (states sm).

Definition getAllStates (sm : t) : list AppState := states sm.

Definition markActionExplored (sm : t) (sid : string) (a : Action) : t :=
  let actionKey := getActionKey a in
  match exploredActions sm !! sid with
  | Some explored =>
    {| states := states sm;
       stateCounter := stateCounter sm;
       exploredActions := <[sid := {[actionKey]} ∪ explored]> (exploredActions sm) |}
  | None => sm
  end.

Definition isActionExplored (sm : t) (sid : string) (a : Action) : bool :=
  let actionKey := getActionKey a in
  match exploredActions sm !! sid with
  | Some explored => bool_decide (actionKey ∈ explored)
  | None => false
  end.

Definition getUnexploredActions (sm : t) (sid : string) (actions : list Action)
  : list Action :=
  List.filter (fun a => negb (isActionExplored sm sid a)) actions.

Definition totalStates (sm : t) : nat := length (states sm).

End StateManager.

(* ===================================================================== *)
(** ** The bounded path search

    [StateGraph.findPathsTo] and [InteractiveExplorer.findPathsTo] have the
    same body; they differ in the default of [maxPaths] (3 and 1) and in
    where the entry id and the transitions are read from.  The body is
    embedded once, over the transition list and the entry id. *)
(* ===================================================================== *)

(** The filter of [getTransitionsFrom]. *)
Definition transitionsFrom (trs : list StateTransition) (sid : string)
  : list StateTransition :=
  List.filter (fun tr => bool_decide (fromStateId tr = sid)) trs.

Module PathSearch.

Record st := {
  queue : list (string * list string);    (* { stateId, path } *)
  allPaths : list (list string);
  visited : gset string;
}.

Section Search.
Variable trs : list StateTransition.
Variable entry : string.
Variable target : string.
Variable maxPaths : nat.

Definition init : st :=
  {| queue := [(entry, [entry])]; allPaths := []; visited := ∅ |}.

(** [queue.length > 0 && allPaths.length < maxPaths] *)
Definition cond (s : st) : bool :=
  bool_decide (0 < length (queue s)) &&
  bool_decide (length (allPaths s) < maxPaths).

(** The items pushed by the [for] loop over the outgoing transitions. *)
Definition successors (sid : string) (path : list string)
  : list (string * list string) :=
  map (fun tr => (toStateId tr, path ++ [toStateId tr]))
    (List.filter
       (fun tr => negb (bool_decide (toStateId tr ∈ path))
                  || bool_decide (toStateId tr = target))
       (transitionsFrom trs sid)).

Definition body (s : st) : st :=
  match queue s with
  | [] => s
  | (sid, path) :: rest =>          (* queue.shift() *)
    if bool_decide (sid = target) then
      {| queue := rest; allPaths := allPaths s ++ [path];
         visited := visited s |}
    else
      let pathKey := String.concat "->" path in
      if bool_decide (pathKey ∈ visited s) then
        {| queue := rest; allPaths := allPaths s; visited := visited s |}
      else
        {| queue := rest ++ successors sid path;
           allPaths := allPaths s;
           visited := {[pathKey]} ∪ visited s |}
  end.

(** Enough iterations for the loop to leave through its condition:
    with [T] transitions, [(T+1)^T]. *)
Definition fuel : N :=
  let T := N.of_nat (length trs) in ((T + 1) ^ T)%N.

Definition run : st := Loop.while cond body fuel init.

Definition findPaths : list (list string) :=
  if bool_decide (target = entry) then [[entry]]
  else allPaths run.
End Search.

End PathSearch.

(* ===================================================================== *)
(** ** StateGraph ([src/graph/StateGraph.ts]) *)
(* ===================================================================== *)

Module StateGraph.

(** The run metadata ([setMetadata]) plays no part in what follows and is
    left out. *)
Record t := {
  states : list AppState;             (* Map<string, AppState>, insertion order *)
  transitions : list StateTransition;
  entryStateId : string;
}.

Definition empty : t :=
  {| states := []; transitions := []; entryStateId := "" |}.

Definition has (g : t) (sid : string) : bool :=
  bool_decide (sid ∈ map id (states g)).

Definition addState (g : t) (s : AppState) : t :=
  if has g (id s) then g
  else {| states := states g ++ [s];
          transitions := transitions g;
          entryStateId := entryStateId g |}.

(** The predicate of [transitions.some(...)] in [addTransition]. *)
Definition sameEdge (tr t' : StateTransition) : bool :=
  bool_decide (fromStateId t' = fromStateId tr) &&
  bool_decide (toStateId t' = toStateId tr) &&
  bool_decide (elementSelector (action t') = elementSelector (action tr)) &&
  bool_decide (a_type (action t') = a_type (action tr)).

Definition addTransition (g : t) (tr : StateTransition) : t :=
  let exists_ := existsb (sameEdge tr) (transitions g) in
  if negb exists_ then
    {| states := states g;
       transitions := transitions g ++ [tr];
       entryStateId := entryStateId g |}
  else g.

Definition setEntryState (g : t) (sid : string) : t :=
  {| states := states g; transitions := transitions g; entryStateId := sid |}.

Definition getState (g : t) (sid : string) : option AppState :=
  List.find (fun s => bool_decide (id s = sid)) (states g).

Definition getAllStates (g : t) : list AppState := states g.
Definition getTransitions (g : t) : list StateTransition := transitions g.

Definition getTransitionsFrom (g : t) (sid : string) : list StateTransition :=
  transitionsFrom (transitions g) sid.

Definition getTransitionsTo (g : t) (sid : string) : list StateTransition :=
  List.filter (fun tr => bool_decide (toStateId tr = sid)) (transitions g).


(** [private findPathsTo(targetStateId, maxPaths = 3)] *)
Definition findPathsTo (g : t) (targetStateId : string) (maxPaths : nat)
  : list (list string) :=
  PathSearch.findPaths (transitions g) (entryStateId g) targetStateId maxPaths.

Definition defaultMaxPaths : nat := 3.

(** [computePaths(): Record<string, string[][]>], as the own properties
    of the record it returns. *)
Definition computePaths (g : t) : gmap string (list (list string)) :=
  if bool_decide (entryStateId g = "") then ∅
  else
    foldl
      (fun paths s =>
         record_set (id s) (findPathsTo g (id s) defaultMaxPaths) paths)
      ∅ (states g).

End StateGraph.

(* ===================================================================== *)
(** ** The browser

    The Playwright page the explorers drive.  [None] stands for a primitive
    that throws (a timeout, a detached element).  The waits that follow a
    navigation or an action are part of the primitive they follow. *)
(* ===================================================================== *)

Record Browser := {
  Page : Type;
  goto : Page -> Page;                 (* page.goto(config.url) *)
  snapshot : Page -> Snapshot;
  discoverElements : Page -> list InteractiveElement;
  isVisible : Page -> string -> bool;  (* isVisible().catch(() => false) *)
  click : Page -> string -> option Page;
  fill : Page -> string -> string -> option Page;
  closestForm : Page -> string -> option bool;
  pressEnter : Page -> option Page;
  optionValues : Page -> string -> option (list (option string));
  selectOption : Page -> string -> string -> option Page;
}.

(** [Explorer.executeAction] and [InteractiveExplorer.executeActionInternal]:
    the same body in both classes.  Returns the success flag and the page
    as the action left it. *)
Definition performAction (B : Browser) (p : Page B) (a : Action)
  : bool * Page B :=
  let sel := elementSelector a in
  if negb (isVisible B p sel) then (false, p)
  else
    match a_type a with
    | AClick | ACheck | ASubmit =>
      match click B p sel with
      | Some p' => (true, p')
      | None => (false, p)
      end
    | AInput =>
      match fill B p sel (js_or_str (a_value a) "Test input") with
      | None => (false, p)
      | Some p1 =>
        match closestForm B p1 sel with
        | None => (false, p1)
        | Some false => (true, p1)
        | Some true =>
          match pressEnter B p1 with
          | Some p2 => (true, p2)
          | None => (false, p1)
          end
        end
      end
    | ASelect =>
      match optionValues B p sel with
      | None => (false, p)
      | Some options =>
        if bool_decide (1 < length options) then
          match options !! 1%nat with
          | Some value =>
            if truthy value then
              match selectOption B p sel (default "" value) with
              | Some p' => (true, p')
              | None => (false, p)
              end
            else (true, p)
          | None => (true, p)
          end
        else (true, p)
      end
    end.

(* ===================================================================== *)
(** ** Explorer: the autonomous breadth-first engine
       ([src/explorer/Explorer.ts]) *)
(* ===================================================================== *)

Module Explorer.

Record Config := {
  maxStates : nat;
  maxDepth : nat;
  inputValues : gmap string string;
}.

Section WithBrowser.
Context `{UrlParser}.
Variable B : Browser.
Variable config : Config.

Record t := {
  page : Page B;
  stateManager : StateManager.t;
  stateGraph : StateGraph.t;
  explorationQueue : list ExplorationQueueItem;
}.

Definition captureCurrentState (ex : t) : AppState * t :=
  let els := discoverElements B (page ex) in
  let '(state, sm) :=
    StateManager.captureState (stateManager ex) (snapshot B (page ex)) els in
  (state,
   {| page := page ex;
      stateManager := sm;
      stateGraph := StateGraph.addState (stateGraph ex) state;
      explorationQueue := explorationQueue ex |}).

Definition queueActionsForState (ex : t) (state : AppState)
  (pathFromRoot : list string) : t :=
  let allActions :=
    flat_map (ActionDiscovery.generateActionsForElement (inputValues config))
      (elements state) in
  let unexploredActions :=
    StateManager.getUnexploredActions (stateManager ex) (id state) allActions in
  {| page := page ex;
     stateManager := stateManager ex;
     stateGraph := stateGraph ex;
     explorationQueue :=
       explorationQueue ex ++
       map (fun a => {| q_stateId := id state; q_action := a;
                        q_pathFromRoot := pathFromRoot ++ [id state] |})
         unexploredActions |}.

(** Reloads the entry URL; the path is not replayed. *)
Definition restoreToState (ex : t) (targetStateId : string)
  (pathFromRoot : list string) : t :=
  {| page := goto B (page ex);
     stateManager := stateManager ex;
     stateGraph := stateGraph ex;
     explorationQueue := explorationQueue ex |}.

Definition executeAction (ex : t) (a : Action) : bool * t :=
  let '(ok, p) := performAction B (page ex) a in
  (ok, {| page := p;
          stateManager := stateManager ex;
          stateGraph := stateGraph ex;
          explorationQueue := explorationQueue ex |}).

Definition exploreAction (ex : t) (item : ExplorationQueueItem) : t :=
  let sid := q_stateId item in
  let a := q_action item in
  let pathFromRoot := q_pathFromRoot item in
  let ex1 := restoreToState ex sid pathFromRoot in
  let ex2 :=
    {| page := page ex1;
       stateManager := StateManager.markActionExplored (stateManager ex1) sid a;
       stateGraph := stateGraph ex1;
       explorationQueue := explorationQueue ex1 |} in
  let '(ok, ex3) := executeAction ex2 a in
  if negb ok then ex3
  else
    let '(newState, ex4) := captureCurrentState ex3 in
    let transition :=
      {| t_id := "trans_" +:+
           string_of_nat (length (StateGraph.getTransitions (stateGraph ex4)) + 1);
         fromStateId := sid;
         toStateId := id newState;
         action := a |} in
    let ex5 :=
      {| page := page ex4;
         stateManager := stateManager ex4;
         stateGraph := StateGraph.addTransition (stateGraph ex4) transition;
         explorationQueue := explorationQueue ex4 |} in
    if negb (bool_decide (id newState = sid)) then
      queueActionsForState ex5 newState pathFromRoot
    else ex5.

(** The state [runExploration] builds before its loop, from a browser
    that has just been launched on page [p0]. *)
Definition start (p0 : Page B) : t :=
  let ex0 :=
    {| page := goto B p0;
       stateManager := StateManager.empty;
       stateGraph := StateGraph.empty;
       explorationQueue := [] |} in
  let '(initialState, ex1) := captureCurrentState ex0 in
  let ex2 :=
    {| page := page ex1;
       stateManager := stateManager ex1;
       stateGraph := StateGraph.setEntryState (stateGraph ex1) (id initialState);
       explorationQueue := explorationQueue ex1 |} in
  queueActionsForState ex2 initialState [].

(** The loop of [runExploration]: it is left when the queue is empty or
    when the number of states has reached [maxStates]. *)
Definition loopCond (ex : t) : bool :=
  bool_decide (0 < length (explorationQueue ex)) &&
  negb (bool_decide (maxStates config <= StateManager.totalStates (stateManager ex))%nat).

Definition loopBody (ex : t) : t :=
  match explorationQueue ex with
  | [] => ex
  | item :: rest =>
    let ex1 :=
      {| page := page ex;
         stateManager := stateManager ex;
         stateGraph := stateGraph ex;
         explorationQueue := rest |} in
    if bool_decide (maxDepth config <= length (q_pathFromRoot item))%nat then ex1
    else exploreAction ex1 item
  end.

(** [runExploration] cut off after [fuel] iterations of its loop. *)
Definition runExploration (fuel : N) (p0 : Page B) : t :=
  Loop.while loopCond loopBody fuel (start p0).

End WithBrowser.
End Explorer.

(* ===================================================================== *)
(** ** InteractiveExplorer ([src/explorer/InteractiveExplorer.ts]) *)
(* ===================================================================== *)

Module InteractiveExplorer.

(** The events handed to [emit]. *)
Inductive Event :=
| StateChange (payload : StateUpdatePayload)
| GraphUpdate (graph : StateGraph.t).

Section WithBrowser.
Context `{UrlParser}.
Variable B : Browser.
Variable inputValues : gmap string string.   (* config.inputValues *)

Record t := {
  page : option (Page B);                    (* Page | null *)
  stateManager : StateManager.t;
  stateGraph : StateGraph.t;
  currentStateId : string;
  entryStateId : string;
  pathFromRoot : list string;
  skippedActions : gmap string (gset string);
  explorationHistory : list ExplorationStep;
  executionLock : bool;
  emitted : list Event;                      (* events emitted so far *)
}.

Definition setLock (b : bool) (ex : t) : t :=
  {| page := page ex; stateManager := stateManager ex;
     stateGraph := stateGraph ex; currentStateId := currentStateId ex;
     entryStateId := entryStateId ex; pathFromRoot := pathFromRoot ex;
     skippedActions := skippedActions ex;
     explorationHistory := explorationHistory ex;
     executionLock := b; emitted := emitted ex |}.

Definition setPage (p : Page B) (ex : t) : t :=
  {| page := Some p; stateManager := stateManager ex;
     stateGraph := stateGraph ex; currentStateId := currentStateId ex;
     entryStateId := entryStateId ex; pathFromRoot := pathFromRoot ex;
     skippedActions := skippedActions ex;
     explorationHistory := explorationHistory ex;
     executionLock := executionLock ex; emitted := emitted ex |}.

Definition setStateManager (sm : StateManager.t) (ex : t) : t :=
  {| page := page ex; stateManager := sm;
     stateGraph := stateGraph ex; currentStateId := currentStateId ex;
     entryStateId := entryStateId ex; pathFromRoot := pathFromRoot ex;
     skippedActions := skippedActions ex;
     explorationHistory := explorationHistory ex;
     executionLock := executionLock ex; emitted := emitted ex |}.

Definition setStateGraph (g : StateGraph.t) (ex : t) : t :=
  {| page := page ex; stateManager := stateManager ex;
     stateGraph := g; currentStateId := currentStateId ex;
     entryStateId := entryStateId ex; pathFromRoot := pathFromRoot ex;
     skippedActions := skippedActions ex;
     explorationHistory := explorationHistory ex;
     executionLock := executionLock ex; emitted := emitted ex |}.

Definition setCursor (cur : string) (path : list string) (ex : t) : t :=
  {| page := page ex; stateManager := stateManager ex;
     stateGraph := stateGraph ex; currentStateId := cur;
     entryStateId := entryStateId ex; pathFromRoot := path;
     skippedActions := skippedActions ex;
     explorationHistory := explorationHistory ex;
     executionLock := executionLock ex; emitted := emitted ex |}.

Definition setEntry (e : string) (ex : t) : t :=
  {| page := page ex; stateManager := stateManager ex;
     stateGraph := stateGraph ex; currentStateId := currentStateId ex;
     entryStateId := e; pathFromRoot := pathFromRoot ex;
     skippedActions := skippedActions ex;
     explorationHistory := explorationHistory ex;
     executionLock := executionLock ex; emitted := emitted ex |}.

Definition setSkipped (sk : gmap string (gset string)) (ex : t) : t :=
  {| page := page ex; stateManager := stateManager ex;
     stateGraph := stateGraph ex; currentStateId := currentStateId ex;
     entryStateId := entryStateId ex; pathFromRoot := pathFromRoot ex;
     skippedActions := sk;
     explorationHistory := explorationHistory ex;
     executionLock := executionLock ex; emitted := emitted ex |}.

Definition pushHistory (s : ExplorationStep) (ex : t) : t :=
  {| page := page ex; stateManager := stateManager ex;
     stateGraph := stateGraph ex; currentStateId := currentStateId ex;
     entryStateId := entryStateId ex; pathFromRoot := pathFromRoot ex;
     skippedActions := skippedActions ex;
     explorationHistory := explorationHistory ex ++ [s];
     executionLock := executionLock ex; emitted := emitted ex |}.

Definition emit (e : Event) (ex : t) : t :=
  {| page := page ex; stateManager := stateManager ex;
     stateGraph := stateGraph ex; currentStateId := currentStateId ex;
     entryStateId := entryStateId ex; pathFromRoot := pathFromRoot ex;
     skippedActions := skippedActions ex;
     explorationHistory := explorationHistory ex;
     executionLock := executionLock ex; emitted := emitted ex ++ [e] |}.

(** The instance the constructor builds. *)
Definition new : t :=
  {| page := None; stateManager := StateManager.empty;
     stateGraph := StateGraph.empty; currentStateId := "";
     entryStateId := ""; pathFromRoot := [];
     skippedActions := ∅; explorationHistory := [];
     executionLock := false; emitted := [] |}.

Definition getCurrentState (ex : t) : option AppState :=
  StateManager.getState (stateManager ex) (currentStateId ex).

Definition getActionKey (a : Action) : string :=
  ActionType_str (a_type a) +:+ ":" +:+ elementSelector a +:+ ":" +:+
  js_or_str (a_value a) "".

Definition skipAction (ex : t) (sid actionKey : string) : t :=
  let skipped := default ∅ (skippedActions ex !! sid) in
  setSkipped (<[sid := {[actionKey]} ∪ skipped]> (skippedActions ex)) ex.

Definition unskipAction (ex : t) (sid actionKey : string) : t :=
  match skippedActions ex !! sid with
  | Some skipped =>
    setSkipped (<[sid := skipped ∖ {[actionKey]}]> (skippedActions ex)) ex
  | None => ex
  end.

Definition isActionSkipped (ex : t) (sid actionKey : string) : bool :=
  match skippedActions ex !! sid with
  | Some skipped => bool_decide (actionKey ∈ skipped)
  | None => false
  end.

Definition getAvailableActions (ex : t) : list AvailableAction :=
  match getCurrentState ex with
  | None => []
  | Some cs =>
    flat_map
      (fun element =>
         map
           (fun a =>
              let actionKey := getActionKey a in
              let actionId := id cs +:+ ":" +:+ actionKey in
              let explored :=
                StateManager.isActionExplored (stateManager ex) (id cs) a in
              let skipped := isActionSkipped ex (id cs) actionKey in
              let res :=
                if explored then
                  option_map toStateId
                    (List.find
                       (fun tr =>
                          bool_decide (elementSelector (action tr) = elementSelector a)
                          && bool_decide (a_type (action tr) = a_type a))
                       (StateGraph.getTransitionsFrom (stateGraph ex) (id cs)))
                else None in
              {| av_id := actionId; av_action := a; isExplored := explored;
                 isSkipped := skipped; resultStateId := res |})
           (ActionDiscovery.generateActionsForElement inputValues element))
      (elements cs)
  end.

Definition buildStateUpdatePayload (ex : t) : StateUpdatePayload :=
  {| currentState := getCurrentState ex;
     availableActions := [];
     payload_pathFromRoot := pathFromRoot ex |}.

(** [captureCurrentState] on the live page [p]. *)
Definition captureCurrentState (p : Page B) (ex : t) : AppState * t :=
  let els := discoverElements B p in
  let '(state, sm) :=
    StateManager.captureState (stateManager ex) (snapshot B p) els in
  (state,
   setStateGraph (StateGraph.addState (stateGraph ex) state)
     (setStateManager sm ex)).

Definition executeActionInternal (p : Page B) (a : Action) : bool * Page B :=
  performAction B p a.

(** [init()] on the page [p0] of a freshly launched browser. *)
Definition init (p0 : Page B) (ex : t) : AppState * t :=
  let p := goto B p0 in
  let '(initialState, ex1) := captureCurrentState p (setPage p ex) in
  let ex2 :=
    setStateGraph
      (StateGraph.setEntryState (stateGraph ex1) (id initialState)) ex1 in
  (initialState,
   setCursor (id initialState) [id initialState]
     (setEntry (id initialState) ex2)).

(** [private findPathsTo(targetStateId, maxPaths = 1)] *)
Definition findPathsTo (ex : t) (targetStateId : string) (maxPaths : nat)
  : list (list string) :=
  PathSearch.findPaths (StateGraph.transitions (stateGraph ex))
    (entryStateId ex) targetStateId maxPaths.

Definition defaultMaxPaths : nat := 1.

(** The result [executeAction] returns when the action is not found or
    fails; the [finally] block has released the lock. *)
Definition failure (previous msg : string) (ex : t)
  : result ActionResultPayload * t :=
  (Ok {| success := false; previousStateId := previous;
         newStateId := previous; isNewState := false; error := Some msg |},
   setLock false ex).

Definition executeAction (ex : t) (actionId : string)
  : result ActionResultPayload * t :=
  if executionLock ex then (Throw "Action already in progress", ex)
  else
    match page ex with
    | None => (Throw "Browser not initialized", ex)
    | Some p =>
      let ex1 := setLock true ex in
      let previous := currentStateId ex1 in
      match List.find (fun a => bool_decide (av_id a = actionId))
              (getAvailableActions ex1) with
      | None => failure previous ("Action not found: " +:+ actionId) ex1
      | Some actionItem =>
        let a := av_action actionItem in
        let ex2 :=
          setStateManager
            (StateManager.markActionExplored (stateManager ex1)
               (currentStateId ex1) a) ex1 in
        let '(ok, p') := executeActionInternal p a in
        let ex3 := setPage p' ex2 in
        if negb ok then failure previous "Action execution failed" ex3
        else
          let '(newState, ex4) := captureCurrentState p' ex3 in
          let isNew :=
            negb (bool_decide (id newState = previous)) &&
            negb (existsb
                    (fun s => bool_decide (id s = id newState) &&
                              bool_decide (timestamp s < timestamp newState)%Z)
                    (StateManager.getAllStates (stateManager ex4))) in
          let transition :=
            {| t_id := "trans_" +:+
                 string_of_nat
                   (length (StateGraph.getTransitions (stateGraph ex4)) + 1);
               fromStateId := previous;
               toStateId := id newState;
               action := a |} in
          let ex5 :=
            setStateGraph
              (StateGraph.addTransition (stateGraph ex4) transition) ex4 in
          let ex6 :=
            pushHistory
              {| step_timestamp := snap_now (snapshot B p');
                 step_fromStateId := previous;
                 step_toStateId := id newState;
                 step_action := a |} ex5 in
          let ex7 :=
            setCursor (id newState)
              (if negb (bool_decide (id newState = previous))
               then pathFromRoot ex6 ++ [id newState]
               else pathFromRoot ex6) ex6 in
          let ex8 := emit (StateChange (buildStateUpdatePayload ex7)) ex7 in
          let ex9 :=
            if isNew then emit (GraphUpdate (stateGraph ex8)) ex8 else ex8 in
          (Ok {| success := true; previousStateId := previous;
                 newStateId := id newState; isNewState := isNew;
                 error := None |},
           setLock false ex9)
      end
    end.

(** The replay loop of [jumpToState] over the edges of [path]. *)
Fixpoint replay (g : StateGraph.t) (p : Page B) (path : list string)
  : Page B :=
  match path with
  | from :: ((to :: _) as rest) =>
    let p' :=
      match List.find (fun tr => bool_decide (toStateId tr = to))
              (StateGraph.getTransitionsFrom g from) with
      | Some tr => snd (executeActionInternal p (action tr))
      | None => p
      end in
    replay g p' rest
  | _ => p
  end.

Definition jumpToState (ex : t) (targetStateId : string)
  : result StateUpdatePayload * t :=
  if executionLock ex then (Throw "Action in progress", ex)
  else
    match page ex with
    | None => (Throw "Browser not initialized", ex)
    | Some p =>
      match StateGraph.getState (stateGraph ex) targetStateId with
      | None => (Throw ("Unknown state: " +:+ targetStateId), ex)
      | Some targetState =>
        let ex1 := setLock true ex in
        if bool_decide (targetStateId = entryStateId ex1) then
          let ex2 :=
            setCursor (entryStateId ex1) [entryStateId ex1]
              (setPage (goto B p) ex1) in
          (Ok (buildStateUpdatePayload ex2), setLock false ex2)
        else
          match findPathsTo ex1 targetStateId defaultMaxPaths with
          | [] =>
            (Throw ("No path found to state: " +:+ targetStateId),
             setLock false ex1)
          | shortestPath :: _ =>
            let p1 := goto B p in
            let p2 := replay (stateGraph ex1) p1 shortestPath in
            let '(cs, ex2) := captureCurrentState p2 (setPage p2 ex1) in
            let ex3 := setCursor (id cs) shortestPath ex2 in
            (Ok (buildStateUpdatePayload ex3), setLock false ex3)
          end
      end
    end.

Definition goToRoot (ex : t) : result StateUpdatePayload * t :=
  jumpToState ex (entryStateId ex).

End WithBrowser.
End InteractiveExplorer.

(* ===================================================================== *)
(** ** SessionManager ([src/session/SessionManager.ts]) *)
(* ===================================================================== *)

(** The values [JSON.parse] produces, and [undefined] for a property that
    is not there.  Numbers are the integers: [JNum n] stands for the number
    written [n] in the file as long as [n] is below 2^53 in absolute value
    (beyond that a double is no longer the integer written, and from 1e21
    on it prints with an exponent); numbers with a fraction are not
    covered.  An object is its property list. *)
#[local] Set Warnings "-register-all".
Inductive jsval :=
| JUndefined
| JNull
| JBool (b : bool)
| JNum (n : Z)
| JStr (s : string)
| JArr (items : list jsval)
| JObj (fields : list (string * jsval)).

Module SessionManager.

Definition CURRENT_VERSION : Z := 1.

(** What [load] finds at [filePath]. *)
Inductive File :=
| Missing                    (* fs.existsSync is false *)
| Malformed (msg : string)   (* JSON.parse throws *)
| Parsed (raw : jsval).

(** The clock and the random source, as read by one call of [migrate]. *)
Record Env := {
  nowMillis : string;        (* Date.now() *)
  randomSuffix : string;     (* Math.random().toString(36).substr(2, 9) *)
  createdNow : string;       (* new Date().toISOString(), first read *)
  updatedNow : string;       (* new Date().toISOString(), second read *)
}.

Fixpoint lookupField (k : string) (fields : list (string * jsval)) : jsval :=
  match fields with
  | [] => JUndefined
  | (k', v) :: r => if bool_decide (k' = k) then v else lookupField k r
  end.

(** [v.k]: a [TypeError] on [undefined] and [null]. *)
Definition getProp (v : jsval) (k : string) : result jsval :=
  match v with
  | JUndefined =>
    Throw ("Cannot read properties of undefined (reading '" +:+ k +:+ "')")
  | JNull =>
    Throw ("Cannot read properties of null (reading '" +:+ k +:+ "')")
  | JObj fields => Ok (lookupField k fields)
  | _ => Ok JUndefined
  end.

(** [!v] is [negb (js_truthy v)]. *)
Definition js_truthy (v : jsval) : bool :=
  match v with
  | JUndefined | JNull => false
  | JBool b => b
  | JNum n => negb (bool_decide (n = 0%Z))
  | JStr s => negb (bool_decide (s = ""))
  | JArr _ | JObj _ => true
  end.

(** [a || b] *)
Definition js_oror (a b : jsval) : jsval := if js_truthy a then a else b.

(** [v === n] for a number [n]. *)
Definition js_eq_num (v : jsval) (n : Z) : bool :=
  match v with
  | JNum m => bool_decide (m = n)
  | _ => false
  end.

(** [v > n] for a number [n].  A string, an array or an object on the left
    goes through [ToNumber]; only the strings of decimal digits are
    converted here, the rest compare as [NaN]. *)
Definition js_gt_num (v : jsval) (n : Z) : bool :=
  match v with
  | JNum m => bool_decide (n < m)%Z
  | JBool b => bool_decide (n < (if b then 1 else 0))%Z
  | JNull => bool_decide (n < 0)%Z
  | JStr s =>
    match NilEmpty.uint_of_string s with
    | Some d => bool_decide (n < Z.of_nat (Nat.of_uint d))%Z
    | None => false
    end
  | _ => false
  end.

(** [`${v}`] for the values [js_gt_num] lets through. *)
Definition js_show (v : jsval) : string :=
  match v with
  | JNum m => string_of_nat (Z.to_nat m)
  | JStr s => s
  | _ => ""
  end.

Definition generateSessionId (env : Env) : string :=
  "session_" +:+ nowMillis env +:+ "_" +:+ randomSuffix env.

(** [migrate(raw)], on a [raw] whose properties can be read. *)
Definition migrateFields (env : Env) (raw : jsval)
  (data : list (string * jsval)) : result jsval :=
  let version := lookupField "version" data in
  if negb (js_truthy version) || js_eq_num version 0 then
    Ok (JObj
          [ ("version", JNum CURRENT_VERSION);
            ("id", js_oror (lookupField "id" data) (JStr (generateSessionId env)));
            ("appUrl", js_oror (lookupField "appUrl" data) (JStr ""));
            ("createdAt",
             js_oror (lookupField "createdAt" data) (JStr (createdNow env)));
            ("lastUpdatedAt", JStr (updatedNow env));
            ("currentStateId",
             js_oror (lookupField "currentStateId" data) (JStr ""));
            ("entryStateId", js_oror (lookupField "entryStateId" data) (JStr ""));
            ("stateGraph", lookupField "stateGraph" data);
            ("skippedActions",
             js_oror (lookupField "skippedActions" data) (JObj []));
            ("explorationHistory",
             js_oror (lookupField "explorationHistory" data) (JArr [])) ])
  else if js_gt_num version CURRENT_VERSION then
    Throw ("Session file version " +:+ js_show version +:+
           " is newer than supported version 1")
  else Ok raw.

Definition migrate (env : Env) (raw : jsval) : result jsval :=
  match raw with
  | JUndefined =>
    Throw "Cannot read properties of undefined (reading 'version')"
  | JNull => Throw "Cannot read properties of null (reading 'version')"
  | JObj data => migrateFields env raw data
  | _ => migrateFields env raw []
  end.

Definition load (env : Env) (filePath : string) (file : File) : result jsval :=
  match file with
  | Missing => Throw ("Session file not found: " +:+ filePath)
  | Malformed msg => Throw msg
  | Parsed raw =>
    match getProp raw "version" with
    | Throw msg => Throw msg
    | Ok version =>
      if negb (js_eq_num version CURRENT_VERSION) then migrate env raw
      else Ok raw
    end
  end.

(** The fields [ExplorationSession] declares, all of them required. *)
Definition requiredFields : list string :=
  [ "version"; "id"; "appUrl"; "createdAt"; "lastUpdatedAt";
    "currentStateId"; "entryStateId"; "stateGraph"; "skippedActions";
    "explorationHistory" ].

Definition fieldDefined (session : jsval) (k : string) : bool :=
  match session with
  | JObj fields =>
    match lookupField k fields with
    | JUndefined => false
    | _ => true
    end
  | _ => false
  end.

(** [Map<string, Set<string>>] to [Record<string, string[]>] and back.
    The loop of [serializeSkippedActions] assigns [result[stateId]] for each
    entry of the map; the result is given by its own properties, which
    [JSON.stringify] writes and [Object.entries] reads.
    [Array.from(set)] lists the members of the set; which order a [gset]
    lists them in is not the insertion order of the JavaScript set. *)
Definition serializeSkippedActions (m : gmap string (gset string))
  : gmap string (list string) :=
  map_fold
    (fun stateId (actions : gset string) result =>
       record_set stateId (base.elements actions) result)
    ∅ m.

Definition deserializeSkippedActions (obj : gmap string (list string))
  : gmap string (gset string) :=
  fmap (M := gmap string) (list_to_set : list string -> gset string) obj.

(** The characters [/[^a-zA-Z0-9]/] does not match. *)
Definition isAlnum (c : ascii) : bool :=
  let n := nat_of_ascii c in
  (Nat.leb 48 n && Nat.leb n 57) || (Nat.leb 65 n && Nat.leb n 90)
  || (Nat.leb 97 n && Nat.leb n 122).

(** [host.replace(/[^a-zA-Z0-9]/g, '_')] *)
Fixpoint sanitize (s : string) : string :=
  match s with
  | EmptyString => EmptyString
  | String c r => String (if isAlnum c then c else "_"%char) (sanitize r)
  end.

(** [getDefaultSessionPath(appUrl)]; [hostOf] is [new URL(appUrl).host],
    [None] where the constructor throws its [TypeError]. *)
Definition getDefaultSessionPath (hostOf : string -> option string)
  (appUrl : string) : result string :=
  match hostOf appUrl with
  | None => Throw "Invalid URL"
  | Some host =>
    Ok ("./output/sessions/" +:+ sanitize host +:+ "_session.json")
  end.

End SessionManager.

(* ===================================================================== *)
(** ** InteractiveServer: the skip handlers ([src/ui/InteractiveServer.ts]) *)
(* ===================================================================== *)

Module InteractiveServer.

(** [s.split(sep)] for a one-character separator. *)
Fixpoint split (sep : ascii) (s : string) : list string :=
  match s with
  | EmptyString => [EmptyString]
  | String c r =>
    if bool_decide (c = sep) then EmptyString :: split sep r
    else
      match split sep r with
      | h :: t => String c h :: t
      | [] => [String c EmptyString]
      end
  end.

(** [payload.actionId.split(':').slice(1).join(':')] *)
Definition actionKeyOf (actionId : string) : string :=
  String.concat ":" (tail (split ":" actionId)).

Definition handleSkipAction (B : Browser) (ex : InteractiveExplorer.t B)
  (actionId stateId : string) : InteractiveExplorer.t B :=
  InteractiveExplorer.skipAction B ex stateId (actionKeyOf actionId).

Definition handleUnskipAction (B : Browser) (ex : InteractiveExplorer.t B)
  (actionId stateId : string) : InteractiveExplorer.t B :=
  InteractiveExplorer.unskipAction B ex stateId (actionKeyOf actionId).

End InteractiveServer.

(* ===================================================================== *)
(** ** Vocabulary of the properties *)
(* ===================================================================== *)

(** A transition from [a] to [b] is recorded. *)
Definition edgeb (trs : list StateTransition) (a b : string) : bool :=
  existsb
    (fun tr => bool_decide (fromStateId tr = a) && bool_decide (toStateId tr = b))
    trs.

(** Consecutive states of [p] are joined by recorded transitions. *)
Fixpoint is_chain (trs : list StateTransition) (p : list string) : bool :=
  match p with
  | [] => true
  | a :: r =>
    match r with
    | [] => true
    | b :: _ => edgeb trs a b && is_chain trs r
    end
  end.

(** [p] is a recorded path from [entry] to [target]. *)
Definition recorded_path (trs : list StateTransition) (entry target : string)
  (p : list string) : Prop :=
  head p = Some entry /\ last p = Some target /\ is_chain trs p = true.

(** The states a search from [entry] can meet. *)
Definition nodes (trs : list StateTransition) (entry : string) : list string :=
  entry :: map toStateId trs.

Definition good_path (trs : list StateTransition) (entry : string)
  (p : list string) : Prop :=
  NoDup p /\ head p = Some entry /\ is_chain trs p = true /\
  (forall x, x ∈ p -> x ∈ nodes trs entry).

Definition good_item (trs : list StateTransition) (entry target : string)
  (it : string * list string) : Prop :=
  good_path trs entry it.2 /\ last it.2 = Some it.1 /\
  (target ∈ it.2 -> it.1 = target).

(** The invariant of the search loop. *)
Definition search_inv (trs : list StateTransition) (entry target : string)
  (maxPaths : nat) (s : PathSearch.st) : Prop :=
  Forall (good_item trs entry target) (PathSearch.queue s) /\
  Forall (fun p => good_path trs entry p /\ last p = Some target)
    (PathSearch.allPaths s) /\
  length (PathSearch.allPaths s) <= maxPaths.

(** The variant of the search loop: an item whose path has [n] states
    weighs [(T+1)^(T+1-n)], [T] the number of transitions. *)
Definition item_weight (trs : list StateTransition)
  (it : string * list string) : nat :=
  S (length trs) ^ (S (length trs) - length it.2).

Definition queue_weight (trs : list StateTransition)
  (q : list (string * list string)) : nat :=
  sum_list_with (item_weight trs) q.

(** What [addTransition] compares. *)
Definition quadruple (tr : StateTransition)
  : string * string * ActionType * string :=
  (fromStateId tr, toStateId tr, a_type (action tr),
   elementSelector (action tr)).

(** The graphs the public methods of [StateGraph] can build. *)
Inductive graph_built : StateGraph.t -> Prop :=
| built_empty : graph_built StateGraph.empty
| built_addState g s :
    graph_built g -> graph_built (StateGraph.addState g s)
| built_addTransition g tr :
    graph_built g -> graph_built (StateGraph.addTransition g tr)
| built_setEntryState g sid :
    graph_built g -> graph_built (StateGraph.setEntryState g sid).

(** [tr] inserted [n] times in a row. *)
Fixpoint addTransitionTimes (n : nat) (g : StateGraph.t)
  (tr : StateTransition) : StateGraph.t :=
  match n with
  | O => g
  | S n' => addTransitionTimes n' (StateGraph.addTransition g tr) tr
  end.

(** Reads back the number a state id was made from. *)
Definition decode_nat (s : string) : option nat :=
  option_map Nat.of_uint (NilEmpty.uint_of_string s).

(** The invariant of a [StateManager]: the ids that have an explored set
    were issued by the counter, and every stored state has one. *)
Definition sm_wf (sm : StateManager.t) : Prop :=
  (forall sid, is_Some (StateManager.exploredActions sm !! sid) ->
     exists k, 1 <= k <= StateManager.stateCounter sm /\
               sid = StateManager.stateId k) /\
  (forall s, s ∈ StateManager.states sm ->
     is_Some (StateManager.exploredActions sm !! id s)).

(** [key] is in the explored set of state [sid]. *)
Definition explored_in (sm : StateManager.t) (sid key : string) : Prop :=
  exists set, StateManager.exploredActions sm !! sid = Some set /\ key ∈ set.

(** A sequence of captures: the states [captureState] returns, and the
    manager it leaves. *)
Fixpoint captureFinal `{UrlParser} (sm : StateManager.t)
  (caps : list (Snapshot * list InteractiveElement)) : StateManager.t :=
  match caps with
  | [] => sm
  | c :: r => captureFinal (StateManager.captureState sm c.1 c.2).2 r
  end.

Fixpoint captureResults `{UrlParser} (sm : StateManager.t)
  (caps : list (Snapshot * list InteractiveElement)) : list AppState :=
  match caps with
  | [] => []
  | c :: r =>
    (StateManager.captureState sm c.1 c.2).1
    :: captureResults (StateManager.captureState sm c.1 c.2).2 r
  end.

(** Explored sets only grow from [sm] to [sm']. *)
Definition sm_grows (sm sm' : StateManager.t) : Prop :=
  forall sid set,
    StateManager.exploredActions sm !! sid = Some set ->
    exists set', StateManager.exploredActions sm' !! sid = Some set' /\
                 set ⊆ set'.

(** The invariant of the autonomous engine: every queued item starts from
    a state the manager has an explored set for. *)
Definition explorer_inv `{UrlParser} (B : Browser) (ex : Explorer.t B) : Prop :=
  sm_wf (Explorer.stateManager B ex) /\
  forall item, item ∈ Explorer.explorationQueue B ex ->
    is_Some (StateManager.exploredActions (Explorer.stateManager B ex)
               !! q_stateId item).

(** The commands an observer sends to the interactive controller. *)
Inductive Command :=
| CmdExecute (actionId : string)
| CmdJump (targetStateId : string)
| CmdGoToRoot
| CmdSkip (sid actionKey : string)
| CmdUnskip (sid actionKey : string).

Definition runCommand `{UrlParser} (B : Browser)
  (inputValues : gmap string string) (ex : InteractiveExplorer.t B)
  (c : Command) : InteractiveExplorer.t B :=
  match c with
  | CmdExecute actionId =>
    (InteractiveExplorer.executeAction B inputValues ex actionId).2
  | CmdJump target => (InteractiveExplorer.jumpToState B ex target).2
  | CmdGoToRoot => (InteractiveExplorer.goToRoot B ex).2
  | CmdSkip sid key => InteractiveExplorer.skipAction B ex sid key
  | CmdUnskip sid key => InteractiveExplorer.unskipAction B ex sid key
  end.

Definition runCommands `{UrlParser} (B : Browser)
  (inputValues : gmap string string) (ex : InteractiveExplorer.t B)
  (cs : list Command) : InteractiveExplorer.t B :=
  foldl (runCommand B inputValues) ex cs.

(* ===================================================================== *)
(** ** Vocabulary of the further properties *)
(* ===================================================================== *)

(** The search for [target] when a transition from the entry state to
    [target] is recorded: the item of that transition is waiting in the
    queue behind items of other states, or its path already heads the
    collected paths. *)
Definition direct_inv (entry target : string) (s : PathSearch.st) : Prop :=
  s = PathSearch.init entry \/
  (exists pre post,
     PathSearch.queue s = pre ++ (target, [entry; target]) :: post /\
     Forall (fun it : string * list string => it.1 <> target) pre /\
     PathSearch.allPaths s = []) \/
  (exists rest, PathSearch.allPaths s = [entry; target] :: rest).

(** The key [findStateByKey] computes for a stored state. *)
Definition stateKey `{UrlParser} (s : AppState) : string :=
  StateManager.computeStateKey (url s) (domHash s).

(** The managers the methods of [StateManager] can build. *)
Inductive sm_built `{UrlParser} : StateManager.t -> Prop :=
| sm_built_empty : sm_built StateManager.empty
| sm_built_capture sm page els :
    sm_built sm -> sm_built (StateManager.captureState sm page els).2
| sm_built_mark sm sid a :
    sm_built sm -> sm_built (StateManager.markActionExplored sm sid a).

(** What such a manager satisfies: the states are numbered in order of
    creation, the explored sets are those of the stored states, and no two
    stored states have the same key. *)
Definition sm_ok `{UrlParser} (sm : StateManager.t) : Prop :=
  map id (StateManager.states sm)
    = map StateManager.stateId (seq 1 (StateManager.stateCounter sm)) /\
  dom (StateManager.exploredActions sm)
    = list_to_set (map id (StateManager.states sm)) /\
  NoDup (map stateKey (StateManager.states sm)).

(** The managers the methods of [StateManager] can reach when a capture may
    fail in [generateDescription]. *)
Inductive sm_reached `{UrlParser} : StateManager.t -> Prop :=
| sm_reached_empty : sm_reached StateManager.empty
| sm_reached_capture sm u dh describe now els :
    sm_reached sm ->
    sm_reached (StateManager.captureStateWith sm u dh describe now els).2
| sm_reached_mark sm sid a :
    sm_reached sm -> sm_reached (StateManager.markActionExplored sm sid a).

(** The stored states carry, in order, the ids of the numbers [ns], which
    increase and lie between 1 and the counter. *)
Definition numbered_by (sm : StateManager.t) (ns : list nat) : Prop :=
  map id (StateManager.states sm) = map StateManager.stateId ns /\
  StronglySorted lt ns /\
  Forall (fun n => 1 <= n <= StateManager.stateCounter sm) ns.

(** What the autonomous engine keeps true of its graph and its queue. *)
Definition engine_inv `{UrlParser} (B : Browser) (config : Explorer.Config)
  (ex : Explorer.t B) : Prop :=
  let sm := Explorer.stateManager B ex in
  let g := Explorer.stateGraph B ex in
  let ids := map id (StateManager.states sm) in
  sm_ok sm /\
  StateGraph.states g = StateManager.states sm /\
  StateGraph.entryStateId g ∈ ids /\
  (forall tr, tr ∈ StateGraph.transitions g ->
     fromStateId tr ∈ ids /\ toStateId tr ∈ ids) /\
  (forall item, item ∈ Explorer.explorationQueue B ex ->
     q_stateId item ∈ ids /\
     last (q_pathFromRoot item) = Some (q_stateId item) /\
     1 <= length (q_pathFromRoot item) <= Nat.max 1 (Explorer.maxDepth config)).

(** What the interactive controller keeps true from [init] on. *)
Definition controller_inv `{UrlParser} (B : Browser)
  (ex : InteractiveExplorer.t B) : Prop :=
  let sm := InteractiveExplorer.stateManager B ex in
  let g := InteractiveExplorer.stateGraph B ex in
  let ids := map id (StateManager.states sm) in
  sm_ok sm /\
  StateGraph.states g = StateManager.states sm /\
  StateGraph.entryStateId g = InteractiveExplorer.entryStateId B ex /\
  InteractiveExplorer.entryStateId B ex ∈ ids /\
  InteractiveExplorer.currentStateId B ex ∈ ids /\
  head (InteractiveExplorer.pathFromRoot B ex)
    = Some (InteractiveExplorer.entryStateId B ex) /\
  (forall tr, tr ∈ StateGraph.transitions g ->
     fromStateId tr ∈ ids /\ toStateId tr ∈ ids) /\
  is_Some (InteractiveExplorer.page B ex) /\
  InteractiveExplorer.executionLock B ex = false.

(** The controller after [init] on the page [p0] and the commands [cs]. *)
Definition controllerAfter `{UrlParser} (B : Browser)
  (inputValues : gmap string string) (p0 : Page B) (cs : list Command)
  : InteractiveExplorer.t B :=
  runCommands B inputValues
    (InteractiveExplorer.init B p0 (InteractiveExplorer.new B)).2 cs.

(** No character of [s] is a colon. *)
Fixpoint colon_free (s : string) : bool :=
  match s with
  | EmptyString => true
  | String c r => negb (bool_decide (c = ":"%char)) && colon_free r
  end.

(** Every character of [s] is a letter, a digit or an underscore. *)
Fixpoint file_safe (s : string) : bool :=
  match s with
  | EmptyString => true
  | String c r =>
    (SessionManager.isAlnum c || bool_decide (c = "_"%char)) && file_safe r
  end.

(* ===================================================================== *)
(** ** Sample inputs *)
(* ===================================================================== *)

Module Sample.

Definition clickOn (sel : string) : Action :=
  {| a_type := AClick; elementSelector := sel; elementLabel := sel;
     a_value := None |}.

Definition edge (n a b sel : string) : StateTransition :=
  {| t_id := n; fromStateId := a; toStateId := b; action := clickOn sel |}.

Definition state (i : string) : AppState :=
  {| id := i; url := "http://localhost:3000/"; domHash := i;
     description := i; elements := []; timestamp := 0 |}.

(** A diamond with a back edge and a shortcut. *)
Definition diamond : StateGraph.t :=
  {| StateGraph.states := [state "a"; state "b"; state "c"; state "d"];
     StateGraph.transitions :=
       [edge "trans_1" "a" "b" "x"; edge "trans_2" "a" "c" "y";
        edge "trans_3" "b" "d" "x"; edge "trans_4" "c" "d" "x";
        edge "trans_5" "d" "a" "x"; edge "trans_6" "a" "d" "z"];
     StateGraph.entryStateId := "a" |}.


(** An entry id that was never added as a state. *)
Definition ghost : StateGraph.t :=
  StateGraph.addTransition
    (StateGraph.setEntryState (StateGraph.addState StateGraph.empty (state "A"))
       "ghost")
    (edge "trans_1" "ghost" "A" "x").


(** An entry id that was never added as a state, and transitions between
    stored states only. *)
Definition lost : StateGraph.t :=
  StateGraph.addTransition
    (StateGraph.setEntryState
       (foldl StateGraph.addState StateGraph.empty [state "A"; state "B"])
       "ghost")
    (edge "trans_1" "A" "B" "x").

(** A browser with a single page where nothing is visible. *)
Definition noBrowser : Browser :=
  {| Page := unit;
     goto := fun p => p;
     snapshot := fun _ =>
       {| snap_url := "http://localhost:3000/"; snap_domHash := "000000000000";
          snap_description := "empty list"; snap_now := 0 |};
     discoverElements := fun _ => [];
     isVisible := fun _ _ => false;
     click := fun _ _ => None;
     fill := fun _ _ _ => None;
     closestForm := fun _ _ => None;
     pressEnter := fun _ => None;
     optionValues := fun _ _ => None;
     selectOption := fun _ _ _ => None |}.

(** A URL parser for the samples: what follows the origin
    [http://localhost:3000]. *)
Definition pathOf : UrlParser :=
  fun u => String.substring 21 (String.length u - 21) u.

Definition shot (u h d : string) (now : Z) : Snapshot :=
  {| snap_url := u; snap_domHash := h; snap_description := d;
     snap_now := now |}.

(** Three captures: the empty list, one item, the empty list again. *)
Definition captures : list (Snapshot * list InteractiveElement) :=
  [ (shot "http://localhost:3000/" "a6a6077e8bb9" "empty list" 100, []);
    (shot "http://localhost:3000/" "0f3c55aa1b2e" "1 items" 200, []);
    (shot "http://localhost:3000/" "a6a6077e8bb9" "empty list" 300, []) ].

Definition button (sel : string) : InteractiveElement :=
  {| selector := sel; el_type := EButton; label := sel; tagName := "BUTTON";
     attributes := ∅ |}.

(** An application with two doors to the same room.  Page 0 is the entry
    page with the buttons [#a], [#b] and [#stuck]; [#a] and [#b] both lead
    to page 1, a click on [#stuck] times out.  Page 1 has the button [#c],
    which leads to page 2; page 2 has nothing. *)
Definition twoDoors : Browser :=
  {| Page := nat;
     goto := fun _ => 0;
     snapshot := fun p =>
       match p with
       | 0 => shot "http://localhost:3000/" "a6a6077e8bb9" "empty list" 100
       | 1 => shot "http://localhost:3000/" "0f3c55aa1b2e" "1 items" 200
       | _ => shot "http://localhost:3000/" "77d0c1e2f3a4" "2 items" 300
       end;
     discoverElements := fun p =>
       match p with
       | 0 => [button "#a"; button "#b"; button "#stuck"]
       | 1 => [button "#c"]
       | _ => []
       end;
     isVisible := fun p sel =>
       match p with
       | 0 => bool_decide (sel = "#a") || bool_decide (sel = "#b")
              || bool_decide (sel = "#stuck")
       | 1 => bool_decide (sel = "#c")
       | _ => false
       end;
     click := fun p sel =>
       match p with
       | 0 => if bool_decide (sel = "#stuck") then None else Some 1
       | 1 => Some 2
       | _ => None
       end;
     fill := fun _ _ _ => None;
     closestForm := fun _ _ => None;
     pressEnter := fun _ => None;
     optionValues := fun _ _ => None;
     selectOption := fun _ _ _ => None |}.

Definition config : Explorer.Config :=
  {| Explorer.maxStates := 100; Explorer.maxDepth := 10;
     Explorer.inputValues := ∅ |}.

(** The autonomous engine on [twoDoors] after [n] iterations of its loop. *)
Definition exploration (n : N) : Explorer.t twoDoors :=
  Explorer.runExploration (H := pathOf) twoDoors config n 0.

Definition queued (ex : Explorer.t twoDoors) : list (string * string) :=
  map (fun item => (q_stateId item, elementSelector (q_action item)))
    (Explorer.explorationQueue twoDoors ex).

(** The interactive controller on [twoDoors], initialised. *)
Definition session : InteractiveExplorer.t twoDoors :=
  (InteractiveExplorer.init (H := pathOf) twoDoors 0
     (InteractiveExplorer.new twoDoors)).2.

(** The same with a second state known to the graph that no transition
    leads to. *)
Definition sessionWithIsland : InteractiveExplorer.t twoDoors :=
  InteractiveExplorer.setStateGraph twoDoors
    (StateGraph.addState (InteractiveExplorer.stateGraph twoDoors session)
       (state "state_009"))
    session.

(** The queue item and the offered action for the button [#stuck]. *)
Definition stuckItem : ExplorationQueueItem :=
  {| q_stateId := "state_001"; q_action := clickOn "#stuck";
     q_pathFromRoot := ["state_001"] |}.

Definition stuckOffer : AvailableAction :=
  {| av_id := "state_001:click:#stuck:"; av_action := clickOn "#stuck";
     isExplored := false; isSkipped := false; resultStateId := None |}.

(** The clock and random source of one [load]. *)
Definition env : SessionManager.Env :=
  {| SessionManager.nowMillis := "1768384800000";
     SessionManager.randomSuffix := "k3j9x0q1z";
     SessionManager.createdNow := "2026-01-14T10:00:00.000Z";
     SessionManager.updatedNow := "2026-01-14T10:00:00.001Z" |}.

(** A stored payload from before the version field: it names the
    application and nothing else. *)
Definition legacyPayload : jsval :=
  JObj [("appUrl", JStr "http://localhost:3000")].

(** What [load] makes of it. *)
Definition migratedLegacy : jsval :=
  JObj
    [ ("version", JNum 1);
      ("id", JStr "session_1768384800000_k3j9x0q1z");
      ("appUrl", JStr "http://localhost:3000");
      ("createdAt", JStr "2026-01-14T10:00:00.000Z");
      ("lastUpdatedAt", JStr "2026-01-14T10:00:00.001Z");
      ("currentStateId", JStr "");
      ("entryStateId", JStr "");
      ("stateGraph", JUndefined);
      ("skippedActions", JObj []);
      ("explorationHistory", JArr []) ].

End Sample.

(* ===================================================================== *)
(** * Properties *)
(* ===================================================================== *)

(** ** Loops *)

Section LoopFacts.
Context {S : Type}.
Variable cond : S -> bool.
Variable body : S -> S.

Lemma while_nat_done n s : cond s = false -> Loop.while_nat cond body n s = s.
Proof. destruct n; simpl; [done|]. by intros ->. Qed.

Lemma while_nat_add a b s :
  Loop.while_nat cond body (a + b) s =
  Loop.while_nat cond body b (Loop.while_nat cond body a s).
Proof.
  revert s. induction a as [|a IH]; intros s; simpl; [done|].
  destruct (cond s) eqn:E; [apply IH|].
  by rewrite while_nat_done.
Qed.

Lemma while_pos_nat p s :
  Loop.while_pos cond body p s = Loop.while_nat cond body (Pos.to_nat p) s.
Proof.
  revert s. induction p as [p IH|p IH|]; intros s.
  - rewrite Pos2Nat.inj_xI. simpl Loop.while_pos.
    replace (Datatypes.S (2 * Pos.to_nat p)) with
      (Datatypes.S (Pos.to_nat p + Pos.to_nat p)) by lia.
    simpl Loop.while_nat. destruct (cond s); [|done].
    by rewrite while_nat_add, !IH.
  - rewrite Pos2Nat.inj_xO. simpl Loop.while_pos.
    replace (2 * Pos.to_nat p) with (Pos.to_nat p + Pos.to_nat p) by lia.
    rewrite while_nat_add, <- !IH.
    destruct (cond s) eqn:E; [done|].
    destruct p; simpl; by rewrite ?E.
  - simpl. by destruct (cond s).
Qed.

Lemma while_nat_eq fuel s :
  Loop.while cond body fuel s = Loop.while_nat cond body (N.to_nat fuel) s.
Proof. destruct fuel as [|p]; simpl; [done|apply while_pos_nat]. Qed.

Variable Inv : S -> Prop.
Hypothesis Inv_body : forall s, Inv s -> cond s = true -> Inv (body s).

Lemma while_nat_inv n s : Inv s -> Inv (Loop.while_nat cond body n s).
Proof.
  revert s. induction n as [|n IH]; intros s Hs; simpl; [done|].
  destruct (cond s) eqn:E; [|done]. apply IH. by apply Inv_body.
Qed.

Lemma while_inv fuel s : Inv s -> Inv (Loop.while cond body fuel s).
Proof. rewrite while_nat_eq. apply while_nat_inv. Qed.

Variable mu : S -> nat.
Hypothesis mu_body : forall s, Inv s -> cond s = true -> mu (body s) < mu s.

Lemma while_nat_exits n s :
  Inv s -> mu s <= n -> cond (Loop.while_nat cond body n s) = false.
Proof.
  revert s. induction n as [|n IH]; intros s Hs Hmu; simpl.
  - destruct (cond s) eqn:E; [|done].
    specialize (mu_body s Hs E). lia.
  - destruct (cond s) eqn:E; [|done].
    apply IH; [by apply Inv_body|].
    specialize (mu_body s Hs E). lia.
Qed.

Lemma while_exits fuel s :
  Inv s -> mu s <= N.to_nat fuel -> cond (Loop.while cond body fuel s) = false.
Proof. rewrite while_nat_eq. apply while_nat_exits. Qed.

End LoopFacts.

(** ** The path search *)

Section SearchFacts.
Variable trs : list StateTransition.
Variables entry target : string.
Variable maxPaths : nat.

Lemma edgeb_true a b :
  edgeb trs a b = true <->
  exists tr, tr ∈ trs /\ fromStateId tr = a /\ toStateId tr = b.
Proof.
  unfold edgeb. rewrite existsb_exists. split.
  - intros (tr & Hin & Hb). apply andb_true_iff in Hb as [H1 H2].
    apply bool_decide_eq_true in H1, H2.
    exists tr. by rewrite list_elem_of_In.
  - intros (tr & Hin & H1 & H2). exists tr. split; [by apply list_elem_of_In|].
    apply andb_true_iff; split; by apply bool_decide_eq_true.
Qed.

Lemma is_chain_snoc p a b :
  is_chain trs p = true -> last p = Some a -> edgeb trs a b = true ->
  is_chain trs (p ++ [b]) = true.
Proof.
  induction p as [|x r IH]; [done|].
  intros Hc Hl He. destruct r as [|y r'].
  - simpl in Hl. injection Hl as ->. simpl. by rewrite He.
  - change (is_chain trs (x :: y :: r')) with
      (edgeb trs x y && is_chain trs (y :: r')) in Hc.
    apply andb_true_iff in Hc as [Hxy Hr].
    change (is_chain trs ((x :: y :: r') ++ [b])) with
      (edgeb trs x y && is_chain trs ((y :: r') ++ [b])).
    rewrite Hxy. simpl andb. apply IH; [done| |done].
    by rewrite last_cons_cons in Hl.
Qed.

Lemma successors_spec sid p it :
  it ∈ PathSearch.successors trs target sid p <->
  exists tr, tr ∈ trs /\ fromStateId tr = sid /\
    (toStateId tr ∉ p \/ toStateId tr = target) /\
    it = (toStateId tr, p ++ [toStateId tr]).
Proof.
  unfold PathSearch.successors, transitionsFrom.
  rewrite list_elem_of_In, in_map_iff. split.
  - intros (tr & <- & Hin). apply filter_In in Hin as [Hin Hp].
    apply filter_In in Hin as [Hin Hf].
    apply bool_decide_eq_true in Hf.
    exists tr. split; [by apply list_elem_of_In|]. split; [done|].
    split; [|done].
    apply orb_true_iff in Hp as [Hp|Hp].
    + left. apply negb_true_iff, bool_decide_eq_false in Hp. done.
    + right. by apply bool_decide_eq_true in Hp.
  - intros (tr & Hin & Hf & Hp & ->). exists tr. split; [done|].
    apply filter_In. split.
    + apply filter_In. split; [by apply list_elem_of_In|].
      by apply bool_decide_eq_true.
    + apply orb_true_iff. destruct Hp as [Hp|Hp].
      * left. by apply negb_true_iff, bool_decide_eq_false.
      * right. by apply bool_decide_eq_true.
Qed.

Lemma successors_length sid p :
  length (PathSearch.successors trs target sid p) <= length trs.
Proof.
  unfold PathSearch.successors, transitionsFrom. rewrite length_map.
  etrans; [apply List.filter_length_le|]. apply List.filter_length_le.
Qed.

Lemma good_init : good_item trs entry target (entry, [entry]).
Proof.
  repeat split; simpl.
  - apply NoDup_singleton.
  - intros x Hx. apply list_elem_of_singleton in Hx as ->.
    unfold nodes. by left.
  - intros Hx. by apply list_elem_of_singleton in Hx.
Qed.

Lemma good_successor sid p it :
  good_item trs entry target (sid, p) -> sid <> target ->
  it ∈ PathSearch.successors trs target sid p ->
  good_item trs entry target it.
Proof.
  intros ((Hnd & Hhd & Hch & Hsub) & Hl & Ht) Hne Hit. simpl in *.
  apply successors_spec in Hit as (tr & Hin & Hf & Hp & ->).
  assert (Hnt : target ∉ p) by (intros Hx; by apply Hne, Ht).
  assert (Hfresh : toStateId tr ∉ p).
  { destruct Hp as [Hp|Hp]; [done|]. by rewrite Hp. }
  repeat split; simpl.
  - apply NoDup_app. split; [done|]. split; [|apply NoDup_singleton].
    intros x Hx Hx'. apply list_elem_of_singleton in Hx' as ->. done.
  - destruct p; [done|]. done.
  - eapply is_chain_snoc; [done..|]. apply edgeb_true. by exists tr.
  - intros x Hx. apply elem_of_app in Hx as [Hx|Hx]; [by apply Hsub|].
    apply list_elem_of_singleton in Hx as ->. unfold nodes. right.
    apply list_elem_of_In, in_map, list_elem_of_In. done.
  - by rewrite last_snoc.
  - intros Hx. apply elem_of_app in Hx as [Hx|Hx]; [done|].
    by apply list_elem_of_singleton in Hx.
Qed.

Lemma search_inv_init :
  search_inv trs entry target maxPaths (PathSearch.init entry).
Proof.
  split; [|split]; simpl.
  - constructor; [apply good_init|constructor].
  - constructor.
  - lia.
Qed.

Lemma search_inv_body s :
  search_inv trs entry target maxPaths s ->
  PathSearch.cond maxPaths s = true ->
  search_inv trs entry target maxPaths (PathSearch.body trs target s).
Proof.
  intros (Hq & Ha & Hlen) Hc. unfold PathSearch.cond in Hc.
  apply andb_true_iff in Hc as [_ Hlt]. apply bool_decide_eq_true in Hlt.
  unfold PathSearch.body. destruct (PathSearch.queue s) as [|[sid p] rest] eqn:Eq.
  { rewrite <- Eq in Hq. done. }
  apply Forall_cons in Hq as [Hit Hrest].
  case_bool_decide as Ht.
  - subst sid. split; [done|]. simpl. split.
    + apply Forall_app. split; [done|]. constructor; [|constructor].
      destruct Hit as (Hg & Hl & _). done.
    + rewrite length_app. simpl. lia.
  - case_bool_decide as Hv; [by split|].
    split; [|by split]. simpl. apply Forall_app. split; [done|].
    apply Forall_forall. intros it Hin. by eapply good_successor.
Qed.

Lemma good_path_length p :
  good_path trs entry p -> length p <= S (length trs).
Proof.
  intros (Hnd & _ & _ & Hsub).
  etrans; [apply submseteq_length, NoDup_submseteq; [done|apply Hsub]|].
  unfold nodes. simpl. by rewrite length_map.
Qed.

Lemma item_weight_pos it : 0 < item_weight trs it.
Proof. unfold item_weight. apply Nat.neq_0_lt_0, Nat.pow_nonzero. lia. Qed.

Lemma queue_weight_app q1 q2 :
  queue_weight trs (q1 ++ q2) = queue_weight trs q1 + queue_weight trs q2.
Proof. unfold queue_weight. apply sum_list_with_app. Qed.

Lemma queue_weight_bound q w :
  Forall (fun it => item_weight trs it <= w) q ->
  queue_weight trs q <= length q * w.
Proof.
  induction 1 as [|it q Hit _ IH]; unfold queue_weight in *; simpl; lia.
Qed.

Lemma successors_weight sid p :
  good_item trs entry target (sid, p) -> sid <> target ->
  queue_weight trs (PathSearch.successors trs target sid p)
  < item_weight trs (sid, p).
Proof.
  intros Hg Hne.
  destruct (PathSearch.successors trs target sid p) as [|it0 q0] eqn:Es.
  { apply item_weight_pos. }
  assert (Hlen : S (length p) <= S (length trs)).
  { assert (Hit : good_item trs entry target it0).
    { eapply good_successor; [done..|]. rewrite Es. by left. }
    assert (Hin : it0 ∈ PathSearch.successors trs target sid p)
      by (rewrite Es; by left).
    apply successors_spec in Hin as (tr & _ & _ & _ & ->).
    destruct Hit as (Hgp & _). apply good_path_length in Hgp.
    simpl in Hgp. rewrite length_app in Hgp. simpl in Hgp. lia. }
  rewrite <- Es.
  set (w := S (length trs) ^ (S (length trs) - S (length p))).
  assert (Hb : queue_weight trs (PathSearch.successors trs target sid p)
               <= length (PathSearch.successors trs target sid p) * w).
  { apply queue_weight_bound, Forall_forall. intros it Hin.
    apply successors_spec in Hin as (tr & _ & _ & _ & ->).
    unfold item_weight, w. simpl. rewrite length_app. simpl.
    replace (length p + 1) with (S (length p)) by lia. done. }
  pose proof (successors_length sid p) as Hsl.
  assert (Hw : 0 < w).
  { unfold w. apply Nat.neq_0_lt_0, Nat.pow_nonzero. lia. }
  unfold item_weight. simpl.
  replace (S (length trs) - length p) with
    (S (S (length trs) - S (length p))) by lia.
  rewrite Nat.pow_succ_r'. fold w. nia.
Qed.

Lemma search_weight_body s :
  search_inv trs entry target maxPaths s ->
  PathSearch.cond maxPaths s = true ->
  queue_weight trs (PathSearch.queue (PathSearch.body trs target s))
  < queue_weight trs (PathSearch.queue s).
Proof.
  intros (Hq & _ & _) Hc. unfold PathSearch.cond in Hc.
  apply andb_true_iff in Hc as [Hne _]. apply bool_decide_eq_true in Hne.
  unfold PathSearch.body.
  destruct (PathSearch.queue s) as [|[sid p] rest] eqn:Eq; [simpl in Hne; lia|].
  apply Forall_cons in Hq as [Hit Hrest].
  pose proof (item_weight_pos (sid, p)) as Hpos.
  change (queue_weight trs ((sid, p) :: rest)) with
    (item_weight trs (sid, p) + queue_weight trs rest).
  case_bool_decide as Ht; simpl; [lia|].
  case_bool_decide as Hv; simpl; [lia|].
  rewrite queue_weight_app.
  pose proof (successors_weight sid p Hit Ht). lia.
Qed.

Lemma fuel_enough :
  queue_weight trs (PathSearch.queue (PathSearch.init entry))
  <= N.to_nat (PathSearch.fuel trs).
Proof.
  unfold PathSearch.fuel, queue_weight, item_weight. simpl.
  rewrite N2Nat.inj_pow, N2Nat.inj_add, Nat2N.id.
  replace (length trs + N.to_nat 1) with (S (length trs)) by (simpl; lia).
  replace (length trs - 0) with (length trs) by lia. lia.
Qed.

(** The loop of the search leaves through its condition: the fuel of
    [PathSearch.run] is never what stops it. *)
Lemma run_exits :
  PathSearch.cond maxPaths (PathSearch.run trs entry target maxPaths) = false.
Proof.
  unfold PathSearch.run.
  apply (while_exits _ _ (search_inv trs entry target maxPaths)
           search_inv_body
           (fun s => queue_weight trs (PathSearch.queue s))
           search_weight_body).
  - apply search_inv_init.
  - apply fuel_enough.
Qed.

Lemma run_inv :
  search_inv trs entry target maxPaths
    (PathSearch.run trs entry target maxPaths).
Proof.
  unfold PathSearch.run. apply while_inv; [apply search_inv_body|].
  apply search_inv_init.
Qed.

(** More fuel changes nothing. *)
Lemma run_stable extra :
  Loop.while (PathSearch.cond maxPaths) (PathSearch.body trs target) extra
    (PathSearch.run trs entry target maxPaths)
  = PathSearch.run trs entry target maxPaths.
Proof. rewrite while_nat_eq. apply while_nat_done, run_exits. Qed.

Lemma findPaths_good p :
  p ∈ PathSearch.findPaths trs entry target maxPaths ->
  good_path trs entry p /\ last p = Some target.
Proof.
  unfold PathSearch.findPaths. case_bool_decide as He.
  - intros Hp. apply list_elem_of_singleton in Hp as ->.
    destruct good_init as (Hg & _). split; [done|]. by rewrite He.
  - intros Hp. destruct run_inv as (_ & Ha & _).
    rewrite Forall_forall in Ha. by apply Ha.
Qed.

Lemma findPaths_length :
  length (PathSearch.findPaths trs entry target maxPaths) <= Nat.max 1 maxPaths.
Proof.
  unfold PathSearch.findPaths. case_bool_decide as He; simpl; [lia|].
  destruct run_inv as (_ & _ & Hl). lia.
Qed.

Lemma findPaths_unreachable :
  (forall p, ~ recorded_path trs entry target p) ->
  PathSearch.findPaths trs entry target maxPaths = [].
Proof.
  intros Hno.
  destruct (PathSearch.findPaths trs entry target maxPaths) as [|p l] eqn:E;
    [done|].
  exfalso. apply (Hno p).
  assert (Hp : p ∈ PathSearch.findPaths trs entry target maxPaths)
    by (rewrite E; by left).
  apply findPaths_good in Hp as ((_ & Hh & Hc & _) & Hl). by repeat split.
Qed.

End SearchFacts.

(** ** StateGraph *)

(** C1. Every path the path search returns is a simple path from the entry
    state to the target, and the search for the entry state itself returns
    exactly [[entryStateId]]; this holds for [StateGraph.findPathsTo] and
    for the copy in [InteractiveExplorer]. *)
Theorem findPathsTo_simple_paths (g : StateGraph.t) (B : Browser)
  (ex : InteractiveExplorer.t B) (maxPaths : nat) :
  (forall target p,
     p ∈ StateGraph.findPathsTo g target maxPaths ->
     NoDup p /\ head p = Some (StateGraph.entryStateId g) /\
     last p = Some target) /\
  StateGraph.findPathsTo g (StateGraph.entryStateId g) maxPaths
    = [[StateGraph.entryStateId g]] /\
  (forall target p,
     p ∈ InteractiveExplorer.findPathsTo B ex target maxPaths ->
     NoDup p /\ head p = Some (InteractiveExplorer.entryStateId B ex) /\
     last p = Some target) /\
  InteractiveExplorer.findPathsTo B ex (InteractiveExplorer.entryStateId B ex)
    maxPaths = [[InteractiveExplorer.entryStateId B ex]].
Proof.
  assert (Hself : forall trs e,
             PathSearch.findPaths trs e e maxPaths = [[e]]).
  { intros trs e. unfold PathSearch.findPaths. by rewrite bool_decide_eq_true_2. }
  assert (Hsimple : forall trs e target p,
             p ∈ PathSearch.findPaths trs e target maxPaths ->
             NoDup p /\ head p = Some e /\ last p = Some target).
  { intros trs e target p Hp.
    apply findPaths_good in Hp as ((Hnd & Hh & _) & Hl). done. }
  split; [|split; [|split]].
  - intros target p Hp. exact (Hsimple _ _ _ _ Hp).
  - apply Hself.
  - intros target p Hp. exact (Hsimple _ _ _ _ Hp).
  - apply Hself.
Qed.

Lemma findPathsTo_simple_paths_witness :
  NoDup ["a"; "b"; "d"] /\ head ["a"; "b"; "d"] = Some "a" /\
  last ["a"; "b"; "d"] = Some "d".
Proof.
  apply (proj1 (findPathsTo_simple_paths Sample.diamond Sample.noBrowser
                  (InteractiveExplorer.new Sample.noBrowser) 3) "d").
  apply (bool_decide_unpack _). vm_compute. exact I.
Defined.

(** The search on the diamond: the three paths to ["d"], shortest first. *)
Example findPathsTo_diamond :
  StateGraph.findPathsTo Sample.diamond "d" 3
  = [["a"; "d"]; ["a"; "b"; "d"]; ["a"; "c"; "d"]].
Proof. vm_compute. reflexivity. Qed.





(** Assignments [paths[state.id] = f(state.id)] over a list of states. *)
Lemma foldl_record_set_lookup {V} (f : string -> V) (l : list AppState)
  (m : gmap string V) k :
  foldl (fun paths s => record_set (id s) (f (id s)) paths) m l !! k
  = if bool_decide (k ∈ map id l) && negb (bool_decide (k = "__proto__"))
    then Some (f k) else m !! k.
Proof.
  revert m. induction l as [|s l IH]; intros m; simpl; [done|].
  rewrite IH. clear IH. unfold record_set.
  destruct (decide (k = "__proto__")) as [Hp|Hp].
  - rewrite (bool_decide_eq_true_2 (k = "__proto__")) by done.
    cbn [negb]. rewrite !andb_false_r.
    case_bool_decide as Hs; [done|]. rewrite lookup_insert_ne; [done|].
    congruence.
  - rewrite (bool_decide_eq_false_2 (k = "__proto__")) by done.
    cbn [negb]. rewrite !andb_true_r.
    destruct (decide (k ∈ map id l)) as [Hin|Hin].
    + rewrite (bool_decide_eq_true_2 (k ∈ map id l)) by done.
      rewrite (bool_decide_eq_true_2 (k ∈ id s :: map id l)); [done|by right].
    + rewrite (bool_decide_eq_false_2 (k ∈ map id l)) by done.
      destruct (decide (id s = k)) as [Heq|Hne].
      * subst k.
        rewrite (bool_decide_eq_true_2 (id s ∈ id s :: map id l)) by (by left).
        rewrite (bool_decide_eq_false_2 (id s = "__proto__")) by done.
        by rewrite lookup_insert_eq.
      * rewrite (bool_decide_eq_false_2 (k ∈ id s :: map id l)).
        -- destruct (bool_decide (id s = "__proto__")); [done|].
           by rewrite lookup_insert_ne.
        -- intros Hc. apply elem_of_cons in Hc as [Hc|Hc]; [congruence|done].
Qed.

(** The entry of a stored state in the record of [computePaths]. *)
Lemma computePaths_stored (g : StateGraph.t) (sid : string) :
  StateGraph.entryStateId g <> "" ->
  sid ∈ map id (StateGraph.states g) -> sid <> "__proto__" ->
  StateGraph.computePaths g !! sid
  = Some (StateGraph.findPathsTo g sid StateGraph.defaultMaxPaths).
Proof.
  intros He Hin Hp. unfold StateGraph.computePaths.
  rewrite bool_decide_eq_false_2 by done.
  rewrite (foldl_record_set_lookup
             (fun i => StateGraph.findPathsTo g i StateGraph.defaultMaxPaths)).
  rewrite bool_decide_eq_true_2 by done.
  by rewrite bool_decide_eq_false_2 by done.
Qed.

(** No recorded path leaves an id from which no transition starts. *)
Lemma no_outgoing_unreachable trs entry target :
  target <> entry ->
  (forall tr, tr ∈ trs -> fromStateId tr <> entry) ->
  forall p, ~ recorded_path trs entry target p.
Proof.
  intros Hne Hout p (Hh & Hl & Hc).
  destruct p as [|a r]; [done|]. simpl in Hh. injection Hh as ->.
  destruct r as [|b r'].
  - simpl in Hl. congruence.
  - change (is_chain trs (entry :: b :: r'))
      with (edgeb trs entry b && is_chain trs (b :: r')) in Hc.
    apply andb_true_iff in Hc as [Hab _].
    apply edgeb_true in Hab as (tr & Htr & Hf & _). by apply (Hout tr).
Qed.

(** C9, as the code has it. [computePaths] never fails.  When the entry id
    is unset (the empty string) it returns the empty record.  When the
    entry id is set but names no stored state, the record has an entry for
    every stored state (other than a state whose id is ["__proto__"], for
    which a plain object stores nothing): the paths [findPathsTo] finds,
    which are none when no chain of recorded transitions links the entry id
    to the state, and so none for any state when every recorded transition
    starts at a stored state. *)
Theorem computePaths_entry_absent (g : StateGraph.t) :
  StateGraph.entryStateId g ∉ map id (StateGraph.states g) ->
  (StateGraph.entryStateId g = "" -> StateGraph.computePaths g = ∅) /\
  (StateGraph.entryStateId g <> "" ->
   forall sid,
     sid ∈ map id (StateGraph.states g) -> sid <> "__proto__" ->
     StateGraph.computePaths g !! sid
       = Some (StateGraph.findPathsTo g sid StateGraph.defaultMaxPaths) /\
     ((forall p, ~ recorded_path (StateGraph.transitions g)
                     (StateGraph.entryStateId g) sid p) ->
      StateGraph.computePaths g !! sid = Some []) /\
     ((forall tr, tr ∈ StateGraph.transitions g ->
                  fromStateId tr ∈ map id (StateGraph.states g)) ->
      StateGraph.computePaths g !! sid = Some [])).
Proof.
  intros Habsent. split.
  - intros He. unfold StateGraph.computePaths.
    by rewrite bool_decide_eq_true_2.
  - intros He sid Hin Hp.
    pose proof (computePaths_stored g sid He Hin Hp) as Hl.
    assert (Hun : (forall p, ~ recorded_path (StateGraph.transitions g)
                                 (StateGraph.entryStateId g) sid p) ->
                  StateGraph.computePaths g !! sid = Some []).
    { intros Hno. rewrite Hl. f_equal. by apply findPaths_unreachable. }
    split; [done|]. split; [done|].
    intros Hclosed. apply Hun. apply no_outgoing_unreachable.
    + intros ->. done.
    + intros tr Htr Hf. apply Habsent. rewrite <- Hf. by apply Hclosed.
Qed.

Lemma computePaths_entry_absent_witness :
  StateGraph.computePaths
    (StateGraph.addState StateGraph.empty (Sample.state "A")) = ∅ /\
  StateGraph.computePaths Sample.lost !! "B" = Some [].
Proof.
  split.
  - apply (computePaths_entry_absent
             (StateGraph.addState StateGraph.empty (Sample.state "A"))).
    + vm_compute. intros Hin. apply list_elem_of_singleton in Hin.
      discriminate.
    + reflexivity.
  - assert (Habsent : StateGraph.entryStateId Sample.lost
                        ∉ map id (StateGraph.states Sample.lost)).
    { vm_compute. intros Hin.
      apply elem_of_cons in Hin as [Hin|Hin]; [discriminate|].
      apply list_elem_of_singleton in Hin. discriminate. }
    apply (proj2 (computePaths_entry_absent Sample.lost Habsent)).
    + discriminate.
    + vm_compute. right. left.
    + discriminate.
    + vm_compute. intros tr Htr.
      apply list_elem_of_singleton in Htr as ->. left.
Defined.

(** C9, as stated, fails: the entry id ["ghost"] is not in the state map,
    and [computePaths] returns a path for state ["A"]. *)
Lemma computePaths_ghost_entry :
  (StateGraph.entryStateId Sample.ghost
     ∉ map id (StateGraph.states Sample.ghost)) /\
  StateGraph.computePaths Sample.ghost !! "A" = Some [["ghost"; "A"]] /\
  StateGraph.computePaths Sample.ghost <> ∅.
Proof.
  split; [|split].
  - vm_compute. intros Hin. apply list_elem_of_singleton in Hin. discriminate.
  - vm_compute. reflexivity.
  - intros He.
    assert (Hl : StateGraph.computePaths Sample.ghost !! "A" = None)
      by (by rewrite He).
    vm_compute in Hl. discriminate.
Qed.

Lemma sameEdge_quadruple tr t' :
  StateGraph.sameEdge tr t' = true <-> quadruple t' = quadruple tr.
Proof.
  unfold StateGraph.sameEdge, quadruple.
  rewrite !andb_true_iff, !bool_decide_eq_true. split.
  - intros [[[-> ->] ->] ->]. done.
  - intros [= -> -> -> ->]. done.
Qed.

Lemma sameEdge_congr tr1 tr2 t' :
  quadruple tr1 = quadruple tr2 ->
  StateGraph.sameEdge tr1 t' = StateGraph.sameEdge tr2 t'.
Proof.
  intros Hq. apply eq_true_iff_eq.
  rewrite !sameEdge_quadruple. by rewrite Hq.
Qed.

Lemma existsb_filter_nil {A} (f : A -> bool) l :
  existsb f l = false -> List.filter f l = [].
Proof.
  induction l as [|x l IH]; simpl; [done|].
  intros Hf. apply orb_false_iff in Hf as [-> Hl]. by apply IH.
Qed.

Lemma addTransition_present g tr :
  existsb (StateGraph.sameEdge tr) (StateGraph.transitions g) = true ->
  StateGraph.addTransition g tr = g.
Proof. unfold StateGraph.addTransition. by intros ->. Qed.

Lemma graph_built_dedup g :
  graph_built g ->
  forall tr,
    length (List.filter (StateGraph.sameEdge tr) (StateGraph.transitions g)) <= 1.
Proof.
  induction 1 as [|g s _ IH|g tr0 _ IH|g sid _ IH]; intros tr.
  - simpl. lia.
  - unfold StateGraph.addState. destruct (StateGraph.has g (id s)); apply IH.
  - unfold StateGraph.addTransition.
    destruct (existsb (StateGraph.sameEdge tr0) (StateGraph.transitions g))
      eqn:Ex; simpl; [apply IH|].
    rewrite List.filter_app, length_app. simpl.
    destruct (StateGraph.sameEdge tr tr0) eqn:Es; simpl.
    + apply sameEdge_quadruple in Es.
      rewrite (List.filter_ext _ _ (fun t' => sameEdge_congr tr tr0 t' (eq_sym Es))).
      rewrite (existsb_filter_nil _ _ Ex). simpl. lia.
    + specialize (IH tr). lia.
  - apply IH.
Qed.

Lemma addTransitionTimes_built n g tr :
  graph_built g -> graph_built (addTransitionTimes n g tr).
Proof.
  revert g. induction n as [|n IH]; intros g Hg; simpl; [done|].
  apply IH. by constructor.
Qed.

(** C5. Inserting a transition whose (fromStateId, toStateId, action.type,
    action.elementSelector) matches a stored transition leaves the graph,
    and so its transition list, unchanged; hence in a graph built through
    the methods of the class, however many times a transition is inserted,
    at most one stored transition carries its quadruple. *)
Theorem addTransition_dedup (g : StateGraph.t) (tr : StateTransition) :
  (forall t', t' ∈ StateGraph.transitions g -> quadruple t' = quadruple tr ->
     StateGraph.transitions (StateGraph.addTransition g tr)
     = StateGraph.transitions g) /\
  (graph_built g ->
   forall n,
     length
       (List.filter (fun t' => bool_decide (quadruple t' = quadruple tr))
          (StateGraph.transitions (addTransitionTimes n g tr))) <= 1).
Proof.
  split.
  - intros t' Hin Hq. rewrite addTransition_present; [done|].
    apply existsb_exists. exists t'. split; [by apply list_elem_of_In|].
    by apply sameEdge_quadruple.
  - intros Hg n.
    rewrite (List.filter_ext _ (StateGraph.sameEdge tr)).
    + apply graph_built_dedup. by apply addTransitionTimes_built.
    + intros t'. apply eq_true_iff_eq.
      by rewrite bool_decide_eq_true, sameEdge_quadruple.
Qed.

Lemma addTransition_dedup_witness :
  StateGraph.transitions
    (StateGraph.addTransition Sample.ghost (Sample.edge "trans_2" "ghost" "A" "x"))
  = StateGraph.transitions Sample.ghost /\
  length
    (List.filter
       (fun t' => bool_decide
                    (quadruple t' = quadruple (Sample.edge "trans_2" "ghost" "A" "x")))
       (StateGraph.transitions
          (addTransitionTimes 5 Sample.ghost (Sample.edge "trans_2" "ghost" "A" "x"))))
  <= 1.
Proof.
  split.
  - apply (proj1 (addTransition_dedup Sample.ghost
                    (Sample.edge "trans_2" "ghost" "A" "x"))
             (Sample.edge "trans_1" "ghost" "A" "x")).
    + vm_compute. left.
    + reflexivity.
  - apply (proj2 (addTransition_dedup Sample.ghost
                    (Sample.edge "trans_2" "ghost" "A" "x"))).
    unfold Sample.ghost. repeat constructor.
Defined.

(** ** StateManager *)

Lemma decode_string_of_nat n : decode_nat (string_of_nat n) = Some n.
Proof.
  unfold decode_nat, string_of_nat. rewrite NilEmpty.usu. simpl.
  by rewrite DecimalNat.Unsigned.of_to.
Qed.

Lemma decode_zeros k s : decode_nat (zeros k s) = decode_nat s.
Proof.
  induction k as [|k IH]; simpl; [done|].
  rewrite <- IH. unfold decode_nat. simpl.
  destruct (NilEmpty.uint_of_string (zeros k s)); done.
Qed.

Lemma append_inj_l p x y : p +:+ x = p +:+ y -> x = y.
Proof. induction p as [|c p IH]; simpl; [done|]. intros [= Heq]. by apply IH. Qed.

Lemma stateId_inj a b : StateManager.stateId a = StateManager.stateId b -> a = b.
Proof.
  unfold StateManager.stateId, padStart0. intros Heq.
  apply append_inj_l in Heq.
  apply (f_equal decode_nat) in Heq.
  rewrite !decode_zeros, !decode_string_of_nat in Heq. congruence.
Qed.

Lemma map_set_fresh l s :
  id s ∉ map id l -> StateManager.map_set l s = l ++ [s].
Proof.
  induction l as [|x l IH]; simpl; [done|].
  intros Hn. apply not_elem_of_cons in Hn as [Hne Hn].
  rewrite bool_decide_eq_false_2 by done. by rewrite IH.
Qed.

Lemma sm_wf_empty : sm_wf StateManager.empty.
Proof.
  split; simpl.
  - intros sid [x Hx]. by rewrite lookup_empty in Hx.
  - intros s Hs. by apply elem_of_nil in Hs.
Qed.

Lemma sm_wf_fresh sm :
  sm_wf sm ->
  StateManager.exploredActions sm
    !! StateManager.stateId (S (StateManager.stateCounter sm)) = None /\
  StateManager.stateId (S (StateManager.stateCounter sm))
    ∉ map id (StateManager.states sm).
Proof.
  intros [Ha Hb].
  assert (Hnone : StateManager.exploredActions sm
            !! StateManager.stateId (S (StateManager.stateCounter sm)) = None).
  { apply eq_None_not_Some. intros Hs. apply Ha in Hs as (k & Hk & Heq).
    apply stateId_inj in Heq. lia. }
  split; [done|].
  intros Hin. apply list_elem_of_In, in_map_iff in Hin as (s & Hid & Hs).
  apply list_elem_of_In, Hb in Hs. rewrite Hid, Hnone in Hs.
  by destruct Hs.
Qed.

Section StateManagerFacts.
Context `{UrlParser}.

(** What [captureState] does, case by case. *)
Lemma captureState_cases sm snap els :
  sm_wf sm ->
  let key := StateManager.computeStateKey (snap_url snap) (snap_domHash snap) in
  (exists s, StateManager.findStateByKey sm key = Some s /\
             StateManager.captureState sm snap els = (s, sm)) \/
  (StateManager.findStateByKey sm key = None /\
   exists s sm',
     StateManager.captureState sm snap els = (s, sm') /\
     id s = StateManager.stateId (S (StateManager.stateCounter sm)) /\
     url s = snap_url snap /\ domHash s = snap_domHash snap /\
     StateManager.states sm' = StateManager.states sm ++ [s] /\
     StateManager.stateCounter sm' = S (StateManager.stateCounter sm) /\
     StateManager.exploredActions sm'
       = <[id s := ∅]> (StateManager.exploredActions sm)).
Proof.
  intros Hwf key. unfold StateManager.captureState. fold key.
  destruct (StateManager.findStateByKey sm key) as [s|] eqn:Ef.
  - left. by exists s.
  - right. split; [done|]. eexists _, _. split; [done|]. simpl.
    repeat split. apply map_set_fresh. simpl.
    by apply sm_wf_fresh.
Qed.

Lemma captureState_wf sm snap els :
  sm_wf sm -> sm_wf (StateManager.captureState sm snap els).2.
Proof.
  intros Hwf.
  destruct (captureState_cases sm snap els Hwf)
    as [(s & _ & ->)|(_ & s & sm' & -> & Hid & _ & _ & Hst & Hc & He)];
    [done|].
  simpl. destruct Hwf as [Ha Hb]. split.
  - intros sid Hs. rewrite He in Hs.
    destruct (decide (id s = sid)) as [<-|Hne].
    + exists (S (StateManager.stateCounter sm)). rewrite Hc. split; [lia|done].
    + rewrite lookup_insert_ne in Hs by done.
      apply Ha in Hs as (k & Hk & ->). exists k. rewrite Hc. split; [lia|done].
  - intros s' Hs'. rewrite Hst in Hs'. rewrite He.
    apply elem_of_app in Hs' as [Hs'|Hs'].
    + destruct (decide (id s = id s')) as [->|Hne].
      * rewrite lookup_insert_eq. by eexists.
      * rewrite lookup_insert_ne by done. by apply Hb.
    + apply list_elem_of_singleton in Hs' as ->.
      rewrite lookup_insert_eq. by eexists.
Qed.

Lemma find_app_Some {A} (f : A -> bool) l1 l2 x :
  List.find f l1 = Some x -> List.find f (l1 ++ l2) = Some x.
Proof.
  induction l1 as [|y l1 IH]; simpl; [done|]. destruct (f y); [done|apply IH].
Qed.

Lemma find_app_None {A} (f : A -> bool) l1 l2 :
  List.find f l1 = None -> List.find f (l1 ++ l2) = List.find f l2.
Proof.
  induction l1 as [|y l1 IH]; simpl; [done|]. destruct (f y); [done|apply IH].
Qed.

(** A state found under a key stays the state found under that key. *)
Lemma captureState_keeps_found sm snap els key s :
  sm_wf sm ->
  StateManager.findStateByKey sm key = Some s ->
  StateManager.findStateByKey (StateManager.captureState sm snap els).2 key
  = Some s.
Proof.
  intros Hwf Hf.
  destruct (captureState_cases sm snap els Hwf)
    as [(s0 & _ & ->)|(_ & s0 & sm' & -> & _ & _ & _ & Hst & _)]; [done|].
  simpl. unfold StateManager.findStateByKey in *. rewrite Hst.
  by apply find_app_Some.
Qed.

(** After a capture, its key finds the state the capture returned. *)
Lemma captureState_found sm snap els :
  sm_wf sm ->
  StateManager.findStateByKey (StateManager.captureState sm snap els).2
    (StateManager.computeStateKey (snap_url snap) (snap_domHash snap))
  = Some (StateManager.captureState sm snap els).1.
Proof.
  intros Hwf.
  destruct (captureState_cases sm snap els Hwf)
    as [(s0 & Hf & ->)|(Hf & s0 & sm' & -> & _ & Hu & Hd & Hst & _)]; [done|].
  simpl. unfold StateManager.findStateByKey in *. rewrite Hst.
  rewrite find_app_None by done. simpl.
  rewrite Hu, Hd. by rewrite bool_decide_eq_true_2.
Qed.

Lemma captureState_result_stored sm snap els :
  sm_wf sm ->
  (StateManager.captureState sm snap els).1
    ∈ StateManager.states (StateManager.captureState sm snap els).2.
Proof.
  intros Hwf. pose proof (captureState_found sm snap els Hwf) as Hf.
  unfold StateManager.findStateByKey in Hf.
  apply find_some in Hf as [Hin _]. by apply list_elem_of_In.
Qed.

Lemma captureFinal_wf sm caps : sm_wf sm -> sm_wf (captureFinal sm caps).
Proof.
  revert sm. induction caps as [|c r IH]; intros sm Hwf; simpl; [done|].
  apply IH. by apply captureState_wf.
Qed.

Lemma captureFinal_snoc sm caps c :
  captureFinal sm (caps ++ [c])
  = (StateManager.captureState (captureFinal sm caps) c.1 c.2).2.
Proof.
  revert sm. induction caps as [|c0 r IH]; intros sm; simpl; [done|apply IH].
Qed.

Lemma captureFinal_keeps_found sm caps key s :
  sm_wf sm ->
  StateManager.findStateByKey sm key = Some s ->
  StateManager.findStateByKey (captureFinal sm caps) key = Some s.
Proof.
  revert sm. induction caps as [|c r IH]; intros sm Hwf Hf; simpl; [done|].
  apply IH; [by apply captureState_wf|by apply captureState_keeps_found].
Qed.

(** The [j]-th result is what [captureState] returns on the manager the
    first [j] captures have left. *)
Lemma captureResults_lookup sm caps j c :
  caps !! j = Some c ->
  captureResults sm caps !! j
  = Some (StateManager.captureState (captureFinal sm (take j caps)) c.1 c.2).1.
Proof.
  revert sm j. induction caps as [|c0 r IH]; intros sm j Hc; [done|].
  destruct j as [|j]; simpl in *.
  - by injection Hc as ->.
  - by apply IH.
Qed.

Lemma take_S_lookup {A} (l : list A) j c :
  l !! j = Some c -> take (S j) l = take j l ++ [c].
Proof. intros Hc. by apply take_S_r. Qed.

End StateManagerFacts.

Lemma captureFinal_app `{UrlParser} sm a b :
  captureFinal sm (a ++ b) = captureFinal (captureFinal sm a) b.
Proof.
  revert sm. induction a as [|c a IH]; intros sm; simpl; [done|apply IH].
Qed.

(** C6. In a sequence of captures by a fresh [StateManager], a capture with
    the same (urlPath, domHash) as an earlier one returns the very state the
    earlier one returned, which was stored by then, and leaves the manager
    as it was: no state is created. *)
Theorem captureState_idempotent `{UrlParser}
  (caps : list (Snapshot * list InteractiveElement)) (i j : nat)
  (ci cj : Snapshot * list InteractiveElement) :
  i < j -> caps !! i = Some ci -> caps !! j = Some cj ->
  url_pathname (snap_url ci.1) = url_pathname (snap_url cj.1) ->
  snap_domHash ci.1 = snap_domHash cj.1 ->
  exists s,
    captureResults StateManager.empty caps !! i = Some s /\
    captureResults StateManager.empty caps !! j = Some s /\
    s ∈ StateManager.states
          (captureFinal StateManager.empty (take (S i) caps)) /\
    captureFinal StateManager.empty (take (S j) caps)
    = captureFinal StateManager.empty (take j caps).
Proof.
  intros Hij Hi Hj Hu Hd.
  set (smi := captureFinal StateManager.empty (take i caps)).
  set (smj := captureFinal StateManager.empty (take j caps)).
  assert (Hwfi : sm_wf smi) by apply captureFinal_wf, sm_wf_empty.
  assert (Hwfj : sm_wf smj) by apply captureFinal_wf, sm_wf_empty.
  set (key := StateManager.computeStateKey (snap_url ci.1) (snap_domHash ci.1)).
  assert (Hkey : StateManager.computeStateKey (snap_url cj.1) (snap_domHash cj.1)
                 = key).
  { unfold key, StateManager.computeStateKey. by rewrite Hu, Hd. }
  set (s := (StateManager.captureState smi ci.1 ci.2).1).
  assert (Hsi : captureFinal StateManager.empty (take (S i) caps)
                = (StateManager.captureState smi ci.1 ci.2).2).
  { rewrite (take_S_r _ _ _ Hi). apply captureFinal_snoc. }
  assert (Hfi : StateManager.findStateByKey
                  (captureFinal StateManager.empty (take (S i) caps)) key
                = Some s).
  { rewrite Hsi. by apply captureState_found. }
  assert (Hfj : StateManager.findStateByKey smj key = Some s).
  { unfold smj.
    rewrite <- (take_drop (S i) (take j caps)), take_take.
    replace (S i `min` j) with (S i) by lia.
    rewrite captureFinal_app. apply captureFinal_keeps_found; [|done].
    apply captureFinal_wf, sm_wf_empty. }
  assert (Hcj : StateManager.captureState smj cj.1 cj.2 = (s, smj)).
  { unfold StateManager.captureState. by rewrite Hkey, Hfj. }
  exists s. split; [|split; [|split]].
  - by rewrite (captureResults_lookup _ _ _ _ Hi).
  - rewrite (captureResults_lookup _ _ _ _ Hj). fold smj. by rewrite Hcj.
  - rewrite Hsi. by apply captureState_result_stored.
  - rewrite (take_S_r _ _ _ Hj), captureFinal_snoc. fold smj. by rewrite Hcj.
Qed.

Lemma captureState_idempotent_witness :
  exists s,
    captureResults (H := Sample.pathOf) StateManager.empty Sample.captures
      !! 0%nat = Some s /\
    captureResults (H := Sample.pathOf) StateManager.empty Sample.captures
      !! 2%nat = Some s /\
    s ∈ StateManager.states
          (captureFinal (H := Sample.pathOf) StateManager.empty
             (take 1 Sample.captures)) /\
    captureFinal (H := Sample.pathOf) StateManager.empty
      (take 3 Sample.captures)
    = captureFinal (H := Sample.pathOf) StateManager.empty
        (take 2 Sample.captures).
Proof.
  apply (captureState_idempotent (H := Sample.pathOf) Sample.captures 0 2
           (Sample.shot "http://localhost:3000/" "a6a6077e8bb9" "empty list" 100, [])
           (Sample.shot "http://localhost:3000/" "a6a6077e8bb9" "empty list" 300, []));
    [lia|reflexivity..].
Defined.

(** The three captures yield [state_001], [state_002], [state_001]. *)
Example captures_ids :
  map id (captureResults (H := Sample.pathOf) StateManager.empty Sample.captures)
  = ["state_001"; "state_002"; "state_001"].
Proof. vm_compute. reflexivity. Qed.

(** ** Explored-action bookkeeping *)

Lemma sm_grows_refl sm : sm_grows sm sm.
Proof. intros sid set Hs. by exists set. Qed.

Lemma sm_grows_trans sm1 sm2 sm3 :
  sm_grows sm1 sm2 -> sm_grows sm2 sm3 -> sm_grows sm1 sm3.
Proof.
  intros H12 H23 sid set Hs.
  apply H12 in Hs as (set2 & Hs2 & Hsub2).
  apply H23 in Hs2 as (set3 & Hs3 & Hsub3).
  exists set3. split; [done|set_solver].
Qed.

Lemma sm_grows_explored sm sm' sid key :
  sm_grows sm sm' -> explored_in sm sid key -> explored_in sm' sid key.
Proof.
  intros Hg (set & Hs & Hk). apply Hg in Hs as (set' & Hs' & Hsub).
  exists set'. split; [done|set_solver].
Qed.

Lemma sm_grows_known sm sm' sid :
  sm_grows sm sm' ->
  is_Some (StateManager.exploredActions sm !! sid) ->
  is_Some (StateManager.exploredActions sm' !! sid).
Proof.
  intros Hg [set Hs]. apply Hg in Hs as (set' & Hs' & _). by exists set'.
Qed.

Lemma markActionExplored_grows sm sid a :
  sm_grows sm (StateManager.markActionExplored sm sid a).
Proof.
  unfold StateManager.markActionExplored.
  destruct (StateManager.exploredActions sm !! sid) as [explored|] eqn:E;
    [|apply sm_grows_refl].
  intros sid' set Hs. simpl.
  destruct (decide (sid = sid')) as [<-|Hne].
  - rewrite lookup_insert_eq. eexists. split; [done|].
    rewrite E in Hs. injection Hs as <-. set_solver.
  - rewrite lookup_insert_ne by done. by exists set.
Qed.

Lemma markActionExplored_wf sm sid a :
  sm_wf sm -> sm_wf (StateManager.markActionExplored sm sid a).
Proof.
  intros [Ha Hb]. unfold StateManager.markActionExplored.
  destruct (StateManager.exploredActions sm !! sid) as [explored|] eqn:E;
    [|done].
  split; simpl.
  - intros sid' Hs. apply Ha.
    destruct (decide (sid = sid')) as [<-|Hne]; [by rewrite E|].
    by rewrite lookup_insert_ne in Hs.
  - intros s Hs. destruct (decide (sid = id s)) as [->|Hne].
    + rewrite lookup_insert_eq. by eexists.
    + rewrite lookup_insert_ne by done. by apply Hb.
Qed.

(** Marking puts the key of the action in the set of a known state. *)
Lemma markActionExplored_adds sm sid a :
  is_Some (StateManager.exploredActions sm !! sid) ->
  explored_in (StateManager.markActionExplored sm sid a) sid
    (StateManager.getActionKey a).
Proof.
  intros [explored E]. unfold StateManager.markActionExplored. rewrite E.
  eexists. simpl. rewrite lookup_insert_eq. split; [done|set_solver].
Qed.

Lemma captureState_grows `{UrlParser} sm snap els :
  sm_wf sm -> sm_grows sm (StateManager.captureState sm snap els).2.
Proof.
  intros Hwf.
  destruct (captureState_cases sm snap els Hwf)
    as [(s & _ & ->)|(_ & s & sm' & -> & Hid & _ & _ & _ & _ & He)];
    [apply sm_grows_refl|].
  simpl. intros sid set Hs. rewrite He.
  destruct (sm_wf_fresh sm Hwf) as [Hnone _].
  destruct (decide (id s = sid)) as [<-|Hne].
  - rewrite Hid, Hnone in Hs. done.
  - rewrite lookup_insert_ne by done. by exists set.
Qed.

(** ** The execution primitive *)

Lemma performAction_not_visible B p a :
  isVisible B p (elementSelector a) = false ->
  performAction B p a = (false, p).
Proof. unfold performAction. by intros ->. Qed.

Lemma performAction_click_throws B p a :
  isVisible B p (elementSelector a) = true -> a_type a = AClick ->
  click B p (elementSelector a) = None ->
  performAction B p a = (false, p).
Proof. unfold performAction. by intros -> -> ->. Qed.

(** ** The autonomous engine *)

Section ExplorerFacts.
Context `{UrlParser}.
Variable B : Browser.
Variable config : Explorer.Config.

#[local] Abbreviation exploreAction := (Explorer.exploreAction B config).
#[local] Abbreviation loopBody := (Explorer.loopBody B config).
#[local] Abbreviation loopCond := (Explorer.loopCond B config).

Lemma captureCurrentState_spec (ex : Explorer.t B) :
  let r := StateManager.captureState (Explorer.stateManager B ex)
             (snapshot B (Explorer.page B ex))
             (discoverElements B (Explorer.page B ex)) in
  Explorer.captureCurrentState B ex
  = (r.1, {| Explorer.page := Explorer.page B ex;
             Explorer.stateManager := r.2;
             Explorer.stateGraph :=
               StateGraph.addState (Explorer.stateGraph B ex) r.1;
             Explorer.explorationQueue := Explorer.explorationQueue B ex |}).
Proof.
  simpl. unfold Explorer.captureCurrentState.
  by destruct (StateManager.captureState _ _ _).
Qed.

(** A failed execution: the action is marked, nothing else changes but
    the page. *)
Lemma exploreAction_failed (ex : Explorer.t B) item :
  (performAction B (goto B (Explorer.page B ex)) (q_action item)).1 = false ->
  exploreAction ex item
  = {| Explorer.page :=
         (performAction B (goto B (Explorer.page B ex)) (q_action item)).2;
       Explorer.stateManager :=
         StateManager.markActionExplored (Explorer.stateManager B ex)
           (q_stateId item) (q_action item);
       Explorer.stateGraph := Explorer.stateGraph B ex;
       Explorer.explorationQueue := Explorer.explorationQueue B ex |}.
Proof.
  intros Hf. unfold Explorer.exploreAction, Explorer.executeAction,
    Explorer.restoreToState. simpl.
  destruct (performAction B (goto B (Explorer.page B ex)) (q_action item))
    as [ok p]. simpl in Hf. subst ok. done.
Qed.

Lemma queueActionsForState_sm (ex : Explorer.t B) s path :
  Explorer.stateManager B (Explorer.queueActionsForState B config ex s path)
  = Explorer.stateManager B ex.
Proof. done. Qed.

Lemma queueActionsForState_items (ex : Explorer.t B) s path item :
  item ∈ Explorer.explorationQueue B
           (Explorer.queueActionsForState B config ex s path) ->
  item ∈ Explorer.explorationQueue B ex \/ q_stateId item = id s.
Proof.
  unfold Explorer.queueActionsForState. simpl. intros Hin.
  apply elem_of_app in Hin as [Hin|Hin]; [by left|]. right.
  apply list_elem_of_In, in_map_iff in Hin as (a & <- & _). done.
Qed.

(** The manager after [exploreAction]: the mark, then at most one capture. *)
Lemma exploreAction_sm (ex : Explorer.t B) item :
  let sm1 := StateManager.markActionExplored (Explorer.stateManager B ex)
               (q_stateId item) (q_action item) in
  Explorer.stateManager B (exploreAction ex item) = sm1 \/
  exists snap els,
    Explorer.stateManager B (exploreAction ex item)
    = (StateManager.captureState sm1 snap els).2.
Proof.
  simpl. unfold Explorer.exploreAction, Explorer.executeAction,
    Explorer.restoreToState. simpl.
  destruct (performAction B (goto B (Explorer.page B ex)) (q_action item))
    as [ok p]. destruct ok; simpl; [|by left].
  rewrite captureCurrentState_spec. simpl. right.
  eexists _, _. case_bool_decide; simpl; done.
Qed.

Lemma exploreAction_wf (ex : Explorer.t B) item :
  sm_wf (Explorer.stateManager B ex) ->
  sm_wf (Explorer.stateManager B (exploreAction ex item)) /\
  sm_grows (Explorer.stateManager B ex)
    (Explorer.stateManager B (exploreAction ex item)).
Proof.
  intros Hwf.
  pose proof (markActionExplored_wf _ (q_stateId item) (q_action item) Hwf)
    as Hwf1.
  pose proof (markActionExplored_grows (Explorer.stateManager B ex)
                (q_stateId item) (q_action item)) as Hg1.
  destruct (exploreAction_sm ex item) as [->|(snap & els & ->)]; [done|].
  split; [by apply captureState_wf|].
  eapply sm_grows_trans; [done|]. by apply captureState_grows.
Qed.

Lemma exploreAction_queue (ex : Explorer.t B) item it :
  sm_wf (Explorer.stateManager B ex) ->
  it ∈ Explorer.explorationQueue B (exploreAction ex item) ->
  it ∈ Explorer.explorationQueue B ex \/
  is_Some (StateManager.exploredActions
             (Explorer.stateManager B (exploreAction ex item))
             !! q_stateId it).
Proof.
  intros Hwf. unfold Explorer.exploreAction, Explorer.executeAction,
    Explorer.restoreToState. simpl.
  destruct (performAction B (goto B (Explorer.page B ex)) (q_action item))
    as [ok p]. destruct ok; simpl; [|intros ?; by left].
  rewrite captureCurrentState_spec. simpl.
  set (sm1 := StateManager.markActionExplored _ _ _).
  assert (Hwf1 : sm_wf sm1) by by apply markActionExplored_wf.
  case_bool_decide; simpl; [intros ?; by left|].
  intros Hin. apply elem_of_app in Hin as [Hin|Hin]; [by left|]. right.
  apply list_elem_of_In, in_map_iff in Hin as (a & <- & _). simpl.
  pose proof (captureState_wf sm1 (snapshot B p) (discoverElements B p) Hwf1)
    as [_ Hb].
  apply Hb. by apply captureState_result_stored.
Qed.

Lemma loopBody_inv (ex : Explorer.t B) :
  explorer_inv B ex -> explorer_inv B (loopBody ex).
Proof.
  intros [Hwf Hq]. unfold Explorer.loopBody.
  destruct (Explorer.explorationQueue B ex) as [|item rest] eqn:Eq;
    [by split; [|rewrite Eq]|].
  case_bool_decide.
  - split; [done|]. simpl. intros it Hin. apply Hq. by right.
  - set (ex1 := {| Explorer.page := _ |}).
    destruct (exploreAction_wf ex1 item Hwf) as [Hwf' Hg].
    split; [done|]. intros it Hin.
    apply exploreAction_queue in Hin as [Hin|Hin]; [|done..].
    eapply sm_grows_known; [done|]. apply Hq. by right.
Qed.

Lemma loopBody_grows (ex : Explorer.t B) :
  sm_wf (Explorer.stateManager B ex) ->
  sm_wf (Explorer.stateManager B (loopBody ex)) /\
  sm_grows (Explorer.stateManager B ex) (Explorer.stateManager B (loopBody ex)).
Proof.
  intros Hwf. unfold Explorer.loopBody.
  destruct (Explorer.explorationQueue B ex) as [|item rest];
    [by split; [|apply sm_grows_refl]|].
  case_bool_decide; [by split; [|apply sm_grows_refl]|].
  by apply (exploreAction_wf {| Explorer.page := _ |}).
Qed.

Lemma exploration_grows fuel (ex : Explorer.t B) :
  sm_wf (Explorer.stateManager B ex) ->
  sm_grows (Explorer.stateManager B ex)
    (Explorer.stateManager B (Loop.while loopCond loopBody fuel ex)).
Proof.
  intros Hwf.
  apply (while_inv loopCond loopBody
           (fun ex' => sm_wf (Explorer.stateManager B ex') /\
                       sm_grows (Explorer.stateManager B ex)
                         (Explorer.stateManager B ex'))).
  - intros ex' [Hwf' Hg] _. destruct (loopBody_grows ex' Hwf') as [Hwf'' Hg'].
    split; [done|]. by eapply sm_grows_trans.
  - split; [done|apply sm_grows_refl].
Qed.

Lemma start_inv p0 : explorer_inv B (Explorer.start B config p0).
Proof.
  unfold Explorer.start. rewrite captureCurrentState_spec.
  cbn [fst snd Explorer.page Explorer.stateManager Explorer.stateGraph
       Explorer.explorationQueue].
  pose proof (captureState_wf StateManager.empty (snapshot B (goto B p0))
                (discoverElements B (goto B p0)) sm_wf_empty) as Hwf.
  unfold Explorer.queueActionsForState.
  split; cbn [Explorer.stateManager Explorer.explorationQueue]; [done|].
  intros it Hin. rewrite app_nil_l in Hin.
  apply list_elem_of_In, in_map_iff in Hin as (a & <- & _).
  cbn [q_stateId].
  destruct Hwf as [_ Hb]. apply Hb.
  apply captureState_result_stored, sm_wf_empty.
Qed.

(** Every state [runExploration] passes through satisfies the invariant. *)
Lemma runExploration_inv fuel p0 :
  explorer_inv B (Explorer.runExploration B config fuel p0).
Proof.
  unfold Explorer.runExploration.
  apply while_inv; [intros ex Hex _; by apply loopBody_inv|apply start_inv].
Qed.

End ExplorerFacts.

(** What decides the enqueueing in [exploreAction]: after a successful
    execution the actions of the captured state are queued exactly when its
    id differs from the id of the source state. *)
Lemma exploreAction_enqueue_rule `{UrlParser} (B : Browser)
  (config : Explorer.Config) (ex : Explorer.t B) (item : ExplorationQueueItem) :
  (performAction B (goto B (Explorer.page B ex)) (q_action item)).1 = true ->
  let p := (performAction B (goto B (Explorer.page B ex)) (q_action item)).2 in
  let r := StateManager.captureState
             (StateManager.markActionExplored (Explorer.stateManager B ex)
                (q_stateId item) (q_action item))
             (snapshot B p) (discoverElements B p) in
  Explorer.explorationQueue B (Explorer.exploreAction B config ex item)
  = if bool_decide (id r.1 = q_stateId item)
    then Explorer.explorationQueue B ex
    else
      Explorer.explorationQueue B ex ++
      map (fun a => {| q_stateId := id r.1; q_action := a;
                       q_pathFromRoot := q_pathFromRoot item ++ [id r.1] |})
        (StateManager.getUnexploredActions r.2 (id r.1)
           (flat_map
              (ActionDiscovery.generateActionsForElement
                 (Explorer.inputValues config))
              (elements r.1))).
Proof.
  intros Hok. simpl.
  unfold Explorer.exploreAction, Explorer.executeAction,
    Explorer.restoreToState. simpl.
  destruct (performAction B (goto B (Explorer.page B ex)) (q_action item))
    as [ok p]. simpl in Hok. subst ok. simpl.
  rewrite captureCurrentState_spec. simpl.
  case_bool_decide; simpl; done.
Qed.

(** C3, on the code. On [twoDoors] the engine first explores [#a] from
    [state_001], observes [state_002] for the first time and queues its
    action [#c].  It then explores [#b], which leads to [state_002] again:
    no state is created, yet [#c] is queued a second time, because
    [exploreAction] tests [newState.id !== stateId] and not whether the
    state is new. *)
Theorem exploreAction_requeues_known_state :
  Sample.queued (Sample.exploration 1)
    = [("state_001", "#b"); ("state_001", "#stuck"); ("state_002", "#c")] /\
  map id (StateManager.states
            (Explorer.stateManager Sample.twoDoors (Sample.exploration 1)))
    = ["state_001"; "state_002"] /\
  map id (StateManager.states
            (Explorer.stateManager Sample.twoDoors (Sample.exploration 2)))
    = ["state_001"; "state_002"] /\
  Sample.queued (Sample.exploration 2)
    = [("state_001", "#stuck"); ("state_002", "#c"); ("state_002", "#c")].
Proof. vm_compute. done. Qed.

(** ** The interactive controller *)

Lemma chain_last_edge trs a p t :
  is_chain trs (a :: p) = true -> last (a :: p) = Some t -> p <> [] ->
  exists x, edgeb trs x t = true.
Proof.
  revert a. induction p as [|b r IH]; intros a Hc Hl Hne; [done|].
  change (is_chain trs (a :: b :: r)) with
    (edgeb trs a b && is_chain trs (b :: r)) in Hc.
  apply andb_true_iff in Hc as [Hab Hr].
  rewrite last_cons_cons in Hl.
  destruct r as [|c r'].
  - simpl in Hl. injection Hl as <-. by exists a.
  - by apply (IH b).
Qed.

(** A state no transition leads to has no recorded path, unless it is the
    entry state. *)
Lemma no_incoming_unreachable trs entry target :
  target <> entry ->
  (forall tr, tr ∈ trs -> toStateId tr <> target) ->
  forall p, ~ recorded_path trs entry target p.
Proof.
  intros Hne Hin p (Hh & Hl & Hc).
  destruct p as [|a r]; [done|]. simpl in Hh. injection Hh as ->.
  destruct r as [|b r'].
  - simpl in Hl. congruence.
  - apply (chain_last_edge _ _ _ target) in Hc as [x Hx]; [|done..].
    apply edgeb_true in Hx as (tr & Htr & _ & Ht). by apply (Hin tr).
Qed.

Section InteractiveFacts.
Context `{UrlParser}.
Variable B : Browser.
Variable inputValues : gmap string string.

#[local] Abbreviation IE := (InteractiveExplorer.t B).
#[local] Abbreviation smOf := (InteractiveExplorer.stateManager B).

Lemma setLock_unlocked (ex : IE) :
  InteractiveExplorer.executionLock B ex = false ->
  InteractiveExplorer.setLock B false (InteractiveExplorer.setLock B true ex)
  = ex.
Proof. destruct ex. simpl. by intros ->. Qed.

Lemma interactive_capture_spec p (ex : IE) :
  let r := StateManager.captureState (smOf ex) (snapshot B p)
             (discoverElements B p) in
  InteractiveExplorer.captureCurrentState B p ex
  = (r.1,
     InteractiveExplorer.setStateGraph B
       (StateGraph.addState (InteractiveExplorer.stateGraph B ex) r.1)
       (InteractiveExplorer.setStateManager B r.2 ex)).
Proof.
  simpl. unfold InteractiveExplorer.captureCurrentState.
  by destruct (StateManager.captureState _ _ _).
Qed.

(** The manager after [executeAction]: unchanged, or the mark followed by
    at most one capture. *)
Lemma executeAction_sm (ex : IE) actionId :
  smOf (InteractiveExplorer.executeAction B inputValues ex actionId).2 = smOf ex \/
  exists a,
    let sm1 := StateManager.markActionExplored (smOf ex)
                 (InteractiveExplorer.currentStateId B ex) a in
    smOf (InteractiveExplorer.executeAction B inputValues ex actionId).2 = sm1 \/
    exists snap els,
      smOf (InteractiveExplorer.executeAction B inputValues ex actionId).2
      = (StateManager.captureState sm1 snap els).2.
Proof.
  unfold InteractiveExplorer.executeAction.
  destruct (InteractiveExplorer.executionLock B ex); [by left|].
  destruct (InteractiveExplorer.page B ex) as [p|]; [|by left].
  destruct (List.find _ _) as [item|]; [|by left].
  right. exists (av_action item).
  unfold InteractiveExplorer.executeActionInternal.
  destruct (performAction B p (av_action item)) as [ok p'].
  destruct ok; simpl; [|by left].
  right. rewrite interactive_capture_spec. simpl.
  eexists _, _.
  match goal with |- context [if ?b then _ else _] => destruct b end; done.
Qed.

Lemma jumpToState_sm (ex : IE) target :
  smOf (InteractiveExplorer.jumpToState B ex target).2 = smOf ex \/
  exists snap els,
    smOf (InteractiveExplorer.jumpToState B ex target).2
    = (StateManager.captureState (smOf ex) snap els).2.
Proof.
  unfold InteractiveExplorer.jumpToState.
  destruct (InteractiveExplorer.executionLock B ex); [by left|].
  destruct (InteractiveExplorer.page B ex) as [p|]; [|by left].
  destruct (StateGraph.getState _ _); [|by left].
  case_bool_decide; [by left|].
  destruct (InteractiveExplorer.findPathsTo B _ _ _) as [|sp l]; [by left|].
  right. rewrite interactive_capture_spec. simpl. by eexists _, _.
Qed.

Lemma runCommand_grows (ex : IE) c :
  sm_wf (smOf ex) ->
  sm_wf (smOf (runCommand B inputValues ex c)) /\
  sm_grows (smOf ex) (smOf (runCommand B inputValues ex c)).
Proof.
  intros Hwf. destruct c as [actionId|target| |sid key|sid key]; simpl.
  - destruct (executeAction_sm ex actionId)
      as [->|(a & [->|(snap & els & ->)])].
    + split; [done|apply sm_grows_refl].
    + split; [by apply markActionExplored_wf|apply markActionExplored_grows].
    + split; [by apply captureState_wf, markActionExplored_wf|].
      eapply sm_grows_trans; [apply markActionExplored_grows|].
      by apply captureState_grows, markActionExplored_wf.
  - destruct (jumpToState_sm ex target) as [->|(snap & els & ->)].
    + split; [done|apply sm_grows_refl].
    + split; [by apply captureState_wf|by apply captureState_grows].
  - unfold InteractiveExplorer.goToRoot.
    destruct (jumpToState_sm ex (InteractiveExplorer.entryStateId B ex))
      as [->|(snap & els & ->)].
    + split; [done|apply sm_grows_refl].
    + split; [by apply captureState_wf|by apply captureState_grows].
  - split; [done|apply sm_grows_refl].
  - unfold InteractiveExplorer.unskipAction.
    destruct (_ !! _); (split; [done|apply sm_grows_refl]).
Qed.

Lemma runCommands_grows (ex : IE) cs :
  sm_wf (smOf ex) ->
  sm_wf (smOf (runCommands B inputValues ex cs)) /\
  sm_grows (smOf ex) (smOf (runCommands B inputValues ex cs)).
Proof.
  revert ex. induction cs as [|c cs IH]; intros ex Hwf; simpl.
  - split; [done|apply sm_grows_refl].
  - destruct (runCommand_grows ex c Hwf) as [Hwf1 Hg1].
    destruct (IH _ Hwf1) as [Hwf2 Hg2]. split; [done|].
    by eapply sm_grows_trans.
Qed.

(** An action offered for the current state belongs to a stored state. *)
Lemma available_current_known (ex : IE) actionId item :
  sm_wf (smOf ex) ->
  List.find (fun a => bool_decide (av_id a = actionId))
    (InteractiveExplorer.getAvailableActions B inputValues ex) = Some item ->
  is_Some (StateManager.exploredActions (smOf ex)
             !! InteractiveExplorer.currentStateId B ex).
Proof.
  intros [_ Hb] Hf. unfold InteractiveExplorer.getAvailableActions in Hf.
  destruct (InteractiveExplorer.getCurrentState B ex) as [cs|] eqn:Ecs;
    [|done].
  unfold InteractiveExplorer.getCurrentState, StateManager.getState in Ecs.
  apply find_some in Ecs as [Hin Hid].
  apply bool_decide_eq_true in Hid. rewrite <- Hid.
  by apply Hb, list_elem_of_In.
Qed.

(** A failed execution in the interactive controller. *)
Lemma executeAction_failed (ex : IE) actionId item p :
  InteractiveExplorer.executionLock B ex = false ->
  InteractiveExplorer.page B ex = Some p ->
  List.find (fun a => bool_decide (av_id a = actionId))
    (InteractiveExplorer.getAvailableActions B inputValues ex) = Some item ->
  (performAction B p (av_action item)).1 = false ->
  InteractiveExplorer.executeAction B inputValues ex actionId
  = (Ok {| success := false;
           previousStateId := InteractiveExplorer.currentStateId B ex;
           newStateId := InteractiveExplorer.currentStateId B ex;
           isNewState := false;
           error := Some "Action execution failed" |},
     InteractiveExplorer.setPage B (performAction B p (av_action item)).2
       (InteractiveExplorer.setStateManager B
          (StateManager.markActionExplored (smOf ex)
             (InteractiveExplorer.currentStateId B ex) (av_action item))
          ex)).
Proof.
  intros Hlock Hp Hf Hfail. unfold InteractiveExplorer.executeAction.
  rewrite Hlock, Hp.
  change (InteractiveExplorer.getAvailableActions B inputValues
            (InteractiveExplorer.setLock B true ex))
    with (InteractiveExplorer.getAvailableActions B inputValues ex).
  rewrite Hf. unfold InteractiveExplorer.executeActionInternal.
  destruct (performAction B p (av_action item)) as [ok p'].
  simpl in Hfail. subst ok. simpl.
  unfold InteractiveExplorer.failure. f_equal.
  destruct ex. simpl in *. by subst.
Qed.

End InteractiveFacts.

(** C8. While the mutation lock is held, [executeAction] throws
    "Action already in progress" at once and leaves the controller exactly as
    it was: nothing is marked explored, no transition or step is recorded,
    no event is emitted, and the cursor and the path are unchanged. *)
Theorem executeAction_locked `{UrlParser} (B : Browser)
  (inputValues : gmap string string) (ex : InteractiveExplorer.t B)
  (actionId : string) :
  InteractiveExplorer.executionLock B ex = true ->
  InteractiveExplorer.executeAction B inputValues ex actionId
  = (Throw "Action already in progress", ex).
Proof. intros Hl. unfold InteractiveExplorer.executeAction. by rewrite Hl. Qed.

Lemma executeAction_locked_witness :
  InteractiveExplorer.executeAction (H := Sample.pathOf) Sample.twoDoors ∅
    (InteractiveExplorer.setLock Sample.twoDoors true Sample.session)
    "state_001:click:#a:"
  = (Throw "Action already in progress",
     InteractiveExplorer.setLock Sample.twoDoors true Sample.session).
Proof.
  apply (executeAction_locked (H := Sample.pathOf) Sample.twoDoors ∅
           (InteractiveExplorer.setLock Sample.twoDoors true Sample.session)
           "state_001:click:#a:").
  reflexivity.
Defined.

(** The same call on the unlocked controller goes through. *)
Example executeAction_unlocked :
  (InteractiveExplorer.executeAction (H := Sample.pathOf) Sample.twoDoors ∅
     Sample.session "state_001:click:#a:").1
  = Ok {| success := true; previousStateId := "state_001";
          newStateId := "state_002"; isNewState := true; error := None |}.
Proof. vm_compute. reflexivity. Qed.

(** C7. With the lock free and the browser initialised, [jumpToState] to a
    state the graph knows but that no recorded path links to the entry
    state throws "No path found to state: ..." and leaves the controller
    as it was; in particular [currentStateId] and [pathFromRoot]. *)
Theorem jumpToState_unreachable `{UrlParser} (B : Browser)
  (ex : InteractiveExplorer.t B) (target : string) (p : Page B)
  (targetState : AppState) :
  InteractiveExplorer.executionLock B ex = false ->
  InteractiveExplorer.page B ex = Some p ->
  StateGraph.getState (InteractiveExplorer.stateGraph B ex) target
    = Some targetState ->
  (forall path,
     ~ recorded_path
         (StateGraph.transitions (InteractiveExplorer.stateGraph B ex))
         (InteractiveExplorer.entryStateId B ex) target path) ->
  InteractiveExplorer.jumpToState B ex target
    = (Throw ("No path found to state: " +:+ target), ex) /\
  InteractiveExplorer.currentStateId B
    (InteractiveExplorer.jumpToState B ex target).2
    = InteractiveExplorer.currentStateId B ex /\
  InteractiveExplorer.pathFromRoot B
    (InteractiveExplorer.jumpToState B ex target).2
    = InteractiveExplorer.pathFromRoot B ex.
Proof.
  intros Hlock Hp Hknown Hno.
  assert (Hj : InteractiveExplorer.jumpToState B ex target
               = (Throw ("No path found to state: " +:+ target), ex)).
  { unfold InteractiveExplorer.jumpToState. rewrite Hlock, Hp, Hknown.
    rewrite bool_decide_eq_false_2.
    - unfold InteractiveExplorer.findPathsTo.
      cbn [InteractiveExplorer.setLock InteractiveExplorer.stateGraph
           InteractiveExplorer.entryStateId].
      rewrite findPaths_unreachable by done.
      by rewrite setLock_unlocked.
    - cbn [InteractiveExplorer.setLock InteractiveExplorer.entryStateId].
      intros ->. apply (Hno [InteractiveExplorer.entryStateId B ex]).
      by repeat split. }
  by rewrite Hj.
Qed.

Lemma jumpToState_unreachable_witness :
  InteractiveExplorer.jumpToState (H := Sample.pathOf) Sample.twoDoors
    Sample.sessionWithIsland "state_009"
    = (Throw "No path found to state: state_009", Sample.sessionWithIsland) /\
  InteractiveExplorer.currentStateId Sample.twoDoors
    (InteractiveExplorer.jumpToState (H := Sample.pathOf) Sample.twoDoors
       Sample.sessionWithIsland "state_009").2
    = "state_001" /\
  InteractiveExplorer.pathFromRoot Sample.twoDoors
    (InteractiveExplorer.jumpToState (H := Sample.pathOf) Sample.twoDoors
       Sample.sessionWithIsland "state_009").2
    = ["state_001"].
Proof.
  apply (jumpToState_unreachable (H := Sample.pathOf) Sample.twoDoors
           Sample.sessionWithIsland "state_009" 0%nat
           (Sample.state "state_009")).
  - reflexivity.
  - reflexivity.
  - vm_compute. reflexivity.
  - apply no_incoming_unreachable.
    + vm_compute. discriminate.
    + intros tr Htr. vm_compute in Htr. by apply elem_of_nil in Htr.
Defined.

(** C10. In [Explorer.exploreAction] and in
    [InteractiveExplorer.executeAction] the action is marked explored
    before it is executed.  So when the execution fails (element not
    visible, or the primitive throws), the explored set of the source state
    holds the key of the action, and keeps it through whatever the engine
    or the controller does next, while the graph (and so the transition
    list), the queue and the exploration history are as before. *)
Theorem failed_action_stays_explored `{UrlParser} (B : Browser)
  (config : Explorer.Config) (inputValues : gmap string string)
  (ex : Explorer.t B) (item : ExplorationQueueItem)
  (ix : InteractiveExplorer.t B) (actionId : string)
  (offered : AvailableAction) (p : Page B) :
  (sm_wf (Explorer.stateManager B ex) ->
   is_Some (StateManager.exploredActions (Explorer.stateManager B ex)
              !! q_stateId item) ->
   (performAction B (goto B (Explorer.page B ex)) (q_action item)).1 = false ->
   let ex' := Explorer.exploreAction B config ex item in
   explored_in (Explorer.stateManager B ex') (q_stateId item)
     (StateManager.getActionKey (q_action item)) /\
   Explorer.stateGraph B ex' = Explorer.stateGraph B ex /\
   Explorer.explorationQueue B ex' = Explorer.explorationQueue B ex /\
   forall fuel,
     explored_in
       (Explorer.stateManager B
          (Loop.while (Explorer.loopCond B config) (Explorer.loopBody B config)
             fuel ex'))
       (q_stateId item) (StateManager.getActionKey (q_action item))) /\
  (sm_wf (InteractiveExplorer.stateManager B ix) ->
   InteractiveExplorer.executionLock B ix = false ->
   InteractiveExplorer.page B ix = Some p ->
   List.find (fun a => bool_decide (av_id a = actionId))
     (InteractiveExplorer.getAvailableActions B inputValues ix)
     = Some offered ->
   (performAction B p (av_action offered)).1 = false ->
   let r := InteractiveExplorer.executeAction B inputValues ix actionId in
   r.1 = Ok {| success := false;
               previousStateId := InteractiveExplorer.currentStateId B ix;
               newStateId := InteractiveExplorer.currentStateId B ix;
               isNewState := false;
               error := Some "Action execution failed" |} /\
   explored_in (InteractiveExplorer.stateManager B r.2)
     (InteractiveExplorer.currentStateId B ix)
     (StateManager.getActionKey (av_action offered)) /\
   InteractiveExplorer.stateGraph B r.2 = InteractiveExplorer.stateGraph B ix /\
   InteractiveExplorer.explorationHistory B r.2
     = InteractiveExplorer.explorationHistory B ix /\
   forall cmds,
     explored_in
       (InteractiveExplorer.stateManager B (runCommands B inputValues r.2 cmds))
       (InteractiveExplorer.currentStateId B ix)
       (StateManager.getActionKey (av_action offered))).
Proof.
  split.
  - intros Hwf Hknown Hfail ex'. unfold ex'.
    rewrite (exploreAction_failed B config ex item Hfail).
    cbn [Explorer.stateManager Explorer.stateGraph Explorer.explorationQueue].
    pose proof (markActionExplored_adds _ _ (q_action item) Hknown) as Hin.
    split; [done|]. split; [done|]. split; [done|].
    intros fuel. eapply sm_grows_explored; [|done].
    set (exf := {| Explorer.page := _ |}).
    change (StateManager.markActionExplored _ _ _)
      with (Explorer.stateManager B exf).
    apply exploration_grows. by apply markActionExplored_wf.
  - intros Hwf Hlock Hp Hfind Hfail r. unfold r.
    rewrite (executeAction_failed B inputValues ix actionId offered p
               Hlock Hp Hfind Hfail).
    cbn [fst snd].
    pose proof (available_current_known B inputValues ix actionId offered
                  Hwf Hfind) as Hknown.
    pose proof (markActionExplored_adds _ _ (av_action offered) Hknown) as Hin.
    split; [done|]. split; [done|]. split; [done|]. split; [done|].
    intros cmds. eapply sm_grows_explored; [|done].
    set (ixf := InteractiveExplorer.setPage B _ _).
    change (StateManager.markActionExplored _ _ _)
      with (InteractiveExplorer.stateManager B ixf).
    apply runCommands_grows. by apply markActionExplored_wf.
Qed.

Lemma failed_action_stays_explored_witness :
  explored_in
    (Explorer.stateManager Sample.twoDoors
       (Explorer.exploreAction (H := Sample.pathOf) Sample.twoDoors
          Sample.config (Sample.exploration 2) Sample.stuckItem))
    "state_001" "click:#stuck:" /\
  explored_in
    (InteractiveExplorer.stateManager Sample.twoDoors
       (InteractiveExplorer.executeAction (H := Sample.pathOf) Sample.twoDoors
          ∅ Sample.session "state_001:click:#stuck:").2)
    "state_001" "click:#stuck:".
Proof.
  pose proof (failed_action_stays_explored (H := Sample.pathOf)
                Sample.twoDoors Sample.config ∅ (Sample.exploration 2)
                Sample.stuckItem Sample.session "state_001:click:#stuck:"
                Sample.stuckOffer 0%nat) as [He Hi].
  split.
  - refine (proj1 (He _ _ _)).
    + apply (runExploration_inv (H := Sample.pathOf) Sample.twoDoors
               Sample.config 2 0%nat).
    + eexists. vm_compute. reflexivity.
    + vm_compute. reflexivity.
  - refine (proj1 (proj2 (Hi _ _ _ _ _))).
    + apply (captureState_wf (H := Sample.pathOf) StateManager.empty
               (snapshot Sample.twoDoors 0%nat)
               (discoverElements Sample.twoDoors 0%nat) sm_wf_empty).
    + reflexivity.
    + reflexivity.
    + vm_compute. reflexivity.
    + vm_compute. reflexivity.
Defined.

(** On [twoDoors] the failed click on [#stuck] leaves the graph of the
    engine with the two transitions it had. *)
Example stuck_records_nothing :
  length (StateGraph.transitions
            (Explorer.stateGraph Sample.twoDoors (Sample.exploration 2))) = 2 /\
  length (StateGraph.transitions
            (Explorer.stateGraph Sample.twoDoors (Sample.exploration 3))) = 2 /\
  Sample.queued (Sample.exploration 3)
    = [("state_002", "#c"); ("state_002", "#c")].
Proof. vm_compute. done. Qed.

(** ** SessionManager *)

Lemma js_oror_defined a b :
  b <> JUndefined -> SessionManager.js_oror a b <> JUndefined.
Proof.
  intros Hb. unfold SessionManager.js_oror.
  destruct (SessionManager.js_truthy a) eqn:Ea; [|done].
  by destruct a.
Qed.

(** A payload whose version is absent (or falsy) or zero is migrated:
    [load] does not throw, and returns the object [migrate] builds. *)
Lemma load_legacy env filePath data :
  SessionManager.js_truthy (SessionManager.lookupField "version" data) = false
  \/ SessionManager.lookupField "version" data = JNum 0 ->
  SessionManager.load env filePath (SessionManager.Parsed (JObj data))
  = Ok (JObj
          [ ("version", JNum SessionManager.CURRENT_VERSION);
            ("id",
             SessionManager.js_oror (SessionManager.lookupField "id" data)
               (JStr (SessionManager.generateSessionId env)));
            ("appUrl",
             SessionManager.js_oror (SessionManager.lookupField "appUrl" data)
               (JStr ""));
            ("createdAt",
             SessionManager.js_oror
               (SessionManager.lookupField "createdAt" data)
               (JStr (SessionManager.createdNow env)));
            ("lastUpdatedAt", JStr (SessionManager.updatedNow env));
            ("currentStateId",
             SessionManager.js_oror
               (SessionManager.lookupField "currentStateId" data) (JStr ""));
            ("entryStateId",
             SessionManager.js_oror
               (SessionManager.lookupField "entryStateId" data) (JStr ""));
            ("stateGraph", SessionManager.lookupField "stateGraph" data);
            ("skippedActions",
             SessionManager.js_oror
               (SessionManager.lookupField "skippedActions" data) (JObj []));
            ("explorationHistory",
             SessionManager.js_oror
               (SessionManager.lookupField "explorationHistory" data)
               (JArr [])) ]).
Proof.
  intros Hv. unfold SessionManager.load, SessionManager.getProp.
  assert (Hne : SessionManager.js_eq_num
                  (SessionManager.lookupField "version" data)
                  SessionManager.CURRENT_VERSION = false).
  { destruct Hv as [Hv| ->]; [|done].
    destruct (SessionManager.lookupField "version" data); try done.
    simpl in *. apply negb_false_iff, bool_decide_eq_true in Hv. by subst. }
  rewrite Hne. simpl negb. cbv iota.
  unfold SessionManager.migrate, SessionManager.migrateFields.
  assert (Hc : negb (SessionManager.js_truthy
                       (SessionManager.lookupField "version" data))
               || SessionManager.js_eq_num
                    (SessionManager.lookupField "version" data) 0 = true).
  { destruct Hv as [->| ->]; done. }
  by rewrite Hc.
Qed.

(** Every required field but [stateGraph] is defined after the migration;
    [stateGraph] is whatever the payload had. *)
Lemma load_legacy_fields env filePath data k :
  SessionManager.js_truthy (SessionManager.lookupField "version" data) = false
  \/ SessionManager.lookupField "version" data = JNum 0 ->
  k ∈ SessionManager.requiredFields -> k <> "stateGraph" ->
  exists session,
    SessionManager.load env filePath (SessionManager.Parsed (JObj data))
      = Ok session /\
    SessionManager.fieldDefined session k = true.
Proof.
  intros Hv Hk Hne. eexists. split; [by apply load_legacy|].
  unfold SessionManager.requiredFields in Hk.
  repeat (apply elem_of_cons in Hk as [->|Hk]); try done;
    try (by apply elem_of_nil in Hk);
    unfold SessionManager.fieldDefined; simpl;
    match goal with
    | |- context [SessionManager.js_oror ?a ?b] =>
      pose proof (js_oror_defined a b ltac:(done)) as Hd;
      destruct (SessionManager.js_oror a b); done
    end.
Qed.

(** C2, on the code. The stored payload has no [version] and no
    [stateGraph].  [load] does not throw and stamps version 1, a fresh id
    and the current time, but the [stateGraph] of the session it returns
    is [undefined]: [migrate] gives every field a default except that
    one. *)
Theorem load_legacy_without_graph :
  SessionManager.load Sample.env "./output/sessions/localhost_3000_session.json"
    (SessionManager.Parsed Sample.legacyPayload)
  = Ok Sample.migratedLegacy /\
  SessionManager.fieldDefined Sample.migratedLegacy "stateGraph" = false.
Proof. split; vm_compute; reflexivity. Qed.

(* ===================================================================== *)
(** * Further properties *)
(* ===================================================================== *)

(** ** StateGraph, further *)

Lemma split_first {A} (P : A -> Prop) `{forall x, Decision (P x)} (l : list A) :
  (exists x, x ∈ l /\ P x) ->
  exists pre x post, l = pre ++ x :: post /\ P x /\ Forall (fun y => ~ P y) pre.
Proof.
  induction l as [|y l IH]; intros (x & Hin & Hx).
  - by apply elem_of_nil in Hin.
  - destruct (decide (P y)) as [Hy|Hy].
    + exists [], y, l. by repeat split.
    + apply elem_of_cons in Hin as [->|Hin]; [done|].
      destruct IH as (pre & x' & post & -> & Hx' & Hpre); [by exists x|].
      exists (y :: pre), x', post. repeat split; [done|].
      by constructor.
Qed.

Section DirectEdge.
Variable trs : list StateTransition.
Variables entry target : string.
Variable maxPaths : nat.
Hypothesis Hne : target <> entry.
Hypothesis Hedge :
  exists tr, tr ∈ trs /\ fromStateId tr = entry /\ toStateId tr = target.

Lemma successors_direct :
  exists pre post,
    PathSearch.successors trs target entry [entry]
    = pre ++ (target, [entry; target]) :: post /\
    Forall (fun it : string * list string => it.1 <> target) pre.
Proof.
  destruct (split_first (fun it : string * list string => it.1 = target)
              (PathSearch.successors trs target entry [entry]))
    as (pre & it & post & Heq & Hit & Hpre).
  { destruct Hedge as (tr & Hin & Hf & Ht).
    exists (toStateId tr, [entry] ++ [toStateId tr]). split; [|done].
    apply successors_spec. exists tr. repeat split; try done. by right. }
  assert (Hin : it ∈ PathSearch.successors trs target entry [entry]).
  { rewrite Heq. apply elem_of_app. right. by left. }
  apply successors_spec in Hin as (tr & _ & _ & _ & ->). simpl in Hit.
  exists pre, post. rewrite Heq, Hit. done.
Qed.

Lemma direct_inv_body s :
  direct_inv entry target s ->
  direct_inv entry target (PathSearch.body trs target s).
Proof.
  intros [->|[(pre & post & Hq & Hpre & Ha)|(rest & Ha)]].
  - unfold PathSearch.body, PathSearch.init. simpl.
    rewrite bool_decide_eq_false_2 by done.
    rewrite bool_decide_eq_false_2 by set_solver. simpl.
    destruct successors_direct as (pre & post & -> & Hpre).
    right. left. by exists pre, post.
  - unfold PathSearch.body. rewrite Hq.
    destruct pre as [|[sid p] pre']; simpl.
    + rewrite bool_decide_eq_true_2 by done.
      right. right. simpl. rewrite Ha. by exists [].
    + apply Forall_cons in Hpre as [Hsid Hpre']. simpl in Hsid.
      rewrite bool_decide_eq_false_2 by done.
      right. left. case_bool_decide; simpl.
      * by exists pre', post.
      * exists pre', (post ++ PathSearch.successors trs target sid p).
        split; [by rewrite <- app_assoc|done].
  - right. right. unfold PathSearch.body.
    destruct (PathSearch.queue s) as [|[sid p] q]; [by exists rest|].
    case_bool_decide; simpl.
    + rewrite Ha. by eexists.
    + case_bool_decide; simpl; by exists rest.
Qed.

Lemma direct_run :
  1 <= maxPaths ->
  exists rest,
    PathSearch.allPaths (PathSearch.run trs entry target maxPaths)
    = [entry; target] :: rest.
Proof.
  intros Hcap.
  assert (Hinv : direct_inv entry target
                   (PathSearch.run trs entry target maxPaths)).
  { unfold PathSearch.run. apply while_inv; [|by left].
    intros s Hs _. by apply direct_inv_body. }
  pose proof (run_exits trs entry target maxPaths) as Hexit.
  destruct Hinv as [Hi|[(pre & post & Hq & _ & Ha)|Hdone]]; [| |done].
  - rewrite Hi in Hexit. unfold PathSearch.cond in Hexit. simpl in Hexit.
    rewrite bool_decide_eq_true_2 in Hexit by lia. discriminate.
  - unfold PathSearch.cond in Hexit. rewrite Hq, Ha, length_app in Hexit.
    simpl in Hexit.
    rewrite bool_decide_eq_true_2 in Hexit by lia.
    rewrite bool_decide_eq_true_2 in Hexit by lia. discriminate.
Qed.

Lemma findPaths_direct :
  1 <= maxPaths ->
  head (PathSearch.findPaths trs entry target maxPaths)
  = Some [entry; target].
Proof.
  intros Hcap. unfold PathSearch.findPaths.
  rewrite bool_decide_eq_false_2 by done.
  destruct (direct_run Hcap) as (rest & ->). done.
Qed.

End DirectEdge.

Lemma findPaths_direct_one trs entry target :
  target <> entry ->
  (exists tr, tr ∈ trs /\ fromStateId tr = entry /\ toStateId tr = target) ->
  PathSearch.findPaths trs entry target 1 = [[entry; target]].
Proof.
  intros Hne Hedge.
  pose proof (findPaths_direct trs entry target 1 Hne Hedge (le_n 1)) as Hh.
  pose proof (findPaths_length trs entry target 1) as Hl.
  destruct (PathSearch.findPaths trs entry target 1) as [|p [|q l]];
    simpl in *; [done| |lia].
  by injection Hh as ->.
Qed.

(** X1: the search returns the shortest path first. If a transition from the
    entry state to the target is recorded, the first path [findPathsTo]
    returns is [[entry; target]] (for a cap of at least 1), and the search
    the interactive controller uses for replay, with its cap of 1, returns
    that path alone. *)
Theorem findPathsTo_direct_edge_first (g : StateGraph.t) (B : Browser)
  (ex : InteractiveExplorer.t B) (target : string) (maxPaths : nat) :
  (target <> StateGraph.entryStateId g ->
   edgeb (StateGraph.transitions g) (StateGraph.entryStateId g) target = true ->
   1 <= maxPaths ->
   head (StateGraph.findPathsTo g target maxPaths)
   = Some [StateGraph.entryStateId g; target]) /\
  (target <> InteractiveExplorer.entryStateId B ex ->
   edgeb (StateGraph.transitions (InteractiveExplorer.stateGraph B ex))
     (InteractiveExplorer.entryStateId B ex) target = true ->
   InteractiveExplorer.findPathsTo B ex target
     InteractiveExplorer.defaultMaxPaths
   = [[InteractiveExplorer.entryStateId B ex; target]]).
Proof.
  split.
  - intros Hne He Hcap. apply findPaths_direct; [done| |done].
    by apply edgeb_true.
  - intros Hne He. apply findPaths_direct_one; [done|].
    by apply edgeb_true.
Qed.

Lemma findPathsTo_direct_edge_first_witness :
  head (StateGraph.findPathsTo Sample.diamond "d" 3) = Some ["a"; "d"].
Proof.
  apply (proj1 (findPathsTo_direct_edge_first Sample.diamond Sample.noBrowser
                  (InteractiveExplorer.new Sample.noBrowser) "d" 3)).
  - discriminate.
  - vm_compute. reflexivity.
  - lia.
Defined.

Lemma is_chain_lookup trs p i a b :
  is_chain trs p = true -> p !! i = Some a -> p !! S i = Some b ->
  edgeb trs a b = true.
Proof.
  revert i. induction p as [|x r IH]; intros i Hc Ha Hb; [done|].
  destruct r as [|y r']; [done|].
  change (is_chain trs (x :: y :: r')) with
    (edgeb trs x y && is_chain trs (y :: r')) in Hc.
  apply andb_true_iff in Hc as [Hxy Hr].
  destruct i as [|i]; simpl in *.
  - by injection Ha as <-; injection Hb as <-.
  - by apply (IH i).
Qed.

Lemma edgeb_find trs a b :
  edgeb trs a b = true ->
  is_Some (List.find (fun tr => bool_decide (toStateId tr = b))
             (transitionsFrom trs a)).
Proof.
  intros He. apply edgeb_true in He as (tr & Hin & Hf & Ht).
  destruct (List.find _ _) as [x|] eqn:Ef; [by eexists|].
  exfalso.
  assert (Hin' : In tr (transitionsFrom trs a)).
  { unfold transitionsFrom. apply filter_In. split; [by apply list_elem_of_In|].
    by apply bool_decide_eq_true. }
  pose proof (find_none _ _ Ef tr Hin') as Hb. simpl in Hb.
  by apply bool_decide_eq_false in Hb.
Qed.

(** X2: every path the search returns follows recorded transitions. For any
    two consecutive states of a returned path, the lookup the replay loop
    of [jumpToState] performs
    ([getTransitionsFrom(from).find(t => t.toStateId === to)]) finds a
    transition. *)
Theorem findPathsTo_paths_replayable (g : StateGraph.t) (target : string)
  (maxPaths : nat) (p : list string) (i : nat) (a b : string) :
  p ∈ StateGraph.findPathsTo g target maxPaths ->
  p !! i = Some a -> p !! S i = Some b ->
  is_chain (StateGraph.transitions g) p = true /\
  is_Some (List.find (fun tr => bool_decide (toStateId tr = b))
             (StateGraph.getTransitionsFrom g a)).
Proof.
  intros Hp Ha Hb. apply findPaths_good in Hp as ((_ & _ & Hc & _) & _).
  split; [done|]. apply edgeb_find. by eapply is_chain_lookup.
Qed.

Lemma findPathsTo_paths_replayable_witness :
  is_chain (StateGraph.transitions Sample.diamond) ["a"; "b"; "d"] = true /\
  is_Some (List.find (fun tr => bool_decide (toStateId tr = "d"))
             (StateGraph.getTransitionsFrom Sample.diamond "b")).
Proof.
  apply (findPathsTo_paths_replayable Sample.diamond "d" 3 ["a"; "b"; "d"] 1).
  - apply (bool_decide_unpack _). vm_compute. exact I.
  - reflexivity.
  - reflexivity.
Defined.

(** X3: when the entry id is set, the record [computePaths] returns has
    one own property per stored state id other than ["__proto__"] and no
    other: the property of a stored state id is what [findPathsTo] returns
    for it with the default cap.  A state stored under the id
    ["__proto__"] gets none, the assignment on a plain object setting the
    prototype instead. *)
Theorem computePaths_lookup (g : StateGraph.t) (sid : string) :
  StateGraph.entryStateId g <> "" ->
  StateGraph.computePaths g !! sid
  = if StateGraph.has g sid && negb (bool_decide (sid = "__proto__"))
    then Some (StateGraph.findPathsTo g sid StateGraph.defaultMaxPaths)
    else None.
Proof.
  intros He. unfold StateGraph.computePaths, StateGraph.has.
  rewrite bool_decide_eq_false_2 by done.
  rewrite (foldl_record_set_lookup
             (fun i => StateGraph.findPathsTo g i StateGraph.defaultMaxPaths)).
  by rewrite lookup_empty.
Qed.

Lemma computePaths_lookup_witness :
  StateGraph.computePaths Sample.diamond !! "d"
  = Some [["a"; "d"]; ["a"; "b"; "d"]; ["a"; "c"; "d"]] /\
  StateGraph.computePaths
    (StateGraph.addState Sample.diamond (Sample.state "__proto__"))
    !! "__proto__" = None.
Proof.
  split.
  - rewrite (computePaths_lookup Sample.diamond "d") by discriminate.
    vm_compute. reflexivity.
  - rewrite (computePaths_lookup
               (StateGraph.addState Sample.diamond (Sample.state "__proto__"))
               "__proto__") by discriminate.
    vm_compute. reflexivity.
Defined.

Lemma getState_spec g sid s :
  StateGraph.getState g sid = Some s -> s ∈ StateGraph.states g /\ id s = sid.
Proof.
  unfold StateGraph.getState. intros Hf. apply find_some in Hf as [Hin Hid].
  split; [by apply list_elem_of_In|by apply bool_decide_eq_true in Hid].
Qed.

Lemma getState_None g sid :
  StateGraph.getState g sid = None <-> sid ∉ map id (StateGraph.states g).
Proof.
  unfold StateGraph.getState. split.
  - intros Hf Hin. apply list_elem_of_In, in_map_iff in Hin as (s & Hid & Hs).
    pose proof (find_none _ _ Hf s Hs) as Hb. simpl in Hb.
    by apply bool_decide_eq_false in Hb.
  - intros Hn. destruct (List.find _ _) as [s|] eqn:Ef; [|done].
    exfalso. apply Hn. apply find_some in Ef as [Hin Hid].
    apply bool_decide_eq_true in Hid. subst sid.
    by apply list_elem_of_In, in_map, list_elem_of_In, list_elem_of_In.
Qed.

Lemma graph_built_NoDup g : graph_built g -> NoDup (map id (StateGraph.states g)).
Proof.
  induction 1 as [|g s _ IH|g tr _ IH|g sid _ IH]; simpl.
  - constructor.
  - unfold StateGraph.addState, StateGraph.has. case_bool_decide; [done|].
    simpl. rewrite map_app. apply NoDup_app. split; [done|].
    split; [|apply NoDup_singleton].
    intros x Hx Hx'. apply list_elem_of_singleton in Hx'. by subst.
  - unfold StateGraph.addTransition. by destruct (negb _).
  - done.
Qed.

(** X4: [addState] keeps the first state stored under an id. After
    [addState g s], looking up [s.id] gives the state that was already
    stored under that id if there was one, and [s] otherwise; every other
    lookup is unchanged; and in a graph built through the methods of the
    class no two stored states share an id. *)
Theorem addState_keeps_first (g : StateGraph.t) (s : AppState) (sid : string) :
  StateGraph.getState (StateGraph.addState g s) (id s)
    = Some (default s (StateGraph.getState g (id s))) /\
  (sid <> id s ->
   StateGraph.getState (StateGraph.addState g s) sid = StateGraph.getState g sid) /\
  (graph_built g -> NoDup (map id (StateGraph.states (StateGraph.addState g s)))).
Proof.
  split; [|split].
  - unfold StateGraph.addState, StateGraph.has. case_bool_decide as Hin.
    + destruct (StateGraph.getState g (id s)) as [s0|] eqn:Eg; [done|].
      by apply getState_None in Eg.
    + assert (Eg : StateGraph.getState g (id s) = None) by by apply getState_None.
      rewrite Eg. unfold StateGraph.getState in *. simpl.
      rewrite find_app_None by done. simpl.
      by rewrite bool_decide_eq_true_2.
  - intros Hne. unfold StateGraph.addState. destruct (StateGraph.has g (id s));
      [done|].
    unfold StateGraph.getState. simpl.
    destruct (List.find _ (StateGraph.states g)) as [s0|] eqn:Ef.
    + by rewrite (find_app_Some _ _ _ _ Ef).
    + rewrite find_app_None by done. simpl.
      by rewrite bool_decide_eq_false_2.
  - intros Hg. apply graph_built_NoDup. by constructor.
Qed.

Lemma addState_keeps_first_witness :
  StateGraph.getState (StateGraph.addState Sample.diamond (Sample.state "b")) "a"
  = StateGraph.getState Sample.diamond "a".
Proof.
  apply (proj1 (proj2 (addState_keeps_first Sample.diamond (Sample.state "b") "a"))).
  discriminate.
Defined.

(** ** StateManager, further *)

#[local] Set Warnings "-clear-no-such-hyp".

Section StateManagerMore.
Context `{UrlParser}.

Lemma sm_ok_wf sm : sm_ok sm -> sm_wf sm.
Proof.
  intros (Hids & Hdom & _). split.
  - intros sid Hs. apply elem_of_dom in Hs. rewrite Hdom in Hs.
    apply elem_of_list_to_set in Hs. rewrite Hids in Hs.
    apply list_elem_of_In, in_map_iff in Hs as (k & <- & Hk).
    apply in_seq in Hk. exists k. split; [lia|done].
  - intros s Hs. apply elem_of_dom. rewrite Hdom.
    apply elem_of_list_to_set.
    by apply list_elem_of_In, in_map, list_elem_of_In.
Qed.

Lemma sm_ok_empty : sm_ok StateManager.empty.
Proof.
  split; [done|]. split; [|constructor]. simpl. by rewrite dom_empty_L.
Qed.

Lemma findStateByKey_None sm key :
  StateManager.findStateByKey sm key = None ->
  key ∉ map stateKey (StateManager.states sm).
Proof.
  unfold StateManager.findStateByKey. intros Hf Hin.
  apply list_elem_of_In, in_map_iff in Hin as (s & Hk & Hs).
  pose proof (find_none _ _ Hf s Hs) as Hb. simpl in Hb.
  by apply bool_decide_eq_false in Hb.
Qed.

Lemma captureState_ok sm page els :
  sm_ok sm -> sm_ok (StateManager.captureState sm page els).2.
Proof.
  intros Hok. pose proof (sm_ok_wf sm Hok) as Hwf.
  destruct (captureState_cases sm page els Hwf)
    as [(s & _ & ->)|(Hf & s & sm' & -> & Hid & Hu & Hd & Hst & Hc & He)];
    [done|].
  destruct Hok as (Hids & Hdom & Hkeys). simpl. split; [|split].
  - rewrite Hst, Hc, map_app, Hids, seq_S, map_app. simpl. by rewrite Hid.
  - rewrite He, Hst, dom_insert_L, Hdom, map_app, list_to_set_app_L. simpl.
    set_solver.
  - rewrite Hst, map_app. apply NoDup_app. split; [done|].
    split; [|apply NoDup_singleton].
    intros k Hk Hk'. apply list_elem_of_singleton in Hk'. subst k.
    apply findStateByKey_None in Hf. apply Hf.
    unfold stateKey in Hk. by rewrite Hu, Hd in Hk.
Qed.

Lemma markActionExplored_ok sm sid a :
  sm_ok sm -> sm_ok (StateManager.markActionExplored sm sid a).
Proof.
  intros (Hids & Hdom & Hkeys). unfold StateManager.markActionExplored.
  destruct (StateManager.exploredActions sm !! sid) as [explored|] eqn:E;
    [|done].
  split; [done|]. split; [|done]. simpl.
  rewrite dom_insert_L, <- Hdom.
  assert (sid ∈ dom (StateManager.exploredActions sm))
    by (apply elem_of_dom; by eexists).
  set_solver.
Qed.

Lemma sm_built_ok sm : sm_built sm -> sm_ok sm.
Proof.
  induction 1 as [|sm page els _ IH|sm sid a _ IH].
  - apply sm_ok_empty.
  - by apply captureState_ok.
  - by apply markActionExplored_ok.
Qed.

Lemma captureFinal_built sm caps : sm_built sm -> sm_built (captureFinal sm caps).
Proof.
  revert sm. induction caps as [|c r IH]; intros sm Hb; simpl; [done|].
  apply IH. by constructor.
Qed.

Lemma sm_ok_known sm sid :
  sm_ok sm ->
  is_Some (StateManager.exploredActions sm !! sid)
  <-> StateManager.isStateKnown sm sid = true.
Proof.
  intros (_ & Hdom & _). unfold StateManager.isStateKnown.
  rewrite bool_decide_eq_true, <- elem_of_dom, Hdom.
  by rewrite elem_of_list_to_set.
Qed.

(** With a description at hand [captureStateWith] is [captureState]. *)
Lemma captureStateWith_ok sm page els :
  StateManager.captureStateWith sm (snap_url page) (snap_domHash page)
    (Ok (snap_description page)) (snap_now page) els
  = (Ok (StateManager.captureState sm page els).1,
     (StateManager.captureState sm page els).2).
Proof.
  unfold StateManager.captureStateWith, StateManager.captureState.
  by destruct (StateManager.findStateByKey sm _).
Qed.

Lemma sm_built_reached sm : sm_built sm -> sm_reached sm.
Proof.
  induction 1 as [|sm page els _ IH|sm sid a _ IH].
  - constructor.
  - pose proof (sm_reached_capture sm (snap_url page) (snap_domHash page)
                  (Ok (snap_description page)) (snap_now page) els IH) as Hr.
    by rewrite captureStateWith_ok in Hr.
  - by constructor.
Qed.

Lemma sorted_snoc (ns : list nat) (x : nat) :
  StronglySorted lt ns -> Forall (fun n => n < x) ns ->
  StronglySorted lt (ns ++ [x]).
Proof.
  induction 1 as [|n ns Hs IH Hn]; intros Hx; simpl.
  - repeat constructor.
  - apply Forall_cons in Hx as [Hnx Hx]. constructor; [by apply IH|].
    apply Forall_app. split; [done|]. by constructor.
Qed.

Lemma sorted_NoDup (ns : list nat) : StronglySorted lt ns -> NoDup ns.
Proof.
  induction 1 as [|n ns Hs IH Hn]; constructor; [|done].
  intros Hin. rewrite Forall_forall in Hn. specialize (Hn n Hin). lia.
Qed.

Lemma numbered_NoDup sm ns :
  numbered_by sm ns -> NoDup (map id (StateManager.states sm)).
Proof.
  intros (Hids & Hs & _). rewrite Hids.
  apply NoDup_fmap_2_strong; [|by apply sorted_NoDup].
  intros a b _ _. apply stateId_inj.
Qed.

Lemma numbered_length sm ns :
  numbered_by sm ns ->
  StateManager.totalStates sm <= StateManager.stateCounter sm.
Proof.
  intros (Hids & Hs & Hb). unfold StateManager.totalStates.
  rewrite <- (length_map id), Hids, length_map.
  transitivity (length (seq 1 (StateManager.stateCounter sm)));
    [|by rewrite length_seq].
  apply submseteq_length, NoDup_submseteq; [by apply sorted_NoDup|].
  intros n Hn. rewrite Forall_forall in Hb. specialize (Hb n Hn).
  apply list_elem_of_In, in_seq. lia.
Qed.

Lemma captureStateWith_numbered sm ns u dh describe now els :
  numbered_by sm ns ->
  exists ns',
    numbered_by (StateManager.captureStateWith sm u dh describe now els).2 ns'.
Proof.
  intros (Hids & Hs & Hb). unfold StateManager.captureStateWith.
  destruct (StateManager.findStateByKey sm _) as [s|]; [by exists ns|].
  assert (Hb' : Forall (fun n => 1 <= n <= S (StateManager.stateCounter sm)) ns).
  { eapply Forall_impl; [exact Hb|]. simpl. intros n Hn. lia. }
  destruct describe as [d|msg]; simpl.
  - exists (ns ++ [S (StateManager.stateCounter sm)]).
    assert (Hfresh : StateManager.stateId (S (StateManager.stateCounter sm))
                       ∉ map id (StateManager.states sm)).
    { rewrite Hids. intros Hin.
      apply list_elem_of_In, in_map_iff in Hin as (n & Hn & Hin).
      apply stateId_inj in Hn. subst n.
      rewrite Forall_forall in Hb.
      specialize (Hb _ (proj2 (list_elem_of_In _ _) Hin)). lia. }
    split; [|split]; simpl.
    + rewrite map_set_fresh by done. by rewrite !map_app, Hids.
    + apply sorted_snoc; [done|].
      eapply Forall_impl; [exact Hb|]. simpl. intros n Hn. lia.
    + apply Forall_app. split; [done|]. constructor; [lia|constructor].
  - by exists ns.
Qed.

Lemma sm_reached_numbered sm : sm_reached sm -> exists ns, numbered_by sm ns.
Proof.
  induction 1 as [|sm u dh describe now els _ [ns IH]|sm sid a _ [ns IH]].
  - exists []. split; [done|]. split; constructor.
  - by eapply captureStateWith_numbered.
  - exists ns. unfold StateManager.markActionExplored.
    by destruct (StateManager.exploredActions sm !! sid).
Qed.

(** X5: states are numbered in order of creation. In every manager reached
    through the methods of the class, captures that fail in
    [generateDescription] (after the counter was incremented) included, the
    stored states carry the ids [state_NNN] of strictly increasing numbers
    between 1 and the counter, in order of creation: no two states share an
    id and there are at most as many states as the counter says.  When no
    capture has failed the numbers are exactly 1, 2, ... up to the counter,
    which is then the number of states. *)
Theorem states_numbered (sm : StateManager.t) :
  sm_reached sm ->
  (exists ns, numbered_by sm ns) /\
  StateManager.totalStates sm <= StateManager.stateCounter sm /\
  NoDup (map id (StateManager.states sm)) /\
  (sm_built sm ->
   map id (StateManager.states sm)
     = map StateManager.stateId (seq 1 (StateManager.stateCounter sm)) /\
   StateManager.totalStates sm = StateManager.stateCounter sm).
Proof.
  intros Hr. destruct (sm_reached_numbered sm Hr) as [ns Hns].
  split; [by exists ns|]. split; [by eapply numbered_length|].
  split; [by eapply numbered_NoDup|].
  intros Hb. destruct (sm_built_ok sm Hb) as (Hids & _ & _).
  split; [done|]. unfold StateManager.totalStates.
  rewrite <- (length_map id), Hids, length_map. apply length_seq.
Qed.

Lemma find_NoDup_key {A} (key : A -> string) k (l : list A) s :
  NoDup (map key l) -> s ∈ l -> key s = k ->
  List.find (fun x => bool_decide (key x = k)) l = Some s.
Proof.
  induction l as [|x l IH]; intros Hnd Hin Hk; [by apply elem_of_nil in Hin|].
  simpl in *. apply NoDup_cons in Hnd as [Hx Hnd].
  apply elem_of_cons in Hin as [->|Hin].
  - by rewrite bool_decide_eq_true_2.
  - rewrite bool_decide_eq_false_2; [by apply IH|].
    intros Hxk. apply Hx. rewrite Hxk, <- Hk.
    by apply list_elem_of_In, in_map, list_elem_of_In.
Qed.

(** X6: no two stored states have the same (urlPath, domHash) key, and the
    key of a stored state finds that very state; so does its id. *)
Theorem stored_states_distinct_keys (sm : StateManager.t) (s : AppState) :
  sm_built sm -> s ∈ StateManager.states sm ->
  NoDup (map stateKey (StateManager.states sm)) /\
  StateManager.findStateByKey sm (stateKey s) = Some s /\
  StateManager.getState sm (id s) = Some s.
Proof.
  intros Hb Hs. pose proof (sm_built_ok sm Hb) as (Hids & _ & Hkeys).
  split; [done|]. split.
  - unfold StateManager.findStateByKey. by apply (find_NoDup_key stateKey).
  - unfold StateManager.getState. apply (find_NoDup_key id); [|done..].
    rewrite Hids. apply NoDup_fmap_2_strong; [|apply NoDup_seq].
    intros a b _ _. apply stateId_inj.
Qed.

(** X7: marking and querying explored actions. In a manager built through
    the methods of the class, after [markActionExplored sid a] an action
    [a'] counts as explored from [sid'] exactly if it did before, or if
    [sid] is a known state, [sid' = sid] and [a'] has the key of [a]; so
    marking on an unknown state id changes no answer. *)
Theorem markActionExplored_query (sm : StateManager.t) (sid sid' : string)
  (a a' : Action) :
  sm_built sm ->
  StateManager.isActionExplored
    (StateManager.markActionExplored sm sid a) sid' a'
  = StateManager.isActionExplored sm sid' a'
    || (StateManager.isStateKnown sm sid && bool_decide (sid' = sid)
        && bool_decide (StateManager.getActionKey a'
                        = StateManager.getActionKey a)).
Proof.
  intros Hb. pose proof (sm_built_ok sm Hb) as Hok.
  pose proof (sm_ok_known sm sid Hok) as Hk.
  unfold StateManager.markActionExplored, StateManager.isActionExplored.
  destruct (StateManager.exploredActions sm !! sid) as [explored|] eqn:E.
  - assert (Hkn : StateManager.isStateKnown sm sid = true)
      by (apply Hk; by eexists).
    rewrite Hkn. simpl.
    destruct (decide (sid' = sid)) as [->|Hne].
    + rewrite lookup_insert_eq, E.
      rewrite (bool_decide_eq_true_2 (sid = sid)) by done. simpl.
      apply eq_true_iff_eq.
      rewrite orb_true_iff, !bool_decide_eq_true. set_solver.
    + rewrite lookup_insert_ne by done.
      rewrite (bool_decide_eq_false_2 (sid' = sid)) by done.
      by rewrite orb_false_r.
  - assert (Hkn : StateManager.isStateKnown sm sid = false).
    { destruct (StateManager.isStateKnown sm sid) eqn:Ek; [|done].
      by destruct (proj2 Hk eq_refl) as [x Hx]. }
    rewrite Hkn. simpl. by rewrite orb_false_r.
Qed.

End StateManagerMore.

Lemma states_numbered_witness :
  let sm1 :=
    (StateManager.captureStateWith (H := Sample.pathOf) StateManager.empty
       "http://localhost:3000/" "a6a6077e8bb9"
       (Throw "Execution context was destroyed") 100 []).2 in
  let sm :=
    (StateManager.captureStateWith (H := Sample.pathOf) sm1
       "http://localhost:3000/" "a6a6077e8bb9" (Ok "empty list") 200 []).2 in
  (map id (StateManager.states sm) = ["state_002"] /\
   StateManager.stateCounter sm = 2) /\
  (exists ns, numbered_by sm ns) /\
  StateManager.totalStates sm <= StateManager.stateCounter sm /\
  NoDup (map id (StateManager.states sm)).
Proof.
  intros sm1 sm. split; [split; vm_compute; reflexivity|].
  destruct (states_numbered (H := Sample.pathOf) sm) as (Hn & Hl & Hd & _).
  - subst sm sm1. do 2 constructor. constructor.
  - done.
Defined.

(** The ids the counter yields: padded to three digits, longer beyond 999. *)
Example stateId_format :
  map StateManager.stateId [1; 42; 999; 1000]
  = ["state_001"; "state_042"; "state_999"; "state_1000"].
Proof. vm_compute. reflexivity. Qed.

Lemma stored_states_distinct_keys_witness :
  let sm := captureFinal (H := Sample.pathOf) StateManager.empty Sample.captures in
  let s := {| id := "state_002"; url := "http://localhost:3000/";
              domHash := "0f3c55aa1b2e"; description := "1 items";
              elements := []; timestamp := 200 |} in
  NoDup (map (stateKey (H := Sample.pathOf)) (StateManager.states sm)) /\
  StateManager.findStateByKey (H := Sample.pathOf) sm
    (stateKey (H := Sample.pathOf) s) = Some s /\
  StateManager.getState sm (id s) = Some s.
Proof.
  apply (stored_states_distinct_keys (H := Sample.pathOf)
           (captureFinal (H := Sample.pathOf) StateManager.empty Sample.captures)).
  - apply captureFinal_built. constructor.
  - vm_compute. right. left.
Defined.

Lemma markActionExplored_query_witness :
  let sm := captureFinal (H := Sample.pathOf) StateManager.empty Sample.captures in
  StateManager.isActionExplored
    (StateManager.markActionExplored sm "state_001" (Sample.clickOn "#a"))
    "state_001" (Sample.clickOn "#a")
  = StateManager.isActionExplored sm "state_001" (Sample.clickOn "#a")
    || (StateManager.isStateKnown sm "state_001"
        && bool_decide ("state_001" = "state_001")
        && bool_decide (StateManager.getActionKey (Sample.clickOn "#a")
                        = StateManager.getActionKey (Sample.clickOn "#a"))).
Proof.
  apply (markActionExplored_query (H := Sample.pathOf)
           (captureFinal (H := Sample.pathOf) StateManager.empty Sample.captures)).
  apply captureFinal_built. constructor.
Defined.

(** ** The autonomous engine, further *)

#[local] Set Warnings "-clear-no-such-hyp".

Lemma markActionExplored_states sm sid a :
  StateManager.states (StateManager.markActionExplored sm sid a)
  = StateManager.states sm.
Proof.
  unfold StateManager.markActionExplored.
  by destruct (StateManager.exploredActions sm !! sid).
Qed.

Lemma addState_transitions g s :
  StateGraph.transitions (StateGraph.addState g s) = StateGraph.transitions g /\
  StateGraph.entryStateId (StateGraph.addState g s) = StateGraph.entryStateId g.
Proof. unfold StateGraph.addState. by destruct (StateGraph.has g (id s)). Qed.

Lemma addTransition_states g tr :
  StateGraph.states (StateGraph.addTransition g tr) = StateGraph.states g /\
  StateGraph.entryStateId (StateGraph.addTransition g tr)
  = StateGraph.entryStateId g.
Proof. unfold StateGraph.addTransition. by destruct (negb _). Qed.

Lemma addTransition_elem g tr tr' :
  tr' ∈ StateGraph.transitions (StateGraph.addTransition g tr) ->
  tr' ∈ StateGraph.transitions g \/ tr' = tr.
Proof.
  unfold StateGraph.addTransition. destruct (negb _); simpl; [|by left].
  intros Hin. apply elem_of_app in Hin as [Hin|Hin]; [by left|].
  right. by apply list_elem_of_singleton in Hin.
Qed.

Lemma map_set_length l s : length (StateManager.map_set l s) <= S (length l).
Proof.
  induction l as [|x l IH]; simpl; [lia|].
  case_bool_decide; simpl; lia.
Qed.

Lemma captureState_length `{UrlParser} sm page els :
  StateManager.totalStates (StateManager.captureState sm page els).2
  <= S (StateManager.totalStates sm).
Proof.
  unfold StateManager.captureState, StateManager.totalStates.
  destruct (StateManager.findStateByKey _ _); simpl; [lia|].
  apply map_set_length.
Qed.

(** A capture keeps the graph and the manager in step. *)
Lemma capture_sync `{UrlParser} sm g page els :
  sm_ok sm -> StateGraph.states g = StateManager.states sm ->
  let r := StateManager.captureState sm page els in
  StateGraph.states (StateGraph.addState g r.1) = StateManager.states r.2 /\
  id r.1 ∈ map id (StateManager.states r.2) /\
  (forall x, x ∈ map id (StateManager.states sm) ->
             x ∈ map id (StateManager.states r.2)).
Proof.
  intros Hok Hsync. pose proof (sm_ok_wf sm Hok) as Hwf. simpl.
  pose proof (captureState_result_stored sm page els Hwf) as Hstored.
  destruct (captureState_cases sm page els Hwf)
    as [(s & Hf & Hc)|(Hf & s & sm' & Hc & Hid & _ & _ & Hst & _)];
    rewrite Hc in *; simpl in *.
  - assert (Hin : id s ∈ map id (StateManager.states sm))
      by by apply list_elem_of_In, in_map, list_elem_of_In.
    split; [|done].
    unfold StateGraph.addState, StateGraph.has. rewrite Hsync.
    by rewrite bool_decide_eq_true_2.
  - destruct (sm_wf_fresh sm Hwf) as [_ Hfresh]. rewrite <- Hid in Hfresh.
    split; [|split].
    + unfold StateGraph.addState, StateGraph.has. rewrite Hsync.
      rewrite bool_decide_eq_false_2 by done. simpl. by rewrite Hst.
    + by apply list_elem_of_In, in_map, list_elem_of_In.
    + intros x Hx. rewrite Hst, map_app. apply elem_of_app. by left.
Qed.

Section ExplorerMore.
Context `{UrlParser}.
Variable B : Browser.
Variable config : Explorer.Config.

#[local] Abbreviation exploreAction := (Explorer.exploreAction B config).
#[local] Abbreviation loopBody := (Explorer.loopBody B config).
#[local] Abbreviation loopCond := (Explorer.loopCond B config).

Lemma exploreAction_engine_inv (ex : Explorer.t B) item :
  engine_inv B config ex ->
  q_stateId item ∈ map id (StateManager.states (Explorer.stateManager B ex)) ->
  length (q_pathFromRoot item) < Explorer.maxDepth config ->
  engine_inv B config (exploreAction ex item).
Proof.
  intros (Hok & Hsync & Hentry & Htr & Hq) Hsid Hdepth.
  pose proof (markActionExplored_ok _ (q_stateId item) (q_action item) Hok)
    as Hok1.
  pose proof (markActionExplored_states (Explorer.stateManager B ex)
                (q_stateId item) (q_action item)) as Hst1.
  unfold Explorer.exploreAction, Explorer.executeAction,
    Explorer.restoreToState. simpl.
  destruct (performAction B (goto B (Explorer.page B ex)) (q_action item))
    as [ok p]. destruct ok; simpl.
  - rewrite captureCurrentState_spec. simpl.
    set (sm1 := StateManager.markActionExplored _ _ _) in *.
    set (r := StateManager.captureState sm1 (snapshot B p)
                (discoverElements B p)).
    assert (Hsync1 : StateGraph.states (Explorer.stateGraph B ex)
                     = StateManager.states sm1) by by rewrite Hst1.
    destruct (capture_sync sm1 (Explorer.stateGraph B ex) (snapshot B p)
                (discoverElements B p) Hok1 Hsync1) as (Hs & Hnew & Hmono).
    fold r in Hs, Hnew, Hmono.
    assert (Hmono' : forall x,
               x ∈ map id (StateManager.states (Explorer.stateManager B ex)) ->
               x ∈ map id (StateManager.states r.2)).
    { intros x Hx. apply Hmono. by rewrite Hst1. }
    assert (Hbase :
      sm_ok r.2 /\
      StateGraph.states
        (StateGraph.addTransition
           (StateGraph.addState (Explorer.stateGraph B ex) r.1)
           {| t_id := "trans_" +:+
                string_of_nat
                  (length (StateGraph.getTransitions
                             (StateGraph.addState (Explorer.stateGraph B ex) r.1))
                   + 1);
              fromStateId := q_stateId item; toStateId := id r.1;
              action := q_action item |})
      = StateManager.states r.2 /\
      StateGraph.entryStateId
        (StateGraph.addTransition
           (StateGraph.addState (Explorer.stateGraph B ex) r.1)
           {| t_id := "trans_" +:+
                string_of_nat
                  (length (StateGraph.getTransitions
                             (StateGraph.addState (Explorer.stateGraph B ex) r.1))
                   + 1);
              fromStateId := q_stateId item; toStateId := id r.1;
              action := q_action item |})
        ∈ map id (StateManager.states r.2) /\
      (forall tr,
         tr ∈ StateGraph.transitions
                (StateGraph.addTransition
                   (StateGraph.addState (Explorer.stateGraph B ex) r.1)
                   {| t_id := "trans_" +:+
                        string_of_nat
                          (length (StateGraph.getTransitions
                                     (StateGraph.addState
                                        (Explorer.stateGraph B ex) r.1))
                           + 1);
                      fromStateId := q_stateId item; toStateId := id r.1;
                      action := q_action item |}) ->
         fromStateId tr ∈ map id (StateManager.states r.2) /\
         toStateId tr ∈ map id (StateManager.states r.2))).
    { split; [by apply captureState_ok|]. split; [|split].
      - by rewrite (proj1 (addTransition_states _ _)).
      - rewrite (proj2 (addTransition_states _ _)),
          (proj2 (addState_transitions _ _)). by apply Hmono'.
      - intros tr Hin. apply addTransition_elem in Hin as [Hin| ->].
        + rewrite (proj1 (addState_transitions _ _)) in Hin.
          destruct (Htr tr Hin). split; by apply Hmono'.
        + simpl. split; [by apply Hmono'|done]. }
    destruct Hbase as (Hb1 & Hb2 & Hb3 & Hb4).
    assert (Hold : forall it, it ∈ Explorer.explorationQueue B ex ->
      q_stateId it ∈ map id (StateManager.states r.2) /\
      last (q_pathFromRoot it) = Some (q_stateId it) /\
      1 <= length (q_pathFromRoot it) <= Nat.max 1 (Explorer.maxDepth config)).
    { intros it Hin. destruct (Hq it Hin) as (Ha & Hb & Hc).
      split; [by apply Hmono'|done]. }
    case_bool_decide; simpl.
    + exact (conj Hb1 (conj Hb2 (conj Hb3 (conj Hb4 Hold)))).
    + unfold Explorer.queueActionsForState, engine_inv.
      cbn [Explorer.stateManager Explorer.stateGraph
           Explorer.explorationQueue].
      split; [done|]. split; [done|]. split; [done|]. split; [done|].
      intros it Hin. apply elem_of_app in Hin as [Hin|Hin]; [by apply Hold|].
      apply list_elem_of_In, in_map_iff in Hin as (a & <- & _). simpl.
      split; [done|]. split; [by rewrite last_snoc|].
      rewrite length_app. simpl. lia.
  - unfold engine_inv.
    cbn [Explorer.stateManager Explorer.stateGraph Explorer.explorationQueue].
    rewrite Hst1. exact (conj Hok1 (conj Hsync (conj Hentry (conj Htr Hq)))).
Qed.

Lemma loopBody_engine_inv (ex : Explorer.t B) :
  engine_inv B config ex -> engine_inv B config (loopBody ex).
Proof.
  intros Hinv. unfold Explorer.loopBody.
  destruct (Explorer.explorationQueue B ex) as [|item rest] eqn:Eq; [done|].
  assert (Hinv1 : engine_inv B config
            {| Explorer.page := Explorer.page B ex;
               Explorer.stateManager := Explorer.stateManager B ex;
               Explorer.stateGraph := Explorer.stateGraph B ex;
               Explorer.explorationQueue := rest |}).
  { destruct Hinv as (H1 & H2 & H3 & H4 & H5).
    refine (conj H1 (conj H2 (conj H3 (conj H4 _)))).
    cbn [Explorer.explorationQueue Explorer.stateManager].
    intros it Hin. apply H5. rewrite Eq. by right. }
  case_bool_decide as Hd; [done|].
  apply exploreAction_engine_inv; [done| |lia].
  destruct Hinv as (_ & _ & _ & _ & H5). apply H5. rewrite Eq. by left.
Qed.

Lemma start_engine_inv p0 : engine_inv B config (Explorer.start B config p0).
Proof.
  unfold Explorer.start. rewrite captureCurrentState_spec.
  cbn [fst snd Explorer.page Explorer.stateManager Explorer.stateGraph
       Explorer.explorationQueue].
  set (r := StateManager.captureState StateManager.empty _ _).
  destruct (capture_sync StateManager.empty StateGraph.empty
              (snapshot B (goto B p0)) (discoverElements B (goto B p0))
              sm_ok_empty eq_refl) as (Hs & Hnew & _).
  fold r in Hs, Hnew.
  unfold Explorer.queueActionsForState, engine_inv.
  cbn [Explorer.stateManager Explorer.stateGraph Explorer.explorationQueue].
  split; [by apply captureState_ok, sm_ok_empty|].
  split; [done|]. split; [done|]. split.
  - intros tr Htr. unfold StateGraph.setEntryState in Htr.
    cbn [StateGraph.transitions] in Htr.
    rewrite (proj1 (addState_transitions _ _)) in Htr.
    by apply elem_of_nil in Htr.
  - intros it Hin. rewrite app_nil_l in Hin.
    apply list_elem_of_In, in_map_iff in Hin as (a & <- & _).
    cbn [q_stateId q_pathFromRoot]. split; [done|]. split; [done|].
    simpl. lia.
Qed.

Lemma runExploration_engine_inv fuel p0 :
  engine_inv B config (Explorer.runExploration B config fuel p0).
Proof.
  unfold Explorer.runExploration.
  apply while_inv; [intros ex Hex _; by apply loopBody_engine_inv|].
  apply start_engine_inv.
Qed.

Lemma loopBody_states_le (ex : Explorer.t B) :
  StateManager.totalStates (Explorer.stateManager B (loopBody ex))
  <= S (StateManager.totalStates (Explorer.stateManager B ex)).
Proof.
  unfold Explorer.loopBody.
  destruct (Explorer.explorationQueue B ex) as [|item rest]; [lia|].
  case_bool_decide; [simpl; lia|].
  set (ex1 := {| Explorer.page := _ |}).
  change (Explorer.stateManager B ex) with (Explorer.stateManager B ex1).
  destruct (exploreAction_sm B config ex1 item) as [->|(page & els & ->)].
  - unfold StateManager.totalStates. rewrite markActionExplored_states. lia.
  - etrans; [apply captureState_length|].
    unfold StateManager.totalStates. by rewrite markActionExplored_states.
Qed.

Lemma start_states_le p0 :
  StateManager.totalStates
    (Explorer.stateManager B (Explorer.start B config p0)) <= 1.
Proof.
  unfold Explorer.start. rewrite captureCurrentState_spec.
  cbn [fst snd Explorer.page Explorer.stateManager Explorer.stateGraph
       Explorer.explorationQueue].
  unfold Explorer.queueActionsForState. cbn [Explorer.stateManager].
  apply (captureState_length StateManager.empty).
Qed.

End ExplorerMore.

(** X8: the graph of the autonomous engine is closed. In every state
    [runExploration] passes through, the graph holds exactly the states of
    the state manager, in the same order; the entry id names one of them;
    and every recorded transition starts and ends at one of them. *)
Theorem exploration_graph_closed `{UrlParser} (B : Browser)
  (config : Explorer.Config) (fuel : N) (p0 : Page B) :
  let ex := Explorer.runExploration B config fuel p0 in
  let g := Explorer.stateGraph B ex in
  StateGraph.states g = StateManager.states (Explorer.stateManager B ex) /\
  StateGraph.has g (StateGraph.entryStateId g) = true /\
  Forall (fun tr => StateGraph.has g (fromStateId tr) = true /\
                    StateGraph.has g (toStateId tr) = true)
    (StateGraph.transitions g).
Proof.
  simpl. destruct (runExploration_engine_inv B config fuel p0)
    as (_ & Hsync & Hentry & Htr & _).
  unfold StateGraph.has. rewrite Hsync. split; [done|].
  split; [by apply bool_decide_eq_true|].
  apply Forall_forall. intros tr Hin. destruct (Htr tr Hin).
  split; by apply bool_decide_eq_true.
Qed.

(** X9: queued items and the depth limit. In every state [runExploration]
    passes through, each queued item starts from a state the manager knows,
    its path ends at that state, and the path has at least one and at most
    max(1, maxDepth) states. *)
Theorem exploration_queue_depth `{UrlParser} (B : Browser)
  (config : Explorer.Config) (fuel : N) (p0 : Page B) :
  let ex := Explorer.runExploration B config fuel p0 in
  Forall
    (fun item =>
       StateManager.isStateKnown (Explorer.stateManager B ex) (q_stateId item)
         = true /\
       last (q_pathFromRoot item) = Some (q_stateId item) /\
       1 <= length (q_pathFromRoot item)
         <= Nat.max 1 (Explorer.maxDepth config))
    (Explorer.explorationQueue B ex).
Proof.
  simpl. destruct (runExploration_engine_inv B config fuel p0)
    as (_ & _ & _ & _ & Hq).
  apply Forall_forall. intros item Hin. destruct (Hq item Hin) as (Ha & Hb & Hc).
  split; [|done]. by apply bool_decide_eq_true.
Qed.

(** X10: the state limit. [runExploration] never holds more than
    max(1, maxStates) states: the entry state is always captured, and an
    action is executed only while fewer than [maxStates] states are
    known. *)
Theorem exploration_maxStates `{UrlParser} (B : Browser)
  (config : Explorer.Config) (fuel : N) (p0 : Page B) :
  StateManager.totalStates
    (Explorer.stateManager B (Explorer.runExploration B config fuel p0))
  <= Nat.max 1 (Explorer.maxStates config).
Proof.
  unfold Explorer.runExploration.
  apply (while_inv (Explorer.loopCond B config) (Explorer.loopBody B config)
           (fun ex => StateManager.totalStates (Explorer.stateManager B ex)
                      <= Nat.max 1 (Explorer.maxStates config))).
  - intros ex _ Hc. unfold Explorer.loopCond in Hc.
    apply andb_true_iff in Hc as [_ Hc].
    apply negb_true_iff, bool_decide_eq_false in Hc.
    pose proof (loopBody_states_le B config ex). lia.
  - pose proof (start_states_le B config p0). lia.
Qed.

(** X11: with [maxDepth] at most 1 nothing is explored. Every item the entry
    state queues has a path of length 1, which the depth test already
    rejects: whatever the number of iterations, the manager and the graph
    are those built before the loop and no transition is recorded. *)
Theorem exploration_maxDepth_one `{UrlParser} (B : Browser)
  (config : Explorer.Config) (fuel : N) (p0 : Page B) :
  Explorer.maxDepth config <= 1 ->
  let ex := Explorer.runExploration B config fuel p0 in
  Explorer.stateManager B ex
    = Explorer.stateManager B (Explorer.start B config p0) /\
  Explorer.stateGraph B ex
    = Explorer.stateGraph B (Explorer.start B config p0) /\
  StateGraph.transitions (Explorer.stateGraph B ex) = [].
Proof.
  intros Hd. simpl.
  assert (Hinv :
    engine_inv B config (Explorer.runExploration B config fuel p0) /\
    Explorer.stateManager B (Explorer.runExploration B config fuel p0)
      = Explorer.stateManager B (Explorer.start B config p0) /\
    Explorer.stateGraph B (Explorer.runExploration B config fuel p0)
      = Explorer.stateGraph B (Explorer.start B config p0)).
  { unfold Explorer.runExploration.
    apply (while_inv (Explorer.loopCond B config) (Explorer.loopBody B config)
             (fun ex => engine_inv B config ex /\
                Explorer.stateManager B ex
                  = Explorer.stateManager B (Explorer.start B config p0) /\
                Explorer.stateGraph B ex
                  = Explorer.stateGraph B (Explorer.start B config p0))).
    - intros ex (Hi & Hsm & Hg) _.
      split; [by apply loopBody_engine_inv|].
      unfold Explorer.loopBody.
      destruct (Explorer.explorationQueue B ex) as [|item rest] eqn:Eq;
        [done|].
      destruct Hi as (_ & _ & _ & _ & Hq).
      destruct (Hq item) as (_ & _ & Hlen); [rewrite Eq; by left|].
      rewrite bool_decide_eq_true_2 by lia. done.
    - split; [apply start_engine_inv|done]. }
  destruct Hinv as (_ & Hsm & Hg). split; [done|]. split; [done|].
  rewrite Hg. unfold Explorer.start. rewrite captureCurrentState_spec.
  cbn [fst snd Explorer.page Explorer.stateManager Explorer.stateGraph
       Explorer.explorationQueue].
  unfold Explorer.queueActionsForState, StateGraph.setEntryState.
  cbn [Explorer.stateGraph StateGraph.transitions].
  by rewrite (proj1 (addState_transitions _ _)).
Qed.

Lemma exploration_maxDepth_one_witness :
  let cfg := {| Explorer.maxStates := 100; Explorer.maxDepth := 1;
                Explorer.inputValues := ∅ |} in
  let ex := Explorer.runExploration (H := Sample.pathOf) Sample.twoDoors cfg
              10 0%nat in
  Explorer.stateManager Sample.twoDoors ex
    = Explorer.stateManager Sample.twoDoors
        (Explorer.start (H := Sample.pathOf) Sample.twoDoors cfg 0%nat) /\
  Explorer.stateGraph Sample.twoDoors ex
    = Explorer.stateGraph Sample.twoDoors
        (Explorer.start (H := Sample.pathOf) Sample.twoDoors cfg 0%nat) /\
  StateGraph.transitions (Explorer.stateGraph Sample.twoDoors ex) = [].
Proof.
  apply (exploration_maxDepth_one (H := Sample.pathOf) Sample.twoDoors
           {| Explorer.maxStates := 100; Explorer.maxDepth := 1;
              Explorer.inputValues := ∅ |} 10 0%nat).
  simpl. lia.
Defined.

(** With [maxDepth] 2 the same engine does explore: the two doors are
    recorded. *)
Example exploration_maxDepth_two :
  length
    (StateGraph.transitions
       (Explorer.stateGraph Sample.twoDoors
          (Explorer.runExploration (H := Sample.pathOf) Sample.twoDoors
             {| Explorer.maxStates := 100; Explorer.maxDepth := 2;
                Explorer.inputValues := ∅ |} 10 0%nat))) = 2.
Proof. vm_compute. reflexivity. Qed.

(** ** The interactive controller, further *)

#[local] Set Warnings "-clear-no-such-hyp".

Section InteractiveMore.
Context `{UrlParser}.
Variable B : Browser.
Variable inputValues : gmap string string.

#[local] Abbreviation IE := (InteractiveExplorer.t B).
#[local] Abbreviation smOf := (InteractiveExplorer.stateManager B).
#[local] Abbreviation graphOf := (InteractiveExplorer.stateGraph B).

(** What a successful [executeAction] leaves, field by field. *)
Lemma executeAction_success (ex : IE) actionId item p :
  InteractiveExplorer.executionLock B ex = false ->
  InteractiveExplorer.page B ex = Some p ->
  List.find (fun a => bool_decide (av_id a = actionId))
    (InteractiveExplorer.getAvailableActions B inputValues ex) = Some item ->
  (performAction B p (av_action item)).1 = true ->
  let a := av_action item in
  let previous := InteractiveExplorer.currentStateId B ex in
  let p' := (performAction B p a).2 in
  let r := StateManager.captureState
             (StateManager.markActionExplored (smOf ex) previous a)
             (snapshot B p') (discoverElements B p') in
  let g1 := StateGraph.addState (graphOf ex) r.1 in
  let tr := {| t_id := "trans_" +:+
                 string_of_nat (length (StateGraph.getTransitions g1) + 1);
               fromStateId := previous; toStateId := id r.1; action := a |} in
  let res := InteractiveExplorer.executeAction B inputValues ex actionId in
  (exists isNew,
     res.1 = Ok {| success := true; previousStateId := previous;
                   newStateId := id r.1; isNewState := isNew;
                   error := None |}) /\
  InteractiveExplorer.page B res.2 = Some p' /\
  smOf res.2 = r.2 /\
  graphOf res.2 = StateGraph.addTransition g1 tr /\
  InteractiveExplorer.currentStateId B res.2 = id r.1 /\
  InteractiveExplorer.entryStateId B res.2
    = InteractiveExplorer.entryStateId B ex /\
  InteractiveExplorer.pathFromRoot B res.2
    = (if bool_decide (id r.1 = previous)
       then InteractiveExplorer.pathFromRoot B ex
       else InteractiveExplorer.pathFromRoot B ex ++ [id r.1]) /\
  InteractiveExplorer.skippedActions B res.2
    = InteractiveExplorer.skippedActions B ex /\
  InteractiveExplorer.explorationHistory B res.2
    = InteractiveExplorer.explorationHistory B ex ++
      [{| step_timestamp := snap_now (snapshot B p');
          step_fromStateId := previous; step_toStateId := id r.1;
          step_action := a |}] /\
  InteractiveExplorer.executionLock B res.2 = false.
Proof.
  intros Hlock Hp Hf Hok. simpl.
  unfold InteractiveExplorer.executeAction. rewrite Hlock, Hp.
  change (InteractiveExplorer.getAvailableActions B inputValues
            (InteractiveExplorer.setLock B true ex))
    with (InteractiveExplorer.getAvailableActions B inputValues ex).
  rewrite Hf. unfold InteractiveExplorer.executeActionInternal.
  destruct (performAction B p (av_action item)) as [ok p'].
  simpl in Hok. subst ok. simpl.
  rewrite interactive_capture_spec. simpl.
  match goal with |- context [if ?b then _ else _] => destruct b eqn:Enew end;
    simpl; (split; [by eexists|]); repeat split; try done;
    by case_bool_decide.
Qed.

(** What [jumpToState] leaves after a replay. *)
Lemma jumpToState_replayed (ex : IE) target p ts sp rest :
  InteractiveExplorer.executionLock B ex = false ->
  InteractiveExplorer.page B ex = Some p ->
  StateGraph.getState (graphOf ex) target = Some ts ->
  target <> InteractiveExplorer.entryStateId B ex ->
  InteractiveExplorer.findPathsTo B ex target
    InteractiveExplorer.defaultMaxPaths = sp :: rest ->
  let p' := InteractiveExplorer.replay B (graphOf ex) (goto B p) sp in
  let r := StateManager.captureState (smOf ex) (snapshot B p')
             (discoverElements B p') in
  let res := InteractiveExplorer.jumpToState B ex target in
  InteractiveExplorer.page B res.2 = Some p' /\
  smOf res.2 = r.2 /\
  graphOf res.2 = StateGraph.addState (graphOf ex) r.1 /\
  InteractiveExplorer.currentStateId B res.2 = id r.1 /\
  InteractiveExplorer.entryStateId B res.2
    = InteractiveExplorer.entryStateId B ex /\
  InteractiveExplorer.pathFromRoot B res.2 = sp /\
  InteractiveExplorer.skippedActions B res.2
    = InteractiveExplorer.skippedActions B ex /\
  InteractiveExplorer.explorationHistory B res.2
    = InteractiveExplorer.explorationHistory B ex /\
  InteractiveExplorer.executionLock B res.2 = false.
Proof.
  intros Hlock Hp Hknown Hne Hpaths. simpl.
  unfold InteractiveExplorer.jumpToState. rewrite Hlock, Hp, Hknown.
  rewrite bool_decide_eq_false_2 by done.
  change (InteractiveExplorer.findPathsTo B
            (InteractiveExplorer.setLock B true ex) target
            InteractiveExplorer.defaultMaxPaths)
    with (InteractiveExplorer.findPathsTo B ex target
            InteractiveExplorer.defaultMaxPaths).
  rewrite Hpaths. rewrite interactive_capture_spec. simpl. done.
Qed.

(** What [jumpToState] leaves when the target is the entry state. *)
Lemma jumpToState_entry (ex : IE) p es :
  InteractiveExplorer.executionLock B ex = false ->
  InteractiveExplorer.page B ex = Some p ->
  StateGraph.getState (graphOf ex) (InteractiveExplorer.entryStateId B ex)
    = Some es ->
  InteractiveExplorer.jumpToState B ex (InteractiveExplorer.entryStateId B ex)
  = (Ok {| currentState :=
             StateManager.getState (smOf ex)
               (InteractiveExplorer.entryStateId B ex);
           availableActions := [];
           payload_pathFromRoot := [InteractiveExplorer.entryStateId B ex] |},
     InteractiveExplorer.setCursor B (InteractiveExplorer.entryStateId B ex)
       [InteractiveExplorer.entryStateId B ex]
       (InteractiveExplorer.setPage B (goto B p) ex)).
Proof.
  intros Hlock Hp Hknown.
  unfold InteractiveExplorer.jumpToState. rewrite Hlock, Hp, Hknown.
  cbn [InteractiveExplorer.setLock InteractiveExplorer.entryStateId].
  rewrite bool_decide_eq_true_2 by done.
  f_equal. destruct ex. simpl in *. by subst.
Qed.

Lemma executeAction_lock (ex : IE) actionId :
  InteractiveExplorer.executionLock B
    (InteractiveExplorer.executeAction B inputValues ex actionId).2
  = InteractiveExplorer.executionLock B ex.
Proof.
  unfold InteractiveExplorer.executeAction.
  destruct (InteractiveExplorer.executionLock B ex) eqn:El; [done|].
  destruct (InteractiveExplorer.page B ex) as [p|]; [|done].
  destruct (List.find _ _) as [item|]; [|done].
  unfold InteractiveExplorer.executeActionInternal.
  destruct (performAction B p (av_action item)) as [ok p'].
  destruct ok; simpl; [|done].
  rewrite interactive_capture_spec. simpl. done.
Qed.

Lemma jumpToState_lock (ex : IE) target :
  InteractiveExplorer.executionLock B
    (InteractiveExplorer.jumpToState B ex target).2
  = InteractiveExplorer.executionLock B ex.
Proof.
  unfold InteractiveExplorer.jumpToState.
  destruct (InteractiveExplorer.executionLock B ex) eqn:El; [done|].
  destruct (InteractiveExplorer.page B ex) as [p|]; [|done].
  destruct (StateGraph.getState _ _); [|done].
  case_bool_decide; [done|].
  destruct (InteractiveExplorer.findPathsTo B _ _ _) as [|sp l]; [done|].
  rewrite interactive_capture_spec. done.
Qed.

Lemma runCommand_lock (ex : IE) c :
  InteractiveExplorer.executionLock B (runCommand B inputValues ex c)
  = InteractiveExplorer.executionLock B ex.
Proof.
  destruct c; simpl.
  - apply executeAction_lock.
  - apply jumpToState_lock.
  - apply jumpToState_lock.
  - done.
  - unfold InteractiveExplorer.unskipAction. by destruct (_ !! _).
Qed.

Lemma executeAction_not_found (ex : IE) actionId p :
  InteractiveExplorer.executionLock B ex = false ->
  InteractiveExplorer.page B ex = Some p ->
  List.find (fun a => bool_decide (av_id a = actionId))
    (InteractiveExplorer.getAvailableActions B inputValues ex) = None ->
  InteractiveExplorer.executeAction B inputValues ex actionId
  = (Ok {| success := false;
           previousStateId := InteractiveExplorer.currentStateId B ex;
           newStateId := InteractiveExplorer.currentStateId B ex;
           isNewState := false;
           error := Some ("Action not found: " +:+ actionId) |}, ex).
Proof.
  intros Hlock Hp Hf. unfold InteractiveExplorer.executeAction.
  rewrite Hlock, Hp.
  change (InteractiveExplorer.getAvailableActions B inputValues
            (InteractiveExplorer.setLock B true ex))
    with (InteractiveExplorer.getAvailableActions B inputValues ex).
  rewrite Hf. unfold InteractiveExplorer.failure.
  by rewrite setLock_unlocked.
Qed.

(** The three ways [executeAction] can go. *)
Lemma executeAction_cases (ex : IE) actionId :
  (InteractiveExplorer.executeAction B inputValues ex actionId).2 = ex \/
  (exists p item,
     InteractiveExplorer.executionLock B ex = false /\
     InteractiveExplorer.page B ex = Some p /\
     List.find (fun a => bool_decide (av_id a = actionId))
       (InteractiveExplorer.getAvailableActions B inputValues ex) = Some item /\
     (performAction B p (av_action item)).1 = false) \/
  (exists p item,
     InteractiveExplorer.executionLock B ex = false /\
     InteractiveExplorer.page B ex = Some p /\
     List.find (fun a => bool_decide (av_id a = actionId))
       (InteractiveExplorer.getAvailableActions B inputValues ex) = Some item /\
     (performAction B p (av_action item)).1 = true).
Proof.
  destruct (InteractiveExplorer.executionLock B ex) eqn:El.
  { left. unfold InteractiveExplorer.executeAction. by rewrite El. }
  destruct (InteractiveExplorer.page B ex) as [p|] eqn:Ep.
  2:{ left. unfold InteractiveExplorer.executeAction. by rewrite El, Ep. }
  destruct (List.find (fun a => bool_decide (av_id a = actionId))
              (InteractiveExplorer.getAvailableActions B inputValues ex))
    as [item|] eqn:Ef.
  2:{ left. by rewrite (executeAction_not_found ex actionId p El Ep Ef). }
  destruct (performAction B p (av_action item)).1 eqn:Eok.
  - right. right. by exists p, item.
  - right. left. by exists p, item.
Qed.

(** The three ways [jumpToState] can go. *)
Lemma jumpToState_cases (ex : IE) target :
  (InteractiveExplorer.jumpToState B ex target).2 = ex \/
  (exists p es,
     InteractiveExplorer.executionLock B ex = false /\
     InteractiveExplorer.page B ex = Some p /\
     target = InteractiveExplorer.entryStateId B ex /\
     StateGraph.getState (graphOf ex) (InteractiveExplorer.entryStateId B ex)
       = Some es) \/
  (exists p ts sp rest,
     InteractiveExplorer.executionLock B ex = false /\
     InteractiveExplorer.page B ex = Some p /\
     StateGraph.getState (graphOf ex) target = Some ts /\
     target <> InteractiveExplorer.entryStateId B ex /\
     InteractiveExplorer.findPathsTo B ex target
       InteractiveExplorer.defaultMaxPaths = sp :: rest).
Proof.
  destruct (InteractiveExplorer.executionLock B ex) eqn:El.
  { left. unfold InteractiveExplorer.jumpToState. by rewrite El. }
  destruct (InteractiveExplorer.page B ex) as [p|] eqn:Ep.
  2:{ left. unfold InteractiveExplorer.jumpToState. by rewrite El, Ep. }
  destruct (StateGraph.getState (graphOf ex) target) as [ts|] eqn:Eg.
  2:{ left. unfold InteractiveExplorer.jumpToState. by rewrite El, Ep, Eg. }
  destruct (decide (target = InteractiveExplorer.entryStateId B ex))
    as [->|Hne].
  { right. left. by exists p, ts. }
  destruct (InteractiveExplorer.findPathsTo B ex target
              InteractiveExplorer.defaultMaxPaths) as [|sp rest] eqn:Epaths.
  - left. unfold InteractiveExplorer.jumpToState. rewrite El, Ep, Eg.
    rewrite bool_decide_eq_false_2 by done.
    change (InteractiveExplorer.findPathsTo B
              (InteractiveExplorer.setLock B true ex) target
              InteractiveExplorer.defaultMaxPaths)
      with (InteractiveExplorer.findPathsTo B ex target
              InteractiveExplorer.defaultMaxPaths).
    rewrite Epaths. simpl. by apply setLock_unlocked.
  - right. right. by exists p, ts, sp, rest.
Qed.

Lemma getState_known sm sid :
  sid ∈ map id (StateManager.states sm) ->
  is_Some (StateManager.getState sm sid).
Proof.
  intros Hin. unfold StateManager.getState.
  destruct (List.find _ _) as [s|] eqn:Ef; [by eexists|].
  apply list_elem_of_In, in_map_iff in Hin as (s & Hid & Hs).
  pose proof (find_none _ _ Ef s Hs) as Hb. simpl in Hb.
  by apply bool_decide_eq_false in Hb.
Qed.

Lemma executeAction_controller_inv (ex : IE) actionId :
  controller_inv B ex ->
  controller_inv B (InteractiveExplorer.executeAction B inputValues ex actionId).2.
Proof.
  intros Hinv.
  destruct (executeAction_cases ex actionId)
    as [->|[(p & item & Hl & Hp & Hf & Hok)|(p & item & Hl & Hp & Hf & Hok)]];
    [done| |].
  - rewrite (executeAction_failed B inputValues ex actionId item p Hl Hp Hf Hok).
    destruct Hinv as (H1 & H2 & H3 & H4 & H5 & H6 & H7 & H8 & H9).
    unfold controller_inv. simpl.
    rewrite markActionExplored_states.
    refine (conj _ (conj H2 (conj H3 (conj H4 (conj H5 (conj H6
             (conj H7 (conj _ H9)))))))).
    + by apply markActionExplored_ok.
    + by eexists.
  - destruct (executeAction_success ex actionId item p Hl Hp Hf Hok)
      as (_ & Ep & Esm & Eg & Ecur & Eentry & Epath & _ & _ & Elock).
    destruct Hinv as (H1 & H2 & H3 & H4 & H5 & H6 & H7 & H8 & H9).
    set (sm1 := StateManager.markActionExplored (smOf ex)
                  (InteractiveExplorer.currentStateId B ex) (av_action item))
      in *.
    set (p' := (performAction B p (av_action item)).2) in *.
    set (r := StateManager.captureState sm1 (snapshot B p')
                (discoverElements B p')) in *.
    assert (Hok1 : sm_ok sm1) by by apply markActionExplored_ok.
    assert (Hst1 : StateManager.states sm1 = StateManager.states (smOf ex))
      by apply markActionExplored_states.
    assert (Hsync1 : StateGraph.states (graphOf ex) = StateManager.states sm1)
      by by rewrite Hst1.
    destruct (capture_sync sm1 (graphOf ex) (snapshot B p')
                (discoverElements B p') Hok1 Hsync1) as (Hs & Hnew & Hmono).
    fold r in Hs, Hnew, Hmono. rewrite Hst1 in Hmono.
    unfold controller_inv. cbv zeta.
    rewrite Ep, Esm, Eg, Ecur, Eentry, Epath, Elock.
    rewrite (proj1 (addTransition_states _ _)),
      (proj2 (addTransition_states _ _)), (proj2 (addState_transitions _ _)).
    split; [by apply captureState_ok|]. split; [done|]. split; [done|].
    split; [by apply Hmono|]. split; [done|]. split.
    { case_bool_decide; [done|].
      destruct (InteractiveExplorer.pathFromRoot B ex); [done|done]. }
    split; [|split; [by eexists|done]].
    intros tr Hin. apply addTransition_elem in Hin as [Hin| ->].
    + rewrite (proj1 (addState_transitions _ _)) in Hin.
      destruct (H7 tr Hin). split; by apply Hmono.
    + simpl. split; [by apply Hmono|done].
Qed.

Lemma jumpToState_controller_inv (ex : IE) target :
  controller_inv B ex ->
  controller_inv B (InteractiveExplorer.jumpToState B ex target).2.
Proof.
  intros Hinv.
  destruct (jumpToState_cases ex target)
    as [->|[(p & es & Hl & Hp & -> & Hg)
           |(p & ts & sp & rest & Hl & Hp & Hg & Hne & Hpaths)]]; [done| |].
  - rewrite (jumpToState_entry ex p es Hl Hp Hg).
    destruct Hinv as (H1 & H2 & H3 & H4 & H5 & H6 & H7 & H8 & H9).
    unfold controller_inv. simpl.
    refine (conj H1 (conj H2 (conj H3 (conj H4 (conj H4 (conj eq_refl
             (conj H7 (conj _ H9)))))))).
    by eexists.
  - destruct (jumpToState_replayed ex target p ts sp rest Hl Hp Hg Hne Hpaths)
      as (Ep & Esm & Egr & Ecur & Eentry & Epath & _ & _ & Elock).
    destruct Hinv as (H1 & H2 & H3 & H4 & H5 & H6 & H7 & H8 & H9).
    set (p' := InteractiveExplorer.replay B (graphOf ex) (goto B p) sp) in *.
    set (r := StateManager.captureState (smOf ex) (snapshot B p')
                (discoverElements B p')) in *.
    destruct (capture_sync (smOf ex) (graphOf ex) (snapshot B p')
                (discoverElements B p') H1 H2) as (Hs & Hnew & Hmono).
    fold r in Hs, Hnew, Hmono.
    unfold controller_inv. cbv zeta.
    rewrite Ep, Esm, Egr, Ecur, Eentry, Epath, Elock.
    rewrite (proj2 (addState_transitions _ _)),
      (proj1 (addState_transitions _ _)).
    split; [by apply captureState_ok|]. split; [done|]. split; [done|].
    split; [by apply Hmono|]. split; [done|]. split.
    { assert (Hin : sp ∈ InteractiveExplorer.findPathsTo B ex target
                          InteractiveExplorer.defaultMaxPaths)
        by (rewrite Hpaths; by left).
      apply findPaths_good in Hin as ((_ & Hh & _) & _). done. }
    split; [|split; [by eexists|done]].
    intros tr Hin. destruct (H7 tr Hin). split; by apply Hmono.
Qed.

Lemma runCommand_controller_inv (ex : IE) c :
  controller_inv B ex -> controller_inv B (runCommand B inputValues ex c).
Proof.
  intros Hinv. destruct c; simpl.
  - by apply executeAction_controller_inv.
  - by apply jumpToState_controller_inv.
  - by apply jumpToState_controller_inv.
  - done.
  - unfold InteractiveExplorer.unskipAction. by destruct (_ !! _).
Qed.

Lemma init_controller_inv p0 :
  controller_inv B (InteractiveExplorer.init B p0 (InteractiveExplorer.new B)).2.
Proof.
  unfold InteractiveExplorer.init. rewrite interactive_capture_spec.
  cbn [fst snd].
  destruct (capture_sync StateManager.empty StateGraph.empty
              (snapshot B (goto B p0)) (discoverElements B (goto B p0))
              sm_ok_empty eq_refl) as (Hs & Hnew & _).
  unfold controller_inv.
  cbn [InteractiveExplorer.setCursor InteractiveExplorer.setEntry
       InteractiveExplorer.setStateGraph InteractiveExplorer.setStateManager
       InteractiveExplorer.setPage InteractiveExplorer.new
       StateGraph.setEntryState
       InteractiveExplorer.page InteractiveExplorer.stateManager
       InteractiveExplorer.stateGraph InteractiveExplorer.currentStateId
       InteractiveExplorer.entryStateId InteractiveExplorer.pathFromRoot
       InteractiveExplorer.executionLock StateGraph.states
       StateGraph.transitions StateGraph.entryStateId head].
  split; [by apply captureState_ok, sm_ok_empty|].
  split; [done|]. split; [done|]. split; [done|]. split; [done|].
  split; [done|]. split; [|split; [by eexists|done]].
  intros tr Htr. rewrite (proj1 (addState_transitions _ _)) in Htr.
  by apply elem_of_nil in Htr.
Qed.

Lemma controllerAfter_inv p0 cs :
  controller_inv B (controllerAfter B inputValues p0 cs).
Proof.
  unfold controllerAfter.
  generalize (init_controller_inv p0).
  generalize (InteractiveExplorer.init B p0 (InteractiveExplorer.new B)).2.
  induction cs as [|c cs IH]; intros ex Hinv; [done|].
  apply IH. by apply runCommand_controller_inv.
Qed.

Lemma flat_map_map_gen {A C D} (gen : A -> list C) (f : C -> D) (l : list A) :
  flat_map (fun e => map f (gen e)) l = map f (flat_map gen l).
Proof.
  induction l as [|e l IH]; simpl; [done|]. by rewrite IH, map_app.
Qed.

Lemma find_map_congr {C D E} (f1 f2 : C -> D) (p : D -> bool) (h : D -> E)
  (l : list C) :
  (forall a, p (f1 a) = p (f2 a)) -> (forall a, h (f1 a) = h (f2 a)) ->
  option_map h (List.find p (map f1 l)) = option_map h (List.find p (map f2 l)).
Proof.
  intros Hp Hh. induction l as [|a l IH]; simpl; [done|].
  rewrite <- Hp. destruct (p (f1 a)); simpl; [by rewrite Hh|done].
Qed.

(** The action an id resolves to does not depend on the skip set. *)
Lemma available_find_skip (ex : IE) sk actionId :
  option_map av_action
    (List.find (fun a => bool_decide (av_id a = actionId))
       (InteractiveExplorer.getAvailableActions B inputValues
          (InteractiveExplorer.setSkipped B sk ex)))
  = option_map av_action
      (List.find (fun a => bool_decide (av_id a = actionId))
         (InteractiveExplorer.getAvailableActions B inputValues ex)).
Proof.
  unfold InteractiveExplorer.getAvailableActions.
  change (InteractiveExplorer.getCurrentState B
            (InteractiveExplorer.setSkipped B sk ex))
    with (InteractiveExplorer.getCurrentState B ex).
  destruct (InteractiveExplorer.getCurrentState B ex) as [cs|]; [|done].
  rewrite !(flat_map_map_gen
              (ActionDiscovery.generateActionsForElement inputValues)).
  by apply find_map_congr.
Qed.

Lemma executeAction_setSkipped (ex : IE) sk actionId :
  InteractiveExplorer.executeAction B inputValues
    (InteractiveExplorer.setSkipped B sk ex) actionId
  = ((InteractiveExplorer.executeAction B inputValues ex actionId).1,
     InteractiveExplorer.setSkipped B sk
       (InteractiveExplorer.executeAction B inputValues ex actionId).2).
Proof.
  pose proof (available_find_skip ex sk actionId) as Hfind.
  unfold InteractiveExplorer.executeAction.
  change (InteractiveExplorer.executionLock B
            (InteractiveExplorer.setSkipped B sk ex))
    with (InteractiveExplorer.executionLock B ex).
  change (InteractiveExplorer.page B (InteractiveExplorer.setSkipped B sk ex))
    with (InteractiveExplorer.page B ex).
  destruct (InteractiveExplorer.executionLock B ex); [done|].
  destruct (InteractiveExplorer.page B ex) as [p|]; [|done].
  change (InteractiveExplorer.getAvailableActions B inputValues
            (InteractiveExplorer.setLock B true
               (InteractiveExplorer.setSkipped B sk ex)))
    with (InteractiveExplorer.getAvailableActions B inputValues
            (InteractiveExplorer.setSkipped B sk ex)).
  change (InteractiveExplorer.getAvailableActions B inputValues
            (InteractiveExplorer.setLock B true ex))
    with (InteractiveExplorer.getAvailableActions B inputValues ex).
  destruct (List.find _ (InteractiveExplorer.getAvailableActions B inputValues
                            (InteractiveExplorer.setSkipped B sk ex)))
    as [item1|];
    destruct (List.find _ (InteractiveExplorer.getAvailableActions B
                              inputValues ex)) as [item|];
    simpl in Hfind; try done.
  injection Hfind as Ha. rewrite Ha.
  unfold InteractiveExplorer.executeActionInternal.
  destruct (performAction B p (av_action item)) as [ok p'].
  destruct ok; [|done].
  cbn [negb]. cbv iota.
  rewrite !interactive_capture_spec.
  cbn [InteractiveExplorer.setSkipped InteractiveExplorer.setPage
       InteractiveExplorer.setStateManager InteractiveExplorer.setStateGraph
       InteractiveExplorer.setLock InteractiveExplorer.setCursor
       InteractiveExplorer.pushHistory InteractiveExplorer.emit
       InteractiveExplorer.buildStateUpdatePayload
       InteractiveExplorer.getCurrentState
       InteractiveExplorer.page InteractiveExplorer.stateManager
       InteractiveExplorer.stateGraph InteractiveExplorer.currentStateId
       InteractiveExplorer.entryStateId InteractiveExplorer.pathFromRoot
       InteractiveExplorer.skippedActions
       InteractiveExplorer.explorationHistory
       InteractiveExplorer.executionLock InteractiveExplorer.emitted
       fst snd].
  repeat match goal with |- context [if ?b then _ else _] => destruct b end;
    reflexivity.
Qed.

Lemma executeAction_skippedActions (ex : IE) actionId :
  InteractiveExplorer.skippedActions B
    (InteractiveExplorer.executeAction B inputValues ex actionId).2
  = InteractiveExplorer.skippedActions B ex.
Proof.
  destruct (executeAction_cases ex actionId)
    as [->|[(p & item & Hl & Hp & Hf & Hok)|(p & item & Hl & Hp & Hf & Hok)]];
    [done| |].
  - by rewrite (executeAction_failed B inputValues ex actionId item p Hl Hp Hf Hok).
  - by destruct (executeAction_success ex actionId item p Hl Hp Hf Hok)
      as (_ & _ & _ & _ & _ & _ & _ & Hs & _).
Qed.

(** History and transitions from [ex] to [ex']: both only grow at the end,
    the transitions by no more than the history. *)
Lemma runCommand_append (ex : IE) c :
  let ex' := runCommand B inputValues ex c in
  InteractiveExplorer.explorationHistory B ex
    `prefix_of` InteractiveExplorer.explorationHistory B ex' /\
  StateGraph.transitions (graphOf ex)
    `prefix_of` StateGraph.transitions (graphOf ex') /\
  length (StateGraph.transitions (graphOf ex'))
    + length (InteractiveExplorer.explorationHistory B ex)
  <= length (StateGraph.transitions (graphOf ex))
     + length (InteractiveExplorer.explorationHistory B ex').
Proof.
  assert (Hsame : forall ex' : IE,
    InteractiveExplorer.explorationHistory B ex'
      = InteractiveExplorer.explorationHistory B ex ->
    StateGraph.transitions (graphOf ex') = StateGraph.transitions (graphOf ex) ->
    InteractiveExplorer.explorationHistory B ex
      `prefix_of` InteractiveExplorer.explorationHistory B ex' /\
    StateGraph.transitions (graphOf ex)
      `prefix_of` StateGraph.transitions (graphOf ex') /\
    length (StateGraph.transitions (graphOf ex'))
      + length (InteractiveExplorer.explorationHistory B ex)
    <= length (StateGraph.transitions (graphOf ex))
       + length (InteractiveExplorer.explorationHistory B ex')).
  { intros ex' -> ->. split; [done|]. split; [done|lia]. }
  assert (Hjump : forall target,
    let ex' := (InteractiveExplorer.jumpToState B ex target).2 in
    InteractiveExplorer.explorationHistory B ex'
      = InteractiveExplorer.explorationHistory B ex /\
    StateGraph.transitions (graphOf ex') = StateGraph.transitions (graphOf ex)).
  { intros target. simpl.
    destruct (jumpToState_cases ex target)
      as [->|[(p & es & Hl & Hp & -> & Hg)
             |(p & ts & sp & rest & Hl & Hp & Hg & Hne & Hpaths)]]; [done| |].
    - by rewrite (jumpToState_entry ex p es Hl Hp Hg).
    - destruct (jumpToState_replayed ex target p ts sp rest Hl Hp Hg Hne Hpaths)
        as (_ & _ & Egr & _ & _ & _ & _ & Eh & _).
      rewrite Eh, Egr. split; [done|]. apply addState_transitions. }
  destruct c as [actionId|target| |sid key|sid key]; simpl.
  - destruct (executeAction_cases ex actionId)
      as [->|[(p & item & Hl & Hp & Hf & Hok)|(p & item & Hl & Hp & Hf & Hok)]].
    + by apply Hsame.
    + rewrite (executeAction_failed B inputValues ex actionId item p Hl Hp Hf Hok).
      by apply Hsame.
    + destruct (executeAction_success ex actionId item p Hl Hp Hf Hok)
        as (_ & _ & _ & Eg & _ & _ & _ & _ & Eh & _).
      rewrite Eh, Eg. split; [by apply prefix_app_r|].
      unfold StateGraph.addTransition. rewrite length_app.
      destruct (negb _); simpl; rewrite (proj1 (addState_transitions _ _)).
      * split; [by apply prefix_app_r|]. rewrite length_app. simpl. lia.
      * split; [done|lia].
  - apply Hsame; apply Hjump.
  - apply Hsame; apply Hjump.
  - by apply Hsame.
  - unfold InteractiveExplorer.unskipAction. destruct (_ !! _); by apply Hsame.
Qed.

End InteractiveMore.

(** X12: the lock is always released. Whatever a command does (succeed,
    fail, or throw), the mutation lock after it is what it was before it;
    so a controller whose lock is free stays free after any sequence of
    commands. *)
Theorem commands_release_lock `{UrlParser} (B : Browser)
  (inputValues : gmap string string) (ex : InteractiveExplorer.t B)
  (cs : list Command) :
  InteractiveExplorer.executionLock B (runCommands B inputValues ex cs)
  = InteractiveExplorer.executionLock B ex.
Proof.
  revert ex. induction cs as [|c cs IH]; intros ex; [done|].
  change (runCommands B inputValues ex (c :: cs))
    with (runCommands B inputValues (runCommand B inputValues ex c) cs).
  rewrite IH. apply runCommand_lock.
Qed.


(** X14: an unknown action id. With the lock free and the browser
    initialised, [executeAction] with an id that is not among the actions
    offered for the current state returns a failure result carrying
    "Action not found: <id>" and leaves the controller as it was. *)
Theorem executeAction_unknown_action `{UrlParser} (B : Browser)
  (inputValues : gmap string string) (ex : InteractiveExplorer.t B)
  (actionId : string) (p : Page B) :
  InteractiveExplorer.executionLock B ex = false ->
  InteractiveExplorer.page B ex = Some p ->
  List.find (fun a => bool_decide (av_id a = actionId))
    (InteractiveExplorer.getAvailableActions B inputValues ex) = None ->
  InteractiveExplorer.executeAction B inputValues ex actionId
  = (Ok {| success := false;
           previousStateId := InteractiveExplorer.currentStateId B ex;
           newStateId := InteractiveExplorer.currentStateId B ex;
           isNewState := false;
           error := Some ("Action not found: " +:+ actionId) |}, ex).
Proof. apply executeAction_not_found. Qed.

(** X15: the skip set. After [skipAction sid key] a pair counts as skipped
    exactly if it did before or is [(sid, key)]; after [unskipAction sid
    key] exactly if it did before and is not [(sid, key)]. *)
Theorem skip_unskip_query (B : Browser) (ex : InteractiveExplorer.t B)
  (sid key sid' key' : string) :
  InteractiveExplorer.isActionSkipped B
    (InteractiveExplorer.skipAction B ex sid key) sid' key'
  = InteractiveExplorer.isActionSkipped B ex sid' key'
    || (bool_decide (sid' = sid) && bool_decide (key' = key)) /\
  InteractiveExplorer.isActionSkipped B
    (InteractiveExplorer.unskipAction B ex sid key) sid' key'
  = InteractiveExplorer.isActionSkipped B ex sid' key'
    && negb (bool_decide (sid' = sid) && bool_decide (key' = key)).
Proof.
  unfold InteractiveExplorer.isActionSkipped, InteractiveExplorer.skipAction,
    InteractiveExplorer.unskipAction.
  split.
  - simpl. destruct (decide (sid' = sid)) as [->|Hne].
    + rewrite lookup_insert_eq, (bool_decide_eq_true_2 (sid = sid)) by done.
      simpl. apply eq_true_iff_eq.
      destruct (InteractiveExplorer.skippedActions B ex !! sid) as [sk|];
        simpl; rewrite ?orb_true_iff, ?bool_decide_eq_true; set_solver.
    + rewrite lookup_insert_ne by done.
      rewrite (bool_decide_eq_false_2 (sid' = sid)) by done.
      by rewrite orb_false_r.
  - destruct (InteractiveExplorer.skippedActions B ex !! sid) as [sk|] eqn:E;
      simpl.
    + destruct (decide (sid' = sid)) as [->|Hne].
      * rewrite lookup_insert_eq, E, (bool_decide_eq_true_2 (sid = sid)) by done.
        simpl. apply eq_true_iff_eq.
        rewrite andb_true_iff, negb_true_iff, !bool_decide_eq_true,
          bool_decide_eq_false. set_solver.
      * rewrite lookup_insert_ne by done.
        rewrite (bool_decide_eq_false_2 (sid' = sid)) by done.
        by rewrite andb_true_r.
    + destruct (decide (sid' = sid)) as [->|Hne].
      * by rewrite E.
      * rewrite (bool_decide_eq_false_2 (sid' = sid)) by done.
        by rewrite andb_true_r.
Qed.


Lemma executeAction_unknown_action_witness :
  InteractiveExplorer.executeAction (H := Sample.pathOf) Sample.twoDoors ∅
    Sample.session "state_001:click:#nowhere:"
  = (Ok {| success := false;
           previousStateId :=
             InteractiveExplorer.currentStateId Sample.twoDoors Sample.session;
           newStateId :=
             InteractiveExplorer.currentStateId Sample.twoDoors Sample.session;
           isNewState := false;
           error := Some "Action not found: state_001:click:#nowhere:" |},
     Sample.session).
Proof.
  apply (executeAction_unknown_action (H := Sample.pathOf) Sample.twoDoors ∅
           Sample.session "state_001:click:#nowhere:" 0%nat).
  - reflexivity.
  - reflexivity.
  - vm_compute. reflexivity.
Defined.

(** X16: skipping is advisory. Marking an action as skipped, or unmarking
    it, changes nothing in what a later [executeAction] does: the call
    returns the same result and leaves the same controller, the skip set
    apart. *)
Theorem skip_is_advisory `{UrlParser} (B : Browser)
  (inputValues : gmap string string) (ex : InteractiveExplorer.t B)
  (sid key actionId : string) :
  let r := InteractiveExplorer.executeAction B inputValues ex actionId in
  InteractiveExplorer.executeAction B inputValues
    (InteractiveExplorer.skipAction B ex sid key) actionId
  = (r.1, InteractiveExplorer.skipAction B r.2 sid key) /\
  InteractiveExplorer.executeAction B inputValues
    (InteractiveExplorer.unskipAction B ex sid key) actionId
  = (r.1, InteractiveExplorer.unskipAction B r.2 sid key).
Proof.
  simpl.
  pose proof (executeAction_skippedActions B inputValues ex actionId) as Hsk.
  unfold InteractiveExplorer.skipAction, InteractiveExplorer.unskipAction.
  rewrite Hsk. split.
  - apply executeAction_setSkipped.
  - destruct (InteractiveExplorer.skippedActions B ex !! sid).
    + apply executeAction_setSkipped.
    + by destruct (InteractiveExplorer.executeAction B inputValues ex actionId).
Qed.

(** X17: history and transitions are append-only. Through any sequence of
    commands the exploration history and the transition list only grow at
    the end, and the transition list grows by no more than the history does:
    a repeated execution adds a step but no second transition. *)
Theorem commands_append_only `{UrlParser} (B : Browser)
  (inputValues : gmap string string) (ex : InteractiveExplorer.t B)
  (cs : list Command) :
  let ex' := runCommands B inputValues ex cs in
  InteractiveExplorer.explorationHistory B ex
    `prefix_of` InteractiveExplorer.explorationHistory B ex' /\
  StateGraph.transitions (InteractiveExplorer.stateGraph B ex)
    `prefix_of` StateGraph.transitions (InteractiveExplorer.stateGraph B ex') /\
  length (StateGraph.transitions (InteractiveExplorer.stateGraph B ex'))
    + length (InteractiveExplorer.explorationHistory B ex)
  <= length (StateGraph.transitions (InteractiveExplorer.stateGraph B ex))
     + length (InteractiveExplorer.explorationHistory B ex').
Proof.
  simpl. revert ex. induction cs as [|c cs IH]; intros ex.
  - split; [done|]. split; [done|]. simpl. lia.
  - change (runCommands B inputValues ex (c :: cs))
      with (runCommands B inputValues (runCommand B inputValues ex c) cs).
    destruct (runCommand_append B inputValues ex c) as (Hh1 & Ht1 & Hl1).
    destruct (IH (runCommand B inputValues ex c)) as (Hh2 & Ht2 & Hl2).
    split; [by etrans|]. split; [by etrans|]. lia.
Qed.

(** Executing [#a] twice from the entry state of [twoDoors]: two steps,
    one transition. *)
Example same_action_twice :
  let ex :=
    runCommands (H := Sample.pathOf) Sample.twoDoors ∅ Sample.session
      [CmdExecute "state_001:click:#a:"; CmdGoToRoot;
       CmdExecute "state_001:click:#a:"] in
  length (InteractiveExplorer.explorationHistory Sample.twoDoors ex) = 2 /\
  length (StateGraph.transitions
            (InteractiveExplorer.stateGraph Sample.twoDoors ex)) = 1.
Proof. vm_compute. done. Qed.

(** X18: the controller stays consistent. After [init] and any sequence of
    commands, the graph holds exactly the states of the state manager; the
    entry id of the graph is that of the controller and names a stored
    state; the current state is stored, so [getCurrentState] is not null;
    the path from the root starts at the entry state; and every recorded
    transition starts and ends at a stored state. *)
Theorem controller_consistent `{UrlParser} (B : Browser)
  (inputValues : gmap string string) (p0 : Page B) (cs : list Command) :
  let ex := controllerAfter B inputValues p0 cs in
  let g := InteractiveExplorer.stateGraph B ex in
  StateGraph.states g
    = StateManager.states (InteractiveExplorer.stateManager B ex) /\
  StateGraph.entryStateId g = InteractiveExplorer.entryStateId B ex /\
  StateGraph.has g (InteractiveExplorer.entryStateId B ex) = true /\
  is_Some (InteractiveExplorer.getCurrentState B ex) /\
  head (InteractiveExplorer.pathFromRoot B ex)
    = Some (InteractiveExplorer.entryStateId B ex) /\
  Forall (fun tr => StateGraph.has g (fromStateId tr) = true /\
                    StateGraph.has g (toStateId tr) = true)
    (StateGraph.transitions g).
Proof.
  simpl.
  destruct (controllerAfter_inv B inputValues p0 cs)
    as (_ & Hsync & Hge & Hentry & Hcur & Hpath & Htr & _ & _).
  unfold StateGraph.has. rewrite Hsync.
  split; [done|]. split; [done|].
  split; [by apply bool_decide_eq_true|].
  split; [by apply getState_known|]. split; [done|].
  apply Forall_forall. intros tr Hin. destruct (Htr tr Hin).
  split; by apply bool_decide_eq_true.
Qed.

Lemma generateActions_one inputValues el :
  exists a,
    ActionDiscovery.generateActionsForElement inputValues el = [a] /\
    elementSelector a = selector el /\ elementLabel a = label el /\
    a_type a = match el_type el with
               | EButton | ELink => AClick
               | EInput => AInput
               | ECheckbox => ACheck
               | ESelect => ASelect
               end.
Proof.
  unfold ActionDiscovery.generateActionsForElement.
  destruct (el_type el); eexists; (split; [done|]); done.
Qed.

(** X19: one offered action per element. [getAvailableActions] offers nothing
    when the current state is not stored; otherwise it offers exactly one
    action for each element of the current state, in the order of the
    elements and aimed at the selector of its element, with the id
    [`${stateId}:${actionKey}`] and the explored and skipped flags the
    manager and the skip set give for it. *)
Theorem available_one_per_element (B : Browser)
  (inputValues : gmap string string) (ex : InteractiveExplorer.t B) :
  match InteractiveExplorer.getCurrentState B ex with
  | None => InteractiveExplorer.getAvailableActions B inputValues ex = []
  | Some cs =>
    map (fun o => elementSelector (av_action o))
      (InteractiveExplorer.getAvailableActions B inputValues ex)
    = map selector (elements cs) /\
    Forall
      (fun o =>
         av_id o = id cs +:+ ":" +:+
                   InteractiveExplorer.getActionKey (av_action o) /\
         isExplored o
         = StateManager.isActionExplored
             (InteractiveExplorer.stateManager B ex) (id cs) (av_action o) /\
         isSkipped o
         = InteractiveExplorer.isActionSkipped B ex (id cs)
             (InteractiveExplorer.getActionKey (av_action o)))
      (InteractiveExplorer.getAvailableActions B inputValues ex)
  end.
Proof.
  unfold InteractiveExplorer.getAvailableActions.
  destruct (InteractiveExplorer.getCurrentState B ex) as [cs|]; [|done].
  split.
  - induction (elements cs) as [|el els IH]; simpl; [done|].
    rewrite map_app, IH.
    destruct (generateActions_one inputValues el) as (a & -> & Hs & _).
    simpl. by rewrite Hs.
  - apply Forall_forall. intros o Hin.
    apply list_elem_of_In, in_flat_map in Hin as (el & _ & Hin).
    apply in_map_iff in Hin as (a & <- & _). done.
Qed.

(** ** SessionManager, further *)

#[local] Set Warnings "-clear-no-such-hyp".

(** The own properties of the serialized record. *)
Lemma serializeSkippedActions_lookup (m : gmap string (gset string)) k :
  SessionManager.serializeSkippedActions m !! k
  = if bool_decide (k = "__proto__") then None
    else base.elements <$> m !! k.
Proof.
  unfold SessionManager.serializeSkippedActions.
  apply (map_fold_weak_ind
           (fun r (m : gmap string (gset string)) =>
              r !! k = if bool_decide (k = "__proto__") then None
                       else base.elements <$> m !! k)).
  - rewrite !lookup_empty. by case_bool_decide.
  - intros i x m' r Hi Hr. unfold record_set.
    destruct (decide (k = "__proto__")) as [Hk|Hk].
    + rewrite (bool_decide_eq_true_2 (k = "__proto__")) in * by done.
      destruct (bool_decide (i = "__proto__")) eqn:Ei; [done|].
      apply bool_decide_eq_false in Ei.
      rewrite lookup_insert_ne; [done|congruence].
    + rewrite (bool_decide_eq_false_2 (k = "__proto__")) in * by done.
      destruct (decide (i = k)) as [->|Hne].
      * rewrite (bool_decide_eq_false_2 (k = "__proto__")) by done.
        by rewrite !lookup_insert_eq.
      * rewrite (lookup_insert_ne m') by done.
        destruct (bool_decide (i = "__proto__")); [done|].
        by rewrite lookup_insert_ne.
Qed.

(** X20: the skip map round trip. Deserializing a serialized skip map gives
    the map back without its entry for the state id ["__proto__"], which
    the record cannot hold; so it gives the map back when there is no such
    entry.  Serializing a deserialized record keeps its keys other than
    ["__proto__"], and each array comes back duplicate-free with the same
    members. *)
Theorem skippedActions_round_trip (m : gmap string (gset string))
  (obj : gmap string (list string)) (sid : string) (l : list string) :
  SessionManager.deserializeSkippedActions
    (SessionManager.serializeSkippedActions m) = delete "__proto__" m /\
  (m !! "__proto__" = None ->
   SessionManager.deserializeSkippedActions
     (SessionManager.serializeSkippedActions m) = m) /\
  dom (SessionManager.serializeSkippedActions
         (SessionManager.deserializeSkippedActions obj))
    = dom obj ∖ {["__proto__"]} /\
  (obj !! sid = Some l -> sid <> "__proto__" ->
   exists l',
     SessionManager.serializeSkippedActions
       (SessionManager.deserializeSkippedActions obj) !! sid = Some l' /\
     NoDup l' /\ forall x, x ∈ l' <-> x ∈ l).
Proof.
  assert (Hback : SessionManager.deserializeSkippedActions
                    (SessionManager.serializeSkippedActions m)
                  = delete "__proto__" m).
  { unfold SessionManager.deserializeSkippedActions. apply map_eq. intros k.
    rewrite lookup_fmap, serializeSkippedActions_lookup.
    case_bool_decide as Hk.
    - subst k. by rewrite lookup_delete_eq.
    - rewrite lookup_delete_ne by done.
      destruct (m !! k) as [s|]; simpl; [|done].
      f_equal. apply list_to_set_elements_L. }
  split; [done|]. split; [|split].
  - intros Hm. rewrite Hback. by apply delete_id.
  - apply set_eq. intros k.
    rewrite elem_of_difference, !elem_of_dom, not_elem_of_singleton.
    rewrite serializeSkippedActions_lookup.
    unfold SessionManager.deserializeSkippedActions. rewrite lookup_fmap.
    case_bool_decide as Hk.
    + split; [by intros [? ?]|by intros [_ ?]].
    + rewrite !fmap_is_Some. split; [done|by intros [? _]].
  - intros Hl Hp. exists (base.elements (list_to_set l : gset string)).
    split; [|split].
    + rewrite serializeSkippedActions_lookup.
      rewrite bool_decide_eq_false_2 by done.
      unfold SessionManager.deserializeSkippedActions.
      by rewrite lookup_fmap, Hl.
    + apply NoDup_elements.
    + intros x. by rewrite elem_of_elements, elem_of_list_to_set.
Qed.

Lemma skippedActions_round_trip_witness :
  SessionManager.deserializeSkippedActions
    (SessionManager.serializeSkippedActions
       {["state_001" := {["click:#a:"]}]})
  = {["state_001" := {["click:#a:"]}]} /\
  exists l',
    SessionManager.serializeSkippedActions
      (SessionManager.deserializeSkippedActions
         {["state_001" := ["click:#a:"; "click:#a:"]]}) !! "state_001"
    = Some l' /\
    NoDup l' /\ forall x, x ∈ l' <-> x ∈ ["click:#a:"; "click:#a:"].
Proof.
  split.
  - apply (proj1 (proj2 (skippedActions_round_trip
                           {["state_001" := {["click:#a:"]}]} ∅ "" []))).
    apply lookup_singleton_ne. discriminate.
  - apply (proj2 (proj2 (proj2 (skippedActions_round_trip ∅
                                  {["state_001" := ["click:#a:"; "click:#a:"]]}
                                  "state_001" ["click:#a:"; "click:#a:"])))).
    + apply lookup_singleton_eq.
    + discriminate.
Defined.

(** A skip set stored under the state id ["__proto__"] is lost. *)
Example skippedActions_proto_lost :
  SessionManager.deserializeSkippedActions
    (SessionManager.serializeSkippedActions
       {["__proto__" := {["click:#a:"]}]}) = ∅.
Proof.
  rewrite (proj1 (skippedActions_round_trip _ ∅ "" [])).
  apply delete_singleton_eq.
Qed.

Lemma sanitize_file_safe s : file_safe (SessionManager.sanitize s) = true.
Proof.
  induction s as [|c r IH]; simpl; [done|]. rewrite IH, andb_true_r.
  destruct (SessionManager.isAlnum c) eqn:E; [by rewrite E|done].
Qed.

Lemma sanitize_fixed s :
  file_safe s = true -> SessionManager.sanitize s = s.
Proof.
  induction s as [|c r IH]; simpl; [done|].
  intros Hs. apply andb_true_iff in Hs as [Hc Hr]. rewrite IH by done.
  destruct (SessionManager.isAlnum c) eqn:E; [done|].
  simpl in Hc. apply bool_decide_eq_true in Hc. by subst.
Qed.

Lemma sanitize_length s :
  String.length (SessionManager.sanitize s) = String.length s.
Proof. induction s as [|c r IH]; simpl; [done|]. by rewrite IH. Qed.

(** X21: the default session path. [getDefaultSessionPath] throws when the
    application URL does not parse. Otherwise the path is
    "./output/sessions/<name>_session.json", where <name> is the host with
    every character other than a letter or a digit replaced by an
    underscore: it consists of letters, digits and underscores only (so it
    has no path separator and no dot), has the length of the host, and is
    the host itself when the host already has that form. *)
Theorem getDefaultSessionPath_safe (hostOf : string -> option string)
  (appUrl : string) :
  match hostOf appUrl with
  | None =>
    SessionManager.getDefaultSessionPath hostOf appUrl = Throw "Invalid URL"
  | Some host =>
    exists name,
      SessionManager.getDefaultSessionPath hostOf appUrl
        = Ok ("./output/sessions/" +:+ name +:+ "_session.json") /\
      name = SessionManager.sanitize host /\
      file_safe name = true /\
      String.length name = String.length host /\
      (file_safe host = true -> name = host)
  end.
Proof.
  unfold SessionManager.getDefaultSessionPath.
  destruct (hostOf appUrl) as [host|]; [|done].
  exists (SessionManager.sanitize host).
  split; [done|]. split; [done|]. split; [apply sanitize_file_safe|].
  split; [apply sanitize_length|apply sanitize_fixed].
Qed.

Lemma getDefaultSessionPath_safe_witness :
  exists name,
    SessionManager.getDefaultSessionPath (fun _ => Some "localhost")
      "http://localhost/"
      = Ok ("./output/sessions/" +:+ name +:+ "_session.json") /\
    name = "localhost".
Proof.
  destruct (getDefaultSessionPath_safe (fun _ => Some "localhost")
              "http://localhost/") as (name & Hp & _ & _ & _ & Hfix).
  exists name. split; [exact Hp|]. apply Hfix. vm_compute. reflexivity.
Defined.

(** The path for the sample application, and an address that is no URL. *)
Example getDefaultSessionPath_localhost :
  SessionManager.getDefaultSessionPath (fun _ => Some "localhost:3000")
    "http://localhost:3000"
  = Ok "./output/sessions/localhost_3000_session.json" /\
  SessionManager.getDefaultSessionPath (fun _ => None) "localhost"
  = Throw "Invalid URL".
Proof. vm_compute. split; reflexivity. Qed.

(** X22: [load] by version number. A stored object whose version is an
    integer other than 0, within the range where the numbers of JSON are
    exact integers and print in decimal (below 2^53 in absolute value), is
    never migrated: [load] throws when the number is greater than 1 and
    returns the object untouched otherwise, so a negative version comes
    back as it is. *)
Theorem load_by_version (env : SessionManager.Env) (filePath : string)
  (data : list (string * jsval)) (n : Z) :
  SessionManager.lookupField "version" data = JNum n -> n <> 0%Z ->
  (- 2 ^ 53 < n < 2 ^ 53)%Z ->
  SessionManager.load env filePath (SessionManager.Parsed (JObj data))
  = if bool_decide (1 < n)%Z
    then Throw ("Session file version " +:+ string_of_nat (Z.to_nat n) +:+
                " is newer than supported version 1")
    else Ok (JObj data).
Proof.
  intros Hv Hn _. unfold SessionManager.load, SessionManager.getProp.
  rewrite Hv. unfold SessionManager.js_eq_num, SessionManager.CURRENT_VERSION.
  case_bool_decide as H1; cbn [negb].
  - subst n. by rewrite (bool_decide_eq_false_2 (1 < 1)%Z) by lia.
  - unfold SessionManager.migrate, SessionManager.migrateFields.
    rewrite Hv.
    cbn [SessionManager.js_truthy SessionManager.js_eq_num
         SessionManager.js_gt_num SessionManager.js_show].
    rewrite !(bool_decide_eq_false_2 (n = 0%Z)) by done.
    cbn [negb orb]. unfold SessionManager.CURRENT_VERSION. done.
Qed.

Lemma load_by_version_witness :
  SessionManager.load Sample.env "s.json"
    (SessionManager.Parsed (JObj [("version", JNum 2)]))
  = Throw "Session file version 2 is newer than supported version 1".
Proof.
  apply (load_by_version Sample.env "s.json" [("version", JNum 2)] 2);
    [reflexivity|discriminate|lia].
Defined.

Lemma migrated_version env data v :
  SessionManager.migrateFields env v data = Ok v \/
  (exists fields, SessionManager.migrateFields env v data = Ok (JObj fields) /\
                  SessionManager.lookupField "version" fields = JNum 1) \/
  exists msg, SessionManager.migrateFields env v data = Throw msg.
Proof.
  unfold SessionManager.migrateFields.
  destruct (negb _ || _).
  - right. left. eexists. split; [done|]. reflexivity.
  - destruct (SessionManager.js_gt_num _ _); [right; right; by eexists|by left].
Qed.

Lemma migrateFields_passthrough env env' raw data :
  (forall fs, raw = JObj fs -> fs = data) ->
  SessionManager.migrateFields env raw data = Ok raw ->
  SessionManager.migrateFields env' raw data = Ok raw.
Proof.
  unfold SessionManager.migrateFields. intros Hd.
  destruct (negb _ || _) eqn:Hc.
  - intros [= Hr]. symmetry in Hr. rewrite <- (Hd _ Hr) in Hc.
    vm_compute in Hc. discriminate.
  - by destruct (SessionManager.js_gt_num _ _).
Qed.

Lemma load_passthrough env filePath raw :
  SessionManager.load env filePath (SessionManager.Parsed raw) = Ok raw ->
  forall env', SessionManager.load env' filePath (SessionManager.Parsed raw)
               = Ok raw.
Proof.
  unfold SessionManager.load. intros Hl env'.
  destruct (SessionManager.getProp raw "version") as [version|msg]; [|done].
  destruct (negb _); [|done].
  unfold SessionManager.migrate in *.
  destruct raw as [| |b|z|s0|items|fields]; try done;
    apply (migrateFields_passthrough env); try done; congruence.
Qed.

(** X23: a loaded session loads again unchanged. Whatever [load] returns
    for a stored value, storing that result and loading it again, at any
    later time, returns it as it is: a migration is never applied twice. *)
Theorem load_idempotent (env env' : SessionManager.Env) (filePath : string)
  (raw session : jsval) :
  SessionManager.load env filePath (SessionManager.Parsed raw) = Ok session ->
  SessionManager.load env' filePath (SessionManager.Parsed session) = Ok session.
Proof.
  intros Hl.
  assert (Hmig : forall e v d,
            SessionManager.migrateFields e v d = Ok session ->
            session = v \/
            exists fields, session = JObj fields /\
              SessionManager.lookupField "version" fields = JNum 1).
  { intros e v d Hm'.
    destruct (migrated_version e d v) as [Hm|[(fs & Hm & Hv)|(msg & Hm)]];
      rewrite Hm in Hm'; [left|right; exists fs; split; [|done]|done];
      congruence. }
  assert (Hcases : session = raw \/
            exists fields, session = JObj fields /\
              SessionManager.lookupField "version" fields = JNum 1).
  { unfold SessionManager.load in Hl.
    destruct (SessionManager.getProp raw "version") as [version|msg];
      [|done].
    destruct (negb _); [|left; congruence].
    unfold SessionManager.migrate in Hl.
    destruct raw as [| |b|z|s0|items|fields]; try done; by eapply Hmig. }
  destruct Hcases as [->|(fields & -> & Hv)].
  - by apply (load_passthrough env).
  - unfold SessionManager.load, SessionManager.getProp. by rewrite Hv.
Qed.

Lemma load_idempotent_witness :
  SessionManager.load Sample.env "s.json"
    (SessionManager.Parsed Sample.migratedLegacy)
  = Ok Sample.migratedLegacy.
Proof.
  apply (load_idempotent Sample.env Sample.env "s.json" Sample.legacyPayload).
  vm_compute. reflexivity.
Defined.

(** ** The skip handlers of the server *)

Lemma colon_free_append a b :
  colon_free (a +:+ b) = colon_free a && colon_free b.
Proof.
  induction a as [|c r IH]; simpl; [done|]. by rewrite IH, andb_assoc.
Qed.

Lemma colon_free_zeros k s : colon_free s = true -> colon_free (zeros k s) = true.
Proof. intros Hs. induction k as [|k IH]; simpl; [done|]. by rewrite IH. Qed.

Lemma colon_free_uint d : colon_free (NilEmpty.string_of_uint d) = true.
Proof. induction d; simpl; done. Qed.

Lemma colon_free_stateId n : colon_free (StateManager.stateId n) = true.
Proof.
  unfold StateManager.stateId. rewrite colon_free_append. simpl.
  unfold padStart0. apply colon_free_zeros, colon_free_uint.
Qed.

Lemma split_nonempty sep s : InteractiveServer.split sep s <> [].
Proof.
  destruct s as [|c r]; simpl; [done|].
  case_bool_decide; [done|]. by destruct (InteractiveServer.split sep r).
Qed.

Lemma split_prefix a b :
  colon_free a = true ->
  InteractiveServer.split ":" (a +:+ String ":" b)
  = a :: InteractiveServer.split ":" b.
Proof.
  induction a as [|c r IH]; simpl; intros Ha.
  - done.
  - apply andb_true_iff in Ha as [Hc Hr].
    apply negb_true_iff, bool_decide_eq_false in Hc.
    rewrite bool_decide_eq_false_2 by done. by rewrite IH.
Qed.

Lemma concat_split s :
  String.concat ":" (InteractiveServer.split ":" s) = s.
Proof.
  induction s as [|c r IH]; [done|].
  simpl InteractiveServer.split. case_bool_decide as Hc.
  - subst c. pose proof (split_nonempty ":" r) as Hne.
    destruct (InteractiveServer.split ":" r) as [|h t] eqn:E; [done|].
    simpl in *. by rewrite IH.
  - pose proof (split_nonempty ":" r) as Hne.
    destruct (InteractiveServer.split ":" r) as [|h t] eqn:E; [done|].
    destruct t as [|h' t']; simpl in *; by rewrite <- IH.
Qed.

Lemma actionKeyOf_spec sid key :
  colon_free sid = true ->
  InteractiveServer.actionKeyOf (sid +:+ ":" +:+ key) = key.
Proof.
  intros Hs. unfold InteractiveServer.actionKeyOf.
  change (sid +:+ ":" +:+ key) with (sid +:+ String ":" key).
  rewrite split_prefix by done. simpl. apply concat_split.
Qed.

(** X24: the server recovers the action key. From the id the controller
    gives an offered action ([`${stateId}:${actionKey}`], with a state id
    issued by the state manager) the skip handler extracts exactly the
    action key, colons in selectors and values included; so after
    [handleSkipAction] that action counts as skipped, and after
    [handleUnskipAction] it does not. *)
Theorem server_skip_recovers_key (B : Browser) (ex : InteractiveExplorer.t B)
  (n : nat) (a : Action) :
  let sid := StateManager.stateId n in
  let key := InteractiveExplorer.getActionKey a in
  let actionId := sid +:+ ":" +:+ key in
  InteractiveServer.actionKeyOf actionId = key /\
  InteractiveExplorer.isActionSkipped B
    (InteractiveServer.handleSkipAction B ex actionId sid) sid key = true /\
  InteractiveExplorer.isActionSkipped B
    (InteractiveServer.handleUnskipAction B ex actionId sid) sid key = false.
Proof.
  simpl.
  pose proof (actionKeyOf_spec (StateManager.stateId n)
                (InteractiveExplorer.getActionKey a) (colon_free_stateId n))
    as Hk.
  split; [done|].
  unfold InteractiveServer.handleSkipAction,
    InteractiveServer.handleUnskipAction. rewrite Hk.
  unfold InteractiveExplorer.isActionSkipped, InteractiveExplorer.skipAction,
    InteractiveExplorer.unskipAction. split.
  - simpl. rewrite lookup_insert_eq. apply bool_decide_eq_true. set_solver.
  - destruct (InteractiveExplorer.skippedActions B ex !! StateManager.stateId n)
      as [sk|] eqn:E; simpl.
    + rewrite lookup_insert_eq. apply bool_decide_eq_false. set_solver.
    + by rewrite E.
Qed.

(** A selector with colons in it survives the extraction. *)
Example actionKeyOf_colons :
  InteractiveServer.actionKeyOf "state_001:click:a:nth-of-type(2):"
  = "click:a:nth-of-type(2):".
Proof. vm_compute. reflexivity. Qed.
